(** * The RYG reaction-time test: scoring engine and gate state machine

    A shallow embedding of the script part of the reaction-time component
    (types, [pickNextColor], [scheduleStimulusAfterLGate],
    [showNextStimulus], [computeStats], [avg], [median], [round1],
    [histogram], [handleKeyDown], [handleKeyUp], [loadTop5],
    [persistTop5]) together with the properties its specification states,
    and of the rest of the script ([startTest], [endTest], [refreshTest],
    the timer callbacks, [mmss], the histogram chart) with properties of
    the sessions the component can go through.

    Numbers.  A JavaScript [number] that the component handles is a time
    stamp, a latency or a counter.  Finite numbers are embedded as exact
    rationals [Q] (compared with [==]); the rounding error of IEEE
    arithmetic is not modelled, and the infinities are left out.  What is
    stated of a computed latency is therefore stated through the
    program's own operations ([avg], [median], [round1], taken in the
    order the code applies them) and through order relations that
    rounding preserves, not through identities of exact arithmetic.  [NaN]
    and [undefined] are modelled explicitly because the code can produce
    both: a computed number is a [num], an optional field or an array slot
    that may hold [undefined] is an [option]. *)

From Stdlib Require Import QArith Qround Qminmax Lqa Lia ZArith List String Ascii.
From Stdlib Require Import Sorting.Sorted Sorting.Permutation.
From Stdlib Require Import DecimalString.
From stdpp Require Import base option list.
Import ListNotations.
Open Scope nat_scope.

Set Default Proof Using "Type".

(** ** Numbers *)

Inductive num : Type :=
| NaN
| Num (q : Q).

(** [ToNumber] on a slot that holds a finite number or [undefined]. *)
Definition ToNumber (v : option Q) : num :=
  match v with
  | Some q => Num q
  | None => NaN
  end.

(** [ToNumber] on the result of an expression that may be [undefined]. *)
Definition ToNumber' (v : option num) : num :=
  match v with
  | Some n => n
  | None => NaN
  end.

Definition num_add (a b : num) : num :=
  match a, b with
  | Num x, Num y => Num (x + y)%Q
  | _, _ => NaN
  end.

(** [a / n] for a positive array length or the constant 2. *)
Definition num_div_pos (a : num) (n : positive) : num :=
  match a with
  | Num x => Num (x / inject_Z (Z.pos n))
  | NaN => NaN
  end.

Definition num_min (a b : num) : num :=
  match a, b with
  | Num x, Num y => Num (if Qle_bool x y then x else y)
  | _, _ => NaN
  end.

Definition num_max (a b : num) : num :=
  match a, b with
  | Num x, Num y => Num (if Qle_bool x y then y else x)
  | _, _ => NaN
  end.

(** [Math.round x]: the nearest integer, ties towards plus infinity. *)
Definition Math_round (x : Q) : Z := Qfloor (x + (1 # 2))%Q.

(** [function round1(x) { return Math.round(x*10)/10; }] *)
Definition round1Q (x : Q) : Q := (inject_Z (Math_round (x * 10)) / 10)%Q.

Definition round1 (x : num) : num :=
  match x with
  | Num q => Num (round1Q q)
  | NaN => NaN
  end.

(** [Math.min(...arr)] and [Math.max(...arr)] on the non-empty array
    [x :: xs]; an [undefined] slot is converted to [NaN], which wins. *)
Definition Math_min (x : option Q) (xs : list (option Q)) : num :=
  fold_left (fun a b => num_min a (ToNumber b)) xs (ToNumber x).

Definition Math_max (x : option Q) (xs : list (option Q)) : num :=
  fold_left (fun a b => num_max a (ToNumber b)) xs (ToNumber x).

(** ** Types of the component *)

Inductive Color : Type := R | Y | G.

Inductive Phase : Type := idle | armed | awaiting_L | stimulus_on | finished.

Definition Color_eqb (a b : Color) : bool :=
  match a, b with
  | R, R | Y, Y | G, G => true
  | _, _ => false
  end.

Definition Phase_eqb (a b : Phase) : bool :=
  match a, b with
  | idle, idle | armed, armed | awaiting_L, awaiting_L
  | stimulus_on, stimulus_on | finished, finished => true
  | _, _ => false
  end.

(** [type Trial]: the optional fields [respondedAt?], [rt?], [wrongKey?]
    and [missed?] are [option]s, [None] standing for an absent field. *)
Record Trial : Type := mkTrial {
  color : Color;
  onset : Q;
  respondedAt : option Q;
  rt : option Q;
  correct : bool;
  premature : bool;
  wrongKey : option string;
  missed : option bool
}.

(** [Record<Color, A>]: an object with the three keys [R], [Y], [G]. *)
Record ByColor (A : Type) : Type := mkByColor { atR : A; atY : A; atG : A }.
Arguments mkByColor {A} _ _ _.
Arguments atR {A} _.
Arguments atY {A} _.
Arguments atG {A} _.

Definition get {A} (c : Color) (r : ByColor A) : A :=
  match c with
  | R => atR r
  | Y => atY r
  | G => atG r
  end.

Definition upd {A} (c : Color) (f : A -> A) (r : ByColor A) : ByColor A :=
  match c with
  | R => mkByColor (f (atR r)) (atY r) (atG r)
  | Y => mkByColor (atR r) (f (atY r)) (atG r)
  | G => mkByColor (atR r) (atY r) (f (atG r))
  end.

Module PerColor.
Record t : Type := mk {
  attempts : nat;
  correct : nat;
  accuracy : Q;
  avgRT : option num;
  medianRT : option num;
  minRT : option num;
  maxRT : option num
}.
End PerColor.

Module Stats.
Record t : Type := mk {
  totalTrials : nat;
  completedTrials : nat;
  correct : nat;
  accuracy : Q;
  prematureErrors : nat;
  wrongKeyErrors : nat;
  misses : nat;
  overallAvgRT : option num;
  overallMedianRT : option num;
  perColor : ByColor PerColor.t;
  rtSamples : list (option Q);
  rtSamplesByColor : ByColor (list (option Q))
}.
End Stats.

(** ** Truthiness tests used by the code *)

(** [if (t.missed)]: an absent field and [false] are both falsy. *)
Definition truthy_bool (b : option bool) : bool :=
  match b with
  | Some true => true
  | _ => false
  end.

(** [if (x)] on an optional number: [undefined] and [0] are falsy. *)
Definition truthy_num (v : option Q) : bool :=
  match v with
  | Some q => negb (Qeq_bool q 0)
  | None => false
  end.

(** [x != null] on an optional number: only [undefined] fails, [0] passes. *)
Definition not_null (v : option Q) : bool :=
  match v with
  | Some _ => true
  | None => false
  end.

(** ** Stats engine *)

(** [arr.reduce((a,b)=>a+b,0)] *)
Definition sum_slots (arr : list (option Q)) : num :=
  fold_left (fun a b => num_add a (ToNumber b)) arr (Num 0).

(** [function avg(arr)] *)
Definition avg (arr : list (option Q)) : num :=
  match length arr with
  | O => NaN
  | S n => num_div_pos (sum_slots arr) (Pos.of_succ_nat n)
  end.

(** [[...arr].sort((a,b)=>a-b)]: [Array.prototype.sort] moves the
    [undefined] slots to the end without consulting the comparator and
    orders the numbers by the comparator, here ascending.  Equal numbers
    are indistinguishable, so any sorting algorithm yields the same array;
    insertion sort stands for the engine's. *)
Fixpoint sort_insert (x : Q) (l : list Q) : list Q :=
  match l with
  | [] => [x]
  | y :: l' => if Qle_bool x y then x :: l else y :: sort_insert x l'
  end.

Fixpoint sort_numbers (l : list Q) : list Q :=
  match l with
  | [] => []
  | x :: l' => sort_insert x (sort_numbers l')
  end.

Definition numbers (arr : list (option Q)) : list Q := omap id arr.

Definition sorted_copy (arr : list (option Q)) : list (option Q) :=
  (Some <$> sort_numbers (numbers arr))
    ++ replicate (length arr - length (numbers arr)) None.

(** [function median(arr)]; the result is [undefined] ([None]) when the
    middle slot of an odd-sized array holds [undefined]. *)
Definition median (arr : list (option Q)) : option num :=
  match arr with
  | [] => Some NaN
  | _ =>
    let s := sorted_copy arr in
    let m := length s / 2 in
    if Nat.eqb (length s mod 2) 0
    then Some (num_div_pos
                 (num_add (ToNumber (mjoin (s !! (m - 1))))
                          (ToNumber (mjoin (s !! m)))) 2)
    else Num <$> mjoin (s !! m)
  end.

(** The mutable locals of [computeStats] while its loop runs. *)
Record Acc : Type := mkAcc {
  acc_perColor : ByColor PerColor.t;
  acc_rtAllCorrect : list (option Q);
  acc_rtByColor : ByColor (list (option Q));
  acc_prematureErrors : nat;
  acc_wrongKeyErrors : nat;
  acc_misses : nat;
  acc_completedTrials : nat
}.

Definition perColorInit : PerColor.t :=
  PerColor.mk 0 0 0%Q None None None None.

Definition acc_init : Acc :=
  mkAcc (mkByColor perColorInit perColorInit perColorInit)
        [] (mkByColor [] [] []) 0 0 0 0.

Definition add_attempt (p : PerColor.t) : PerColor.t :=
  PerColor.mk (PerColor.attempts p + 1) (PerColor.correct p)
              (PerColor.accuracy p) (PerColor.avgRT p) (PerColor.medianRT p)
              (PerColor.minRT p) (PerColor.maxRT p).

Definition add_correct (p : PerColor.t) : PerColor.t :=
  PerColor.mk (PerColor.attempts p) (PerColor.correct p + 1)
              (PerColor.accuracy p) (PerColor.avgRT p) (PerColor.medianRT p)
              (PerColor.minRT p) (PerColor.maxRT p).

(** One iteration of [for (const t of trs) { ... }]. *)
Definition loop_body (a : Acc) (t : Trial) : Acc :=
  let completed := acc_completedTrials a + 1 in
  let pc := upd (color t) add_attempt (acc_perColor a) in
  let prem := if premature t then acc_prematureErrors a + 1
              else acc_prematureErrors a in
  if truthy_bool (missed t) then
    (* misses += 1; continue; *)
    mkAcc pc (acc_rtAllCorrect a) (acc_rtByColor a) prem
          (acc_wrongKeyErrors a) (acc_misses a + 1) completed
  else if not_null (respondedAt t) then
    if correct t then
      mkAcc (upd (color t) add_correct pc)
            (acc_rtAllCorrect a ++ [rt t])
            (upd (color t) (fun arr => arr ++ [rt t]) (acc_rtByColor a))
            prem (acc_wrongKeyErrors a) (acc_misses a) completed
    else
      mkAcc pc (acc_rtAllCorrect a) (acc_rtByColor a) prem
            (acc_wrongKeyErrors a + 1) (acc_misses a) completed
  else
    mkAcc pc (acc_rtAllCorrect a) (acc_rtByColor a) prem
          (acc_wrongKeyErrors a) (acc_misses a + 1) completed.

Definition loop (trs : list Trial) (a : Acc) : Acc := fold_left loop_body trs a.

(** [100 * k / n] as computed for the two accuracy percentages. *)
Definition percent (k n : nat) : Q :=
  (100 * inject_Z (Z.of_nat k) / inject_Z (Z.of_nat n))%Q.

(** The body of [(['R','Y','G']).forEach(c => { ... })] for one colour. *)
Definition finish_color (p : PerColor.t) (arr : list (option Q)) : PerColor.t :=
  let acc := match PerColor.attempts p with
             | O => 0%Q
             | S _ => round1Q (percent (PerColor.correct p) (PerColor.attempts p))
             end in
  match arr with
  | [] =>
    PerColor.mk (PerColor.attempts p) (PerColor.correct p) acc
                (PerColor.avgRT p) (PerColor.medianRT p)
                (PerColor.minRT p) (PerColor.maxRT p)
  | x :: xs =>
    PerColor.mk (PerColor.attempts p) (PerColor.correct p) acc
                (Some (round1 (avg arr)))
                (Some (round1 (ToNumber' (median arr))))
                (Some (Math_min x xs))
                (Some (Math_max x xs))
  end.

(** [function computeStats(trs: Trial[]): OverallStats] *)
Definition computeStats (trs : list Trial) : Stats.t :=
  let a := loop trs acc_init in
  let rtAllCorrect := acc_rtAllCorrect a in
  let rtByColor := acc_rtByColor a in
  let overallAvgRT := avg rtAllCorrect in
  let overallMedianRT := median rtAllCorrect in
  let perColor :=
    mkByColor (finish_color (atR (acc_perColor a)) (atR rtByColor))
              (finish_color (atY (acc_perColor a)) (atY rtByColor))
              (finish_color (atG (acc_perColor a)) (atG rtByColor)) in
  let totalTrials := length trs in
  let correct := length rtAllCorrect in
  let accuracy := match totalTrials with
                  | O => 0%Q
                  | S _ => round1Q (percent correct totalTrials)
                  end in
  Stats.mk totalTrials (acc_completedTrials a) correct accuracy
           (acc_prematureErrors a) (acc_wrongKeyErrors a) (acc_misses a)
           (match rtAllCorrect with
            | [] => None
            | _ :: _ => Some (round1 overallAvgRT)
            end)
           (match rtAllCorrect with
            | [] => None
            | _ :: _ => Some (round1 (ToNumber' overallMedianRT))
            end)
           perColor rtAllCorrect rtByColor.

(** ** Histogram *)

Definition MAX_RT_MS : Q := 5000.

Module Histogram.
Record t : Type := mk {
  edges : list Q;
  counts : list nat;
  max : nat
}.
End Histogram.

(** The bin a sample falls into: [Math.floor(v / step)] clamped to
    [[0, bins - 1]]. *)
Definition bin_index (step : Q) (bins : positive) (v : Q) : nat :=
  let idx := Qfloor (v / step) in
  let idx := if (idx <? 0)%Z then 0%Z else idx in
  let idx := if (idx >=? Z.pos bins)%Z then (Z.pos bins - 1)%Z else idx in
  Z.to_nat idx.

(** [counts[idx]++] *)
Definition bump (idx : nat) (counts : list nat) : list nat :=
  match counts !! idx with
  | Some k => <[idx := k + 1]> counts
  | None => counts
  end.

(** [function histogram(rt: number[], bins = 10)]; [bins] is a positive
    number of bins (the only call passes 10). *)
Definition histogram (rt : list Q) (bins : positive) : Histogram.t :=
  let step := (MAX_RT_MS / inject_Z (Z.pos bins))%Q in
  let edges := (fun i => (inject_Z (Z.of_nat i) * step)%Q)
                 <$> seq 0 (Pos.to_nat bins + 1) in
  let counts := fold_left (fun cs v => bump (bin_index step bins v) cs) rt
                          (replicate (Pos.to_nat bins) 0) in
  Histogram.mk edges counts (fold_left Nat.max counts 1).

(** ** The component's state

    The script keeps its state in module-level variables; they become the
    fields of [State].  Trial objects are shared: [currentTrial], the
    elements of [trials] and the [myTrial] captured by a deadline callback
    may all denote one object, which the handlers mutate in place.  The
    objects therefore live in a store [heap], addressed by position, and
    the variables hold addresses; [===] on trials is equality of
    addresses.

    [window.setTimeout] and [window.setInterval] return handles, positive
    integers drawn from one counter.  A pending one-shot timer is recorded
    with its handle, the earliest time at which the browser may run it and
    the callback it runs.

    Variables that only feed the display ([timeLeftMs], [showSummary],
    [sessionStartWall], [top5], [hist], [lightMode]) are left out. *)

Definition TEST_DURATION_MS : Q := 60000.
Definition L_HOLD_MS : Q := 200.
Definition KEY_DEBOUNCE_MS : Q := 100.

Inductive Callback : Type :=
| GateCb                      (* the arrow function of scheduleStimulusAfterLGate *)
| DeadlineCb (myTrial : nat)  (* the arrow function of showNextStimulus *)
| EndTestCb.                  (* () => endTest() of the interval callback *)

Record Timeout : Type := mkTimeout {
  handle : positive;
  due : Q;
  callback : Callback
}.

Record State : Type := mkState {
  phase : Phase;
  testEndsAt : Q;
  timerId : option positive;
  heap : list Trial;
  trials : list nat;
  currentTrial : option nat;
  lIsDown : bool;
  lDownAt : Q;
  lGateTimer : option positive;
  lastColor : option Color;
  lastResponseAt : Q;
  hasFocus : bool;
  flagPrematureForNext : bool;
  summary : option Stats.t;
  timeouts : list Timeout;
  nextHandle : positive
}.

Definition set_phase (v : Phase) (s : State) : State :=
  mkState v (testEndsAt s) (timerId s) (heap s) (trials s) (currentTrial s)
    (lIsDown s) (lDownAt s) (lGateTimer s) (lastColor s) (lastResponseAt s)
    (hasFocus s) (flagPrematureForNext s) (summary s) (timeouts s)
    (nextHandle s).

Definition set_testEndsAt (v : Q) (s : State) : State :=
  mkState (phase s) v (timerId s) (heap s) (trials s) (currentTrial s)
    (lIsDown s) (lDownAt s) (lGateTimer s) (lastColor s) (lastResponseAt s)
    (hasFocus s) (flagPrematureForNext s) (summary s) (timeouts s)
    (nextHandle s).

Definition set_timerId (v : option positive) (s : State) : State :=
  mkState (phase s) (testEndsAt s) v (heap s) (trials s) (currentTrial s)
    (lIsDown s) (lDownAt s) (lGateTimer s) (lastColor s) (lastResponseAt s)
    (hasFocus s) (flagPrematureForNext s) (summary s) (timeouts s)
    (nextHandle s).

Definition set_heap (v : list Trial) (s : State) : State :=
  mkState (phase s) (testEndsAt s) (timerId s) v (trials s) (currentTrial s)
    (lIsDown s) (lDownAt s) (lGateTimer s) (lastColor s) (lastResponseAt s)
    (hasFocus s) (flagPrematureForNext s) (summary s) (timeouts s)
    (nextHandle s).

Definition set_trials (v : list nat) (s : State) : State :=
  mkState (phase s) (testEndsAt s) (timerId s) (heap s) v (currentTrial s)
    (lIsDown s) (lDownAt s) (lGateTimer s) (lastColor s) (lastResponseAt s)
    (hasFocus s) (flagPrematureForNext s) (summary s) (timeouts s)
    (nextHandle s).

Definition set_currentTrial (v : option nat) (s : State) : State :=
  mkState (phase s) (testEndsAt s) (timerId s) (heap s) (trials s) v
    (lIsDown s) (lDownAt s) (lGateTimer s) (lastColor s) (lastResponseAt s)
    (hasFocus s) (flagPrematureForNext s) (summary s) (timeouts s)
    (nextHandle s).

Definition set_lIsDown (v : bool) (s : State) : State :=
  mkState (phase s) (testEndsAt s) (timerId s) (heap s) (trials s)
    (currentTrial s) v (lDownAt s) (lGateTimer s) (lastColor s)
    (lastResponseAt s) (hasFocus s) (flagPrematureForNext s) (summary s)
    (timeouts s) (nextHandle s).

Definition set_lDownAt (v : Q) (s : State) : State :=
  mkState (phase s) (testEndsAt s) (timerId s) (heap s) (trials s)
    (currentTrial s) (lIsDown s) v (lGateTimer s) (lastColor s)
    (lastResponseAt s) (hasFocus s) (flagPrematureForNext s) (summary s)
    (timeouts s) (nextHandle s).

Definition set_lGateTimer (v : option positive) (s : State) : State :=
  mkState (phase s) (testEndsAt s) (timerId s) (heap s) (trials s)
    (currentTrial s) (lIsDown s) (lDownAt s) v (lastColor s)
    (lastResponseAt s) (hasFocus s) (flagPrematureForNext s) (summary s)
    (timeouts s) (nextHandle s).

Definition set_lastColor (v : option Color) (s : State) : State :=
  mkState (phase s) (testEndsAt s) (timerId s) (heap s) (trials s)
    (currentTrial s) (lIsDown s) (lDownAt s) (lGateTimer s) v
    (lastResponseAt s) (hasFocus s) (flagPrematureForNext s) (summary s)
    (timeouts s) (nextHandle s).

Definition set_lastResponseAt (v : Q) (s : State) : State :=
  mkState (phase s) (testEndsAt s) (timerId s) (heap s) (trials s)
    (currentTrial s) (lIsDown s) (lDownAt s) (lGateTimer s) (lastColor s) v
    (hasFocus s) (flagPrematureForNext s) (summary s) (timeouts s)
    (nextHandle s).

Definition set_hasFocus (v : bool) (s : State) : State :=
  mkState (phase s) (testEndsAt s) (timerId s) (heap s) (trials s)
    (currentTrial s) (lIsDown s) (lDownAt s) (lGateTimer s) (lastColor s)
    (lastResponseAt s) v (flagPrematureForNext s) (summary s) (timeouts s)
    (nextHandle s).

Definition set_flagPrematureForNext (v : bool) (s : State) : State :=
  mkState (phase s) (testEndsAt s) (timerId s) (heap s) (trials s)
    (currentTrial s) (lIsDown s) (lDownAt s) (lGateTimer s) (lastColor s)
    (lastResponseAt s) (hasFocus s) v (summary s) (timeouts s)
    (nextHandle s).

Definition set_summary (v : option Stats.t) (s : State) : State :=
  mkState (phase s) (testEndsAt s) (timerId s) (heap s) (trials s)
    (currentTrial s) (lIsDown s) (lDownAt s) (lGateTimer s) (lastColor s)
    (lastResponseAt s) (hasFocus s) (flagPrematureForNext s) v (timeouts s)
    (nextHandle s).

Definition set_timeouts (v : list Timeout) (s : State) : State :=
  mkState (phase s) (testEndsAt s) (timerId s) (heap s) (trials s)
    (currentTrial s) (lIsDown s) (lDownAt s) (lGateTimer s) (lastColor s)
    (lastResponseAt s) (hasFocus s) (flagPrematureForNext s) (summary s) v
    (nextHandle s).

Definition set_nextHandle (v : positive) (s : State) : State :=
  mkState (phase s) (testEndsAt s) (timerId s) (heap s) (trials s)
    (currentTrial s) (lIsDown s) (lDownAt s) (lGateTimer s) (lastColor s)
    (lastResponseAt s) (hasFocus s) (flagPrematureForNext s) (summary s)
    (timeouts s) v.

Definition init : State :=
  mkState idle 0 None [] [] None false 0 None None 0 true false None [] 1.

Definition Qlt_bool (x y : Q) : bool := negb (Qle_bool y x).

(** [clearTimeout(h)]: the timer with that handle, if still pending, is
    dropped; clearing a handle that is not pending does nothing. *)
Definition clearTimeout (h : positive) (s : State) : State :=
  set_timeouts (filter (fun t => handle t ≠ h) (timeouts s)) s.

(** [window.setTimeout(cb, ms)] called no earlier than the clock reading
    [now]: the callback may run at any time from [now + ms] on. *)
Definition setTimeout (cb : Callback) (now ms : Q) (s : State) : positive * State :=
  let h := nextHandle s in
  (h, set_nextHandle (Pos.succ h)
        (set_timeouts (mkTimeout h (now + ms) cb :: timeouts s) s)).

(** ** Helpers *)

(** An array read [arr[i]] with a computed integer index. *)
Definition index {A} (arr : list A) (i : Z) : option A :=
  if (i <? 0)%Z then None else arr !! Z.to_nat i.

(** [function pickNextColor(): Color]; [r] is the value returned by
    [Math.random()].  The result is [None] when the array read yields
    [undefined], which [pickNextColor_defined] excludes for [0 <= r < 1]. *)
Definition pickNextColor (lastColor : option Color) (r : Q) : option Color :=
  let colors := [R; Y; G] in
  let candidates :=
    match lastColor with
    | Some l => List.filter (fun c => negb (Color_eqb c l)) colors
    | None => colors
    end in
  let i := Qfloor (r * inject_Z (Z.of_nat (length candidates))) in
  index candidates i.

(** [function clearTimer()] *)
Definition clearTimer (s : State) : State := set_timerId None s.

(** [function endTest()].  The summary it builds is kept; the two
    persistence calls only touch [localStorage] (see [persistTop5]). *)
Definition endTest (s : State) : State :=
  match phase s with
  | finished => s
  | _ =>
    let s := clearTimer s in
    let s := set_phase finished s in
    let stats := computeStats (omap (fun a => heap s !! a) (trials s)) in
    set_summary (Some stats) s
  end.

(** [function startTest()]; [now] is its reading of [performance.now()]. *)
Definition startTest (now : Q) (s : State) : State :=
  match phase s with
  | idle =>
    let s := set_trials [] s in
    let s := set_currentTrial None s in
    let s := set_summary None s in
    let s := set_phase armed s in
    let s := set_testEndsAt (now + TEST_DURATION_MS)%Q s in
    let s := set_timerId (Some (nextHandle s)) s in
    let s := set_nextHandle (Pos.succ (nextHandle s)) s in
    set_phase awaiting_L s
  | _ => s
  end.

(** The callback given to [setInterval] in [startTest]; [t] is its reading
    of the clock. *)
Definition tick (t : Q) (s : State) : State :=
  if Qle_bool (testEndsAt s) t then
    let s := clearTimer s in
    match phase s with
    | stimulus_on => snd (setTimeout EndTestCb t (MAX_RT_MS + 50) s)
    | _ => endTest s
    end
  else s.

(** [function showNextStimulus()]; [t1] and [t2] are its two readings of
    the clock and [r] the random number drawn by [pickNextColor]. *)
Definition showNextStimulus (t1 t2 r : Q) (s : State) : State :=
  if Qle_bool (testEndsAt s) t1 then s
  else
    match pickNextColor (lastColor s) r with
    | None => s
    | Some c =>
      let s := set_lastColor (Some c) s in
      let myTrial := length (heap s) in
      let s := set_heap
                 (heap s ++ [mkTrial c t2 None None false
                                     (flagPrematureForNext s) None None]) s in
      let s := set_currentTrial (Some myTrial) s in
      let s := set_flagPrematureForNext false s in
      let s := set_trials (trials s ++ [myTrial]) s in
      let s := set_phase stimulus_on s in
      snd (setTimeout (DeadlineCb myTrial) t2 (MAX_RT_MS + 1) s)
    end.

(** The deadline callback armed by [showNextStimulus] for [myTrial]. *)
Definition deadline_guard (myTrial : nat) (s : State) : bool :=
  Phase_eqb (phase s) stimulus_on
  && bool_decide (currentTrial s = Some myTrial)
  && match heap s !! myTrial with
     | Some tr => negb (truthy_num (respondedAt tr))
     | None => false
     end.

Definition set_missed (v : option bool) (tr : Trial) : Trial :=
  mkTrial (color tr) (onset tr) (respondedAt tr) (rt tr) (correct tr)
          (premature tr) (wrongKey tr) v.

Definition deadlineCallback (myTrial : nat) (s : State) : State :=
  if deadline_guard myTrial s then
    let s := set_heap (alter (set_missed (Some true)) myTrial (heap s)) s in
    set_phase awaiting_L s
  else s.

(** [function scheduleStimulusAfterLGate()]; [now] is its reading of the
    clock. *)
Definition scheduleStimulusAfterLGate (now : Q) (s : State) : State :=
  match phase s with
  | awaiting_L =>
    let s := match lGateTimer s with
             | Some h => clearTimeout h s
             | None => s
             end in
    let alreadyHeld := (now - lDownAt s)%Q in
    let waitMs := Qmax 1 (L_HOLD_MS - alreadyHeld) in
    let '(h, s) := setTimeout GateCb now waitMs s in
    set_lGateTimer (Some h) s
  | _ => s
  end.

(** The callback armed by [scheduleStimulusAfterLGate]; [t0] is its own
    reading of the clock, the rest is handed to [showNextStimulus]. *)
Definition gateCallback (t0 t1 t2 r : Q) (s : State) : State :=
  if lIsDown s && Phase_eqb (phase s) awaiting_L && Qlt_bool t0 (testEndsAt s)
  then showNextStimulus t1 t2 r s
  else s.

(** ** Input handling

    The handlers receive [key], the value of [e.key.toUpperCase()], and the
    clock readings they take. *)

Definition Color_key (c : Color) : string :=
  match c with
  | R => "R"
  | Y => "Y"
  | G => "G"
  end.

(** [/^[A-Z]$/.test(key)] *)
Definition isLetter (key : string) : bool :=
  match key with
  | String a EmptyString =>
    (65 <=? nat_of_ascii a) && (nat_of_ascii a <=? 90)
  | _ => false
  end.

(** The assignments made to the active trial by the first accepted key. *)
Definition respond (key : string) (now : Q) (tr : Trial) : Trial :=
  let ok := String.eqb key (Color_key (color tr)) in
  mkTrial (color tr) (onset tr) (Some now) (Some (now - onset tr)%Q) ok
          (premature tr) (if ok then wrongKey tr else Some key) (missed tr).

(** [function handleKeyDown(e)]; [now] is the handler's reading of the
    clock and [now'] the later reading taken inside
    [scheduleStimulusAfterLGate] when that is called. *)
Definition handleKeyDown (key : string) (now now' : Q) (s : State) : State :=
  if negb (hasFocus s) then s
  else if String.eqb key "L" then
    if negb (lIsDown s) then
      let s := set_lIsDown true s in
      let s := set_lDownAt now s in
      if Phase_eqb (phase s) awaiting_L && Qlt_bool now (testEndsAt s)
      then scheduleStimulusAfterLGate now' s
      else s
    else s
  else if Qlt_bool (now - lastResponseAt s) KEY_DEBOUNCE_MS then s
  else
    match phase s with
    | awaiting_L =>
      if String.eqb key "R" || String.eqb key "Y" || String.eqb key "G"
      then set_flagPrematureForNext true s
      else s
    | stimulus_on =>
      match currentTrial s with
      | Some a =>
        match heap s !! a with
        | Some tr =>
          if isLetter key then
            let s := set_lastResponseAt now s in
            if negb (truthy_num (respondedAt tr)) then
              let s := set_heap (<[a := respond key now tr]> (heap s)) s in
              set_phase awaiting_L s
            else s
          else s
        | None => s
        end
      | None => s
      end
    | _ => s
    end.

(** [function handleKeyUp(e)] *)
Definition handleKeyUp (key : string) (now : Q) (s : State) : State :=
  if String.eqb key "L" then
    let s :=
      match lGateTimer s with
      | Some h =>
        if Qlt_bool (now - lDownAt s) L_HOLD_MS
        then set_lGateTimer None (clearTimeout h s)
        else s
      | None => s
      end in
    set_lIsDown false s
  else s.

(** [function refreshTest()] *)
Definition refreshTest (s : State) : State :=
  let s := clearTimer s in
  let s := set_phase idle s in
  let s := set_trials [] s in
  let s := set_currentTrial None s in
  let s := set_lastColor None s in
  let s := set_lIsDown false s in
  let s := set_lDownAt 0 s in
  let s := match lGateTimer s with
           | Some h => set_lGateTimer None (clearTimeout h s)
           | None => s
           end in
  set_summary None s.

(** ** The event loop

    What the browser may deliver to the component.  A [Fire] event runs
    the pending one-shot timer with the given handle; the browser never
    runs a timer before it is due, and [t0], the clock at the time the
    callback starts, is the first of the callback's readings. *)
Inductive Event : Type :=
| KeyDown (key : string) (now now' : Q)
| KeyUp (key : string) (now : Q)
| Fire (h : positive) (t0 t1 t2 r : Q)
| Tick (t : Q)
| Focus
| Blur
| Start (now : Q)
| Refresh.

Definition pending (h : positive) (s : State) : option Timeout :=
  head (filter (fun t => handle t = h) (timeouts s)).

Definition run_callback (cb : Callback) (t0 t1 t2 r : Q) (s : State) : State :=
  match cb with
  | GateCb => gateCallback t0 t1 t2 r s
  | DeadlineCb myTrial => deadlineCallback myTrial s
  | EndTestCb => endTest s
  end.

Definition step (e : Event) (s : State) : State :=
  match e with
  | KeyDown key now now' => handleKeyDown key now now' s
  | KeyUp key now => handleKeyUp key now s
  | Fire h t0 t1 t2 r =>
    match pending h s with
    | Some t =>
      if Qle_bool (due t) t0
      then run_callback (callback t) t0 t1 t2 r (clearTimeout h s)
      else s
    | None => s
    end
  | Tick t =>
    match timerId s with
    | Some _ => tick t s
    | None => s
    end
  | Focus => set_hasFocus true s
  | Blur => set_hasFocus false s
  | Start now => startTest now s
  | Refresh => refreshTest s
  end.

Definition run (evs : list Event) (s : State) : State :=
  fold_left (fun s e => step e s) evs s.

Inductive reachable : State -> Prop :=
| reachable_init : reachable init
| reachable_step e s : reachable s -> reachable (step e s).

(** ** Persistence

    [localStorage] and [JSON] belong to the platform.  The stored item is
    a string or absent; [JSON.parse] and [JSON.stringify] are parameters of
    the development, a parse that throws being [None].  A JavaScript value
    is a [value]; the session summary handed to [persistTop5] is one. *)

#[warnings="-register-all"]
Inductive value : Type :=
| VUndefined
| VNull
| VBool (b : bool)
| VNumber (n : num)
| VString (s : string)
| VArray (items : list value)
| VObject (fields : list (string * value)).

(** The outcome of [localStorage.getItem(STORAGE_KEY)]: it throws, or it
    returns the item, [None] being [null]. *)
Inductive GetItem : Type :=
| Threw
| Got (raw : option string).

Section Persistence.

Variable JSON_parse : string -> option value.
Variable JSON_stringify : value -> string.

(** [function loadTop5(): SessionSummary[]] *)
Definition loadTop5 (r : GetItem) : list value :=
  match r with
  | Threw => []
  | Got None => []
  | Got (Some raw) =>
    if String.eqb raw "" then []
    else
      match JSON_parse raw with
      | Some (VArray arr) => arr
      | Some _ => []
      | None => []
      end
  end.

(** [function persistTop5(s: SessionSummary)]: from the item found in
    the store to the item left in it ([setItem] is taken to succeed). *)
Definition persistTop5 (s : value) (item : option string) : option string :=
  let arr := loadTop5 (Got item) in
  let arr := s :: arr in
  let arr := take 5 arr in
  Some (JSON_stringify (VArray arr)).

(** The items this component has left in the store: none at all, or
    what [persistTop5] wrote over whatever was there. *)
Inductive written : option string -> Prop :=
| written_absent : written None
| written_persist s item : written (persistTop5 s item).

End Persistence.

(** * Notions used in the statements *)

(** The trials whose latency enters the correct-only sample: not flagged
    missed, with a recorded response, and correct. *)
Definition counted (t : Trial) : bool :=
  negb (truthy_bool (missed t)) && not_null (respondedAt t) && correct t.

(** The trials counted as wrong-key errors and as misses. *)
Definition counted_wrong (t : Trial) : bool :=
  negb (truthy_bool (missed t)) && not_null (respondedAt t) && negb (correct t).

Definition counted_miss (t : Trial) : bool :=
  truthy_bool (missed t) || negb (not_null (respondedAt t)).

Definition counted_in (c : Color) (t : Trial) : bool :=
  counted t && Color_eqb (color t) c.

Definition attempted_in (c : Color) (t : Trial) : bool := Color_eqb (color t) c.

(** The record of a plain miss with the colour and premature flag of [t]:
    no response, no latency, no wrong key. *)
Definition bare_miss (t : Trial) : Trial :=
  mkTrial (color t) (onset t) None None false (premature t) None (Some true).

(** The specification's words: the arithmetic mean of a sample, the
    order-statistic median of a sample (read off any ascending
    arrangement of it), and rounding to one decimal place.  [mean] and
    [rounded1] are notions of exact arithmetic; [middle] is the
    expression the code evaluates on the sorted sample. *)
Definition Qsum (l : list Q) : Q := fold_right Qplus 0%Q l.

Definition mean (l : list Q) : Q :=
  (Qsum l / inject_Z (Z.of_nat (length l)))%Q.

Definition middle (s : list Q) : Q :=
  let n := length s in
  if Nat.even n
  then ((nth (n / 2 - 1) s 0 + nth (n / 2) s 0) / 2)%Q
  else nth (n / 2) s 0%Q.

Definition is_median (l : list Q) (m : Q) : Prop :=
  exists s, Permutation s l /\ Sorted Qle s /\ (m == middle s)%Q.

Definition rounded1 (x y : Q) : Prop :=
  exists z : Z,
    (y == inject_Z z / 10)%Q
    /\ (inject_Z z - (1 # 2) <= x * 10)%Q /\ (x * 10 < inject_Z z + (1 # 2))%Q.

(** The four latency fields of a colour's entry. *)
Definition rt_fields (p : PerColor.t) :=
  (PerColor.avgRT p, PerColor.medianRT p, PerColor.minRT p, PerColor.maxRT p).

(** In the exact arithmetic of the model: the mean and median reported
    for a sample are [undefined] exactly when the sample is empty, and
    for a non-empty sample of numbers they are numbers, the mean and the
    median each rounded to one decimal. *)
Definition reports (sample : list (option Q)) (avgRT medianRT : option num) : Prop :=
  (avgRT = None <-> sample = [])
  /\ (medianRT = None <-> sample = [])
  /\ forall l : list Q,
       l <> [] -> sample = Some <$> l ->
       exists a m m0,
         avgRT = Some (Num a) /\ rounded1 (mean l) a
         /\ medianRT = Some (Num m) /\ is_median l m0 /\ rounded1 m0 m.

(** The claim, as stated, about one colour's entry: all four latencies
    are reported and the rounded median and mean lie between the minimum
    and the maximum. *)
Definition within_range (p : PerColor.t) : Prop :=
  exists lo hi a m,
    PerColor.minRT p = Some (Num lo) /\ PerColor.maxRT p = Some (Num hi)
    /\ PerColor.avgRT p = Some (Num a) /\ PerColor.medianRT p = Some (Num m)
    /\ (lo <= m)%Q /\ (m <= hi)%Q /\ (lo <= a)%Q /\ (a <= hi)%Q.

(** A log with one correct response to a red stimulus: onset at 1000 ms,
    key at 1310.25 ms, latency 310.25 ms. *)
Definition quarter_ms_log : list Trial :=
  [mkTrial R 1000 (Some (5241 # 4)) (Some (1241 # 4)) true false None None].

(** The counting loop of [histogram], from any array of counters. *)
Definition count_into (step : Q) (bins : positive) (rt : list Q) (cs : list nat) :=
  fold_left (fun cs v => bump (bin_index step bins v) cs) rt cs.

Definition is_gate (cb : Callback) : bool :=
  match cb with
  | GateCb => true
  | _ => false
  end.

(** No gate timer is pending. *)
Definition no_gate_pending (s : State) : Prop :=
  Forall (fun t => is_gate (callback t) = false) (timeouts s).

(** The colour held by [lastColor] is that of the last trial of the
    session's log, and there is none when the log is empty. *)
Definition lastColor_ok (s : State) : Prop :=
  match last (trials s) with
  | Some a => exists tr, heap s !! a = Some tr /\ lastColor s = Some (color tr)
  | None => lastColor s = None
  end.

Record inv (s : State) : Prop := mkInv {
  inv_fresh :
    Forall (fun t => (handle t < nextHandle s)%positive) (timeouts s);
  inv_gate :
    Forall (fun t => is_gate (callback t) = true ->
                     lGateTimer s = Some (handle t)) (timeouts s);
  inv_stimulus :
    phase s = stimulus_on ->
    no_gate_pending s
    /\ exists a tr, currentTrial s = Some a /\ heap s !! a = Some tr
                    /\ respondedAt tr = None;
  inv_color : lastColor_ok s;
  inv_idle : phase s = idle -> trials s = []
}.

(** A session just started at time 0: the phase is [awaiting_L] and
    [lastResponseAt] is still 0. *)
Definition started : State := step (Start 0) init.

(** A non-gate key press that gets past the focus test and the debounce
    test of [handleKeyDown]. *)
Definition accepted (key : string) (now : Q) (s : State) : Prop :=
  hasFocus s = true /\ String.eqb key "L" = false
  /\ Qlt_bool (now - lastResponseAt s) KEY_DEBOUNCE_MS = false.

(** The number of stimuli revealed so far: every call of
    [showNextStimulus] that passes its time check creates one trial
    object, and nothing else creates one. *)
Definition revealed (s : State) : nat := length (heap s).

Definition gate_down (e : Event) : bool :=
  match e with
  | KeyDown key _ _ => String.eqb key "L"
  | _ => false
  end.

Definition gate_up (e : Event) : bool :=
  match e with
  | KeyUp key _ => String.eqb key "L"
  | _ => false
  end.

Definition is_refresh (e : Event) : bool :=
  match e with
  | Refresh => true
  | _ => false
  end.

(** The events that may occur while the gate key stays down and the gate
    timer [h], due at [D], has not run: anything but a release of the gate
    key, a refresh, or the timer [h] running at a time from [D] on. *)
Definition during_hold (h : positive) (D : Q) (e : Event) : bool :=
  match e with
  | Fire h' t _ _ _ => negb (Pos.eqb h' h) || Qlt_bool t D
  | _ => negb (gate_up e) && negb (is_refresh e)
  end.

(** What the handlers other than a gate press leave alone. *)
Definition gate_fields (s : State) :=
  (timeouts s, nextHandle s, lGateTimer s, lIsDown s, lDownAt s).

(** The state of affairs while the gate key is held in [awaiting_L] after
    a press at [t0]: the timer [h], due at [D], is the pending gate timer,
    and [n] stimuli have been revealed. *)
Definition holding (h : positive) (D t0 : Q) (n : nat) (s : State) : Prop :=
  inv s /\ lIsDown s = true /\ lDownAt s = t0 /\ lGateTimer s = Some h
  /\ revealed s = n
  /\ mkTimeout h D GateCb ∈ timeouts s
  /\ Forall (fun t => handle t = h -> t = mkTimeout h D GateCb) (timeouts s).

(** Two correct responses (310 ms to a yellow, 420 ms to a red stimulus),
    a wrong key and a miss. *)
Definition sample_log : list Trial :=
  [ mkTrial Y 0 (Some 310%Q) (Some 310%Q) true false None None;
    mkTrial R 1000 (Some 1420%Q) (Some 420%Q) true true None None;
    mkTrial G 2000 (Some 2500%Q) (Some 500%Q) false false
            (Some "R"%string) None;
    mkTrial R 3000 None None false false None (Some true) ].

(** A trial flagged missed although a correct response is recorded on it. *)
Definition missed_but_answered : Trial :=
  mkTrial G 5000 (Some 5300%Q) (Some 300%Q) true false None (Some true).

(** The state right after the first stimulus of a session is revealed. *)
Definition first_stimulus : State :=
  run [Start 0; KeyDown "L" 1000 1000; Fire 2 1200 1200 1200 0] init.

(** A serialiser that keeps of an array only its length, and its parser:
    enough to exhibit the two assumptions made on [JSON]. *)
Fixpoint marks (n : nat) : string :=
  match n with
  | O => EmptyString
  | S n => String "x" (marks n)
  end.

Definition length_stringify (v : value) : string :=
  match v with
  | VArray l => String "[" (marks (length l))
  | _ => "null"
  end.

Definition length_parse (raw : string) : option value :=
  match raw with
  | String a rest =>
    if Ascii.eqb a "[" then Some (VArray (replicate (String.length rest) VNull))
    else None
  | EmptyString => None
  end.

(** A session started at 0; the gate key goes down at 100 and its timer
    runs at 300, revealing a yellow stimulus (random draw 1/2). *)
Definition yellow_shown : State :=
  run [Start 0; KeyDown "L" 100 100; Fire 2 300 300 300 (1 # 2)] init.

(** The same, with the key G pressed at 150 while still waiting. *)
Definition yellow_shown_after_premature : State :=
  run [Start 0; KeyDown "G" 150 150; KeyDown "L" 200 200;
       Fire 2 400 400 400 (1 # 2)] init.

(** * Further notions: the rest of the component *)

(** A trial with its premature flag cleared. *)
Definition clear_premature (t : Trial) : Trial :=
  mkTrial (color t) (onset t) (respondedAt t) (rt t) (correct t) false
          (wrongKey t) (missed t).

(** ** The histogram chart of the summary

    The markup draws one [<rect>] per counter [c] at index [i] of
    [hist.counts], in a 600 by 160 view box, and labels it with the lower
    edge of its bin.  The expressions are those of the attributes [x],
    [y], [width], [height] and of the label text. *)
Definition bar_height (h : Histogram.t) (c : nat) : Q :=
  match Histogram.max h with
  | O => 0
  | S _ => inject_Z (Z.of_nat c) / inject_Z (Z.of_nat (Histogram.max h)) * 140
  end.

Definition bar_y (h : Histogram.t) (c : nat) : Q := 150 - bar_height h c.

Definition bar_x (h : Histogram.t) (i : nat) : Q :=
  inject_Z (Z.of_nat i)
  * (600 / inject_Z (Z.of_nat (length (Histogram.counts h)))) + 2.

Definition bar_width (h : Histogram.t) : Q :=
  600 / inject_Z (Z.of_nat (length (Histogram.counts h))) - 4.

Definition bar_label (h : Histogram.t) (i : nat) : Z :=
  Math_round (inject_Z (Z.of_nat i)
              * (MAX_RT_MS / inject_Z (Z.of_nat (length (Histogram.counts h))))).

(** [$: hist = summary ? histogram(summary.stats.rtSamples, 10) : null].
    A slot holding [undefined] makes [Math.floor(v / step)] [NaN], which
    passes neither clamp and indexes no bin, so only the numbers of the
    sample are counted. *)
Definition hist (summary : option Stats.t) : option Histogram.t :=
  match summary with
  | Some st => Some (histogram (numbers (Stats.rtSamples st)) 10)
  | None => None
  end.

(** ** The countdown display

    [n.toString()] on an integer: JavaScript prints an integer of
    magnitude below 10^21 in plain decimal, with a minus sign when
    negative. *)
Definition Number_toString (z : Z) : string :=
  NilZero.string_of_int (Z.to_int z).

(** [str.padStart(n, c)] with a filler [c] of one character. *)
Definition padStart (n : nat) (c : ascii) (str : string) : string :=
  (string_of_list_ascii (replicate (n - String.length str) c) ++ str)%string.

(** [function mmss(ms: number)]: [Math.floor(s/60)] of an integer [s] is
    the quotient rounded down, and [%] takes the sign of the dividend. *)
Definition mmss (ms : Q) : string :=
  let s := Qceiling (ms / 1000) in
  let m := (s / 60)%Z in
  let sec := Z.rem s 60 in
  (Number_toString m ++ ":" ++ padStart 2 "0" (Number_toString sec))%string.

(** ** What an event does to the session's log

    The trials of the session, read through the store as [endTest] reads
    them for [computeStats]. *)
Definition log (s : State) : list Trial :=
  omap (fun a => heap s !! a) (trials s).

(** The variables that carry the log and the phase. *)
Definition view (s : State) :=
  (phase s, heap s, trials s, currentTrial s, lastColor s, summary s).

(** A key press that [handleKeyDown] takes for a premature response: one
    of the three colour keys, with the window focused and the debounce
    time over, while waiting for the gate key. *)
Definition premature_key (e : Event) (s : State) : Prop :=
  match e with
  | KeyDown key now _ =>
    hasFocus s = true
    /\ (String.eqb key "R" || String.eqb key "Y" || String.eqb key "G") = true
    /\ Qlt_bool (now - lastResponseAt s) KEY_DEBOUNCE_MS = false
    /\ phase s = awaiting_L
  | _ => False
  end.

(** The two ways to [endTest]: the interval callback, once the time is
    up and no stimulus is on, and the timer that callback arms when one
    is. *)
Definition ends_session (e : Event) (s : State) : Prop :=
  match e with
  | Tick t =>
    timerId s <> None /\ Qle_bool (testEndsAt s) t = true
    /\ phase s <> stimulus_on
  | Fire h t0 _ _ _ =>
    exists tm, pending h s = Some tm /\ callback tm = EndTestCb
               /\ Qle_bool (due tm) t0 = true
  | _ => False
  end.

(** The seven things a handler can do to the log, each with the test the
    code makes before doing it. *)
Inductive transition (e : Event) (s s' : State) : Prop :=
| tr_none :
    view s' = view s ->
    flagPrematureForNext s' = flagPrematureForNext s
    \/ (premature_key e s /\ flagPrematureForNext s' = true) ->
    transition e s s'
| tr_respond key now now' a tr :
    e = KeyDown key now now' ->
    phase s = stimulus_on -> currentTrial s = Some a ->
    heap s !! a = Some tr -> truthy_num (respondedAt tr) = false ->
    isLetter key = true ->
    Qlt_bool (now - lastResponseAt s) KEY_DEBOUNCE_MS = false ->
    heap s' = <[a := respond key now tr]> (heap s) ->
    phase s' = awaiting_L -> lastResponseAt s' = now ->
    trials s' = trials s -> currentTrial s' = currentTrial s ->
    lastColor s' = lastColor s -> summary s' = summary s ->
    flagPrematureForNext s' = flagPrematureForNext s ->
    transition e s s'
| tr_miss h t0 t1 t2 r tm a tr :
    e = Fire h t0 t1 t2 r ->
    pending h s = Some tm -> callback tm = DeadlineCb a ->
    Qle_bool (due tm) t0 = true ->
    phase s = stimulus_on -> currentTrial s = Some a ->
    heap s !! a = Some tr -> truthy_num (respondedAt tr) = false ->
    heap s' = <[a := set_missed (Some true) tr]> (heap s) ->
    phase s' = awaiting_L ->
    trials s' = trials s -> currentTrial s' = currentTrial s ->
    lastColor s' = lastColor s -> summary s' = summary s ->
    flagPrematureForNext s' = flagPrematureForNext s ->
    transition e s s'
| tr_reveal h t0 t1 t2 r tm c :
    e = Fire h t0 t1 t2 r ->
    pending h s = Some tm -> callback tm = GateCb ->
    Qle_bool (due tm) t0 = true ->
    phase s = awaiting_L -> lIsDown s = true ->
    Qlt_bool t0 (testEndsAt s) = true -> Qle_bool (testEndsAt s) t1 = false ->
    pickNextColor (lastColor s) r = Some c ->
    heap s' = heap s ++ [mkTrial c t2 None None false
                                 (flagPrematureForNext s) None None] ->
    trials s' = trials s ++ [length (heap s)] ->
    currentTrial s' = Some (length (heap s)) ->
    lastColor s' = Some c -> flagPrematureForNext s' = false ->
    phase s' = stimulus_on -> summary s' = summary s ->
    transition e s s'
| tr_finish :
    ends_session e s ->
    phase s <> finished -> phase s' = finished ->
    summary s' = Some (computeStats (log s)) ->
    heap s' = heap s -> trials s' = trials s ->
    currentTrial s' = currentTrial s -> lastColor s' = lastColor s ->
    flagPrematureForNext s' = flagPrematureForNext s ->
    transition e s s'
| tr_start now :
    e = Start now -> phase s = idle ->
    phase s' = awaiting_L -> trials s' = [] -> currentTrial s' = None ->
    summary s' = None -> testEndsAt s' = (now + TEST_DURATION_MS)%Q ->
    heap s' = heap s -> lastColor s' = lastColor s ->
    flagPrematureForNext s' = flagPrematureForNext s ->
    transition e s s'
| tr_refresh :
    e = Refresh ->
    phase s' = idle -> trials s' = [] -> currentTrial s' = None ->
    lastColor s' = None -> summary s' = None ->
    heap s' = heap s ->
    flagPrematureForNext s' = flagPrematureForNext s ->
    transition e s s'.

(** ** Well-formed trial records *)

(** What the handlers maintain on every trial object: the latency is
    present exactly with the response time and is their difference from
    the onset; a correct trial has a response and no wrong key; a wrong
    key is recorded exactly on answered, incorrect trials; and [missed] is
    either absent or [true] on a trial without response. *)
Definition wf_trial (tr : Trial) : Prop :=
  rt tr = (fun t => (t - onset tr)%Q) <$> respondedAt tr
  /\ (correct tr = true -> respondedAt tr <> None /\ wrongKey tr = None)
  /\ (wrongKey tr <> None <-> respondedAt tr <> None /\ correct tr = false)
  /\ (missed tr = None \/ (missed tr = Some true /\ respondedAt tr = None)).

(** A trial as [showNextStimulus] creates it, not yet answered or missed. *)
Definition open_trial (tr : Trial) : Prop :=
  respondedAt tr = None /\ rt tr = None /\ correct tr = false
  /\ wrongKey tr = None /\ missed tr = None.

(** No two neighbours of the list are equal. *)
Fixpoint no_repeat (l : list Color) : Prop :=
  match l with
  | x :: (y :: _) as l' => x <> y /\ no_repeat l'
  | _ => True
  end.

Record log_inv (s : State) : Prop := mkLogInv {
  li_current : currentTrial s = last (trials s);
  li_refs : Forall (fun a => a < length (heap s)) (trials s);
  li_nodup : NoDup (trials s);
  li_wf : Forall wf_trial (heap s);
  li_open :
    phase s = stimulus_on ->
    exists a tr, currentTrial s = Some a /\ heap s !! a = Some tr
                 /\ open_trial tr;
  li_colors : no_repeat (color <$> log s);
  li_closed :
    forall a tr, a ∈ trials s -> heap s !! a = Some tr -> open_trial tr ->
      currentTrial s = Some a /\ (phase s = stimulus_on \/ phase s = finished);
  li_summary : phase s = finished -> summary s = Some (computeStats (log s))
}.

(** A trial that has been answered or marked missed. *)
Definition closed_trial (tr : Trial) : Prop :=
  respondedAt tr <> None \/ missed tr = Some true.

(** ** The deadline timers

    A pending deadline timer was armed by [showNextStimulus] for a trial
    of the store, [MAX_RT_MS + 1] after the onset recorded on it. *)
Definition deadline_ok (h : list Trial) (tm : Timeout) : Prop :=
  match callback tm with
  | DeadlineCb a =>
    exists tr, h !! a = Some tr /\ due tm = (onset tr + (MAX_RT_MS + 1))%Q
  | _ => True
  end.

Definition deadlines_ok (s : State) : Prop :=
  Forall (deadline_ok (heap s)) (timeouts s).

(** ** More sessions

    The yellow stimulus of [yellow_shown] answered with the right key 400
    ms after its onset. *)
Definition yellow_answered : State := step (KeyDown "Y" 700 700) yellow_shown.

(** The session just started, with the key G pressed at 150 while waiting
    for the gate key. *)
Definition premature_pending : State := step (KeyDown "G" 150 150) started.

(** The session of [yellow_answered] run to its end by the interval
    callback. *)
Definition session_over : State := step (Tick 60000) yellow_answered.

(** The session of [yellow_answered] continued: the gate key released
    and pressed again, and the second stimulus, a red one, revealed. *)
Definition two_stimuli : State :=
  run [KeyUp "L" 800; KeyDown "L" 900 900; Fire 4 1100 1100 1100 0]
      yellow_answered.

(** The trial of [yellow_shown], as revealed and as answered with Y at
    700. *)
Definition yellow_trial : Trial :=
  mkTrial Y 300 None None false false None None.

Definition yellow_trial_answered : Trial :=
  mkTrial Y 300 (Some 700%Q) (Some (700 - 300)%Q) true false None None.

(** The second trial of [two_stimuli], as revealed. *)
Definition red_trial : Trial :=
  mkTrial R 1100 None None false false None None.

(** A correct response whose latency was never recorded. *)
Definition answered_without_rt : Trial :=
  mkTrial R 0 (Some 300%Q) None true false None None.

(** ** The mean and the median as the program computes them

    The sum of a sample of numbers as [reduce((a,b)=>a+b,0)] forms it:
    from 0, adding the values from left to right. *)
Definition reduce_sum (l : list Q) : Q := fold_left Qplus l 0%Q.

(** What [computeStats] reports of one sample.  The mean and the median
    are [undefined] exactly when the sample is empty; otherwise they are
    [round1] of [avg] and of [median] of the sample.  For a sample of
    numbers [avg] is the sum, formed as [reduce] forms it, divided by the
    size, and [median] is the middle of the ascending arrangement of the
    sample; a slot holding [undefined] makes the mean [NaN]. *)
Definition reported (sample : list (option Q)) (avgRT medianRT : option num) : Prop :=
  (avgRT = None <-> sample = [])
  /\ (medianRT = None <-> sample = [])
  /\ (sample <> [] ->
      avgRT = Some (round1 (avg sample))
      /\ medianRT = Some (round1 (ToNumber' (median sample))))
  /\ (forall l : list Q,
        l <> [] -> sample = Some <$> l ->
        exists a m0,
          avg sample = Num a
          /\ (a == reduce_sum l / inject_Z (Z.of_nat (length l)))%Q
          /\ avgRT = Some (Num (round1Q a))
          /\ median sample = Some (Num m0) /\ is_median l m0
          /\ medianRT = Some (Num (round1Q m0)))
  /\ (In None sample -> avgRT = Some NaN).

(** ** More inputs

    The gate key down since before the session started: pressed at 0 in
    the idle phase, the session started at 100. *)
Definition gate_held_before_start : State :=
  run [KeyDown "L" 0 0; Start 100] init.

(** A stored item holding seven entries, in the serialisation of
    [length_stringify]. *)
Definition seven_entries : string := "[xxxxxxx".

(** * Properties of the stats engine *)

Lemma outcome_exclusive (t : Trial) :
  (if counted t then 1 else 0) + (if counted_wrong t then 1 else 0)
  + (if counted_miss t then 1 else 0) = 1.
Proof.
  unfold counted, counted_wrong, counted_miss.
  destruct (truthy_bool (missed t)), (not_null (respondedAt t)), (correct t);
    reflexivity.
Qed.

Lemma loop_snoc (trs : list Trial) (t : Trial) (a : Acc) :
  loop (trs ++ [t]) a = loop_body (loop trs a) t.
Proof. unfold loop. now rewrite fold_left_app. Qed.

Lemma loop_app (l1 l2 : list Trial) (a : Acc) :
  loop (l1 ++ l2) a = loop l2 (loop l1 a).
Proof. unfold loop. now rewrite fold_left_app. Qed.

(** What one iteration does to each local, case by case. *)
Lemma loop_body_counters (a : Acc) (t : Trial) :
  let a' := loop_body a t in
  acc_completedTrials a' = acc_completedTrials a + 1
  /\ length (acc_rtAllCorrect a')
     = length (acc_rtAllCorrect a) + (if counted t then 1 else 0)
  /\ acc_wrongKeyErrors a'
     = acc_wrongKeyErrors a + (if counted_wrong t then 1 else 0)
  /\ acc_misses a' = acc_misses a + (if counted_miss t then 1 else 0)
  /\ acc_prematureErrors a'
     = acc_prematureErrors a + (if premature t then 1 else 0).
Proof.
  unfold loop_body, counted, counted_wrong, counted_miss.
  destruct (truthy_bool (missed t)), (not_null (respondedAt t)), (correct t),
    (premature t); cbn; rewrite ?length_app; cbn; lia.
Qed.

Lemma loop_counters (trs : list Trial) (a : Acc) :
  let a' := loop trs a in
  acc_completedTrials a' = acc_completedTrials a + length trs
  /\ length (acc_rtAllCorrect a') + acc_wrongKeyErrors a' + acc_misses a'
     = length (acc_rtAllCorrect a) + acc_wrongKeyErrors a + acc_misses a
       + length trs.
Proof.
  induction trs as [|t trs IH] using rev_ind; cbn.
  - lia.
  - rewrite loop_snoc, length_app. cbn.
    destruct (loop_body_counters (loop trs a) t) as (H1 & H2 & H3 & H4 & _).
    destruct IH as [IH1 IH2].
    pose proof (outcome_exclusive t). lia.
Qed.

Lemma get_upd {A} (c c' : Color) (f : A -> A) (r : ByColor A) :
  get c (upd c' f r) = if Color_eqb c' c then f (get c r) else get c r.
Proof. destruct c, c'; reflexivity. Qed.

Lemma loop_body_samples (a : Acc) (t : Trial) :
  acc_rtAllCorrect (loop_body a t)
    = acc_rtAllCorrect a ++ (if counted t then [rt t] else [])
  /\ forall c,
      get c (acc_rtByColor (loop_body a t))
      = get c (acc_rtByColor a) ++ (if counted_in c t then [rt t] else []).
Proof.
  unfold loop_body, counted_in, counted.
  destruct (truthy_bool (missed t)), (not_null (respondedAt t)), (correct t);
    cbn; split; intros; rewrite ?app_nil_r; try reflexivity.
  rewrite get_upd. destruct (Color_eqb (color t) c); now rewrite ?app_nil_r.
Qed.

Lemma filter_snoc {A} (f : A -> bool) (l : list A) (x : A) :
  List.filter f (l ++ [x]) = List.filter f l ++ (if f x then [x] else []).
Proof. rewrite List.filter_app. cbn. now destruct (f x). Qed.

(** The loop appends to the samples and leaves their earlier content. *)
Lemma loop_samples (trs : list Trial) (a : Acc) :
  acc_rtAllCorrect (loop trs a)
    = acc_rtAllCorrect a ++ (rt <$> List.filter counted trs)
  /\ forall c,
      get c (acc_rtByColor (loop trs a))
      = get c (acc_rtByColor a) ++ (rt <$> List.filter (counted_in c) trs).
Proof.
  induction trs as [|t trs [IH1 IH2]] using rev_ind.
  - cbn. split; intros; now rewrite app_nil_r.
  - rewrite loop_snoc.
    destruct (loop_body_samples (loop trs a) t) as [H1 H2]. split.
    + rewrite H1, IH1, filter_snoc, fmap_app, <- app_assoc.
      now destruct (counted t).
    + intros c. rewrite H2, IH2, filter_snoc, fmap_app, <- app_assoc.
      now destruct (counted_in c t).
Qed.

Lemma loop_tallies (trs : list Trial) (a : Acc) :
  let a' := loop trs a in
  acc_wrongKeyErrors a'
    = acc_wrongKeyErrors a + length (List.filter counted_wrong trs)
  /\ acc_misses a' = acc_misses a + length (List.filter counted_miss trs)
  /\ acc_prematureErrors a'
     = acc_prematureErrors a + length (List.filter premature trs).
Proof.
  induction trs as [|t trs (IH1 & IH2 & IH3)] using rev_ind; cbn.
  - lia.
  - rewrite loop_snoc, !filter_snoc, !length_app.
    cbn in IH1, IH2, IH3.
    destruct (loop_body_counters (loop trs a) t) as (_ & _ & H3 & H4 & H5).
    cbn in H3, H4, H5. rewrite H3, H4, H5, IH1, IH2, IH3.
    destruct (counted_wrong t), (counted_miss t), (premature t); cbn; lia.
Qed.

Lemma length_filter_partition (trs : list Trial) :
  length (List.filter counted trs) + length (List.filter counted_wrong trs)
  + length (List.filter counted_miss trs) = length trs.
Proof.
  induction trs as [|t trs IH]; cbn; [reflexivity|].
  pose proof (outcome_exclusive t).
  destruct (counted t), (counted_wrong t), (counted_miss t); cbn in *; lia.
Qed.

(** C1.  For every trial log, [computeStats] returns counters with
    [correct + wrongKeyErrors + misses = totalTrials], and [totalTrials],
    [completedTrials] and the length of the log coincide: every trial is
    counted in exactly one of the three outcome counters. *)
Theorem computeStats_outcomes_partition (trs : list Trial) :
  let st := computeStats trs in
  Stats.correct st + Stats.wrongKeyErrors st + Stats.misses st
    = Stats.totalTrials st
  /\ Stats.totalTrials st = Stats.completedTrials st
  /\ Stats.totalTrials st = length trs
  /\ Stats.correct st = length (List.filter counted trs)
  /\ Stats.wrongKeyErrors st = length (List.filter counted_wrong trs)
  /\ Stats.misses st = length (List.filter counted_miss trs).
Proof.
  cbn.
  destruct (loop_counters trs acc_init) as [Hc _].
  destruct (loop_samples trs acc_init) as [Hs _].
  destruct (loop_tallies trs acc_init) as (Hw & Hm & _).
  cbn in Hc, Hs, Hw, Hm. rewrite Hc, Hs, Hw, Hm, length_fmap.
  pose proof (length_filter_partition trs). repeat split; lia.
Qed.

Lemma ByColor_ext {A} (r r' : ByColor A) :
  (forall c, get c r = get c r') -> r = r'.
Proof.
  intros H. destruct r, r'.
  pose proof (H R). pose proof (H Y). pose proof (H G). cbn in *. congruence.
Qed.

Lemma loop_body_perColor (a : Acc) (t : Trial) (c : Color) :
  let p := get c (acc_perColor a) in
  let p' := get c (acc_perColor (loop_body a t)) in
  PerColor.attempts p'
    = PerColor.attempts p + (if attempted_in c t then 1 else 0)
  /\ PerColor.correct p'
     = PerColor.correct p + (if counted_in c t then 1 else 0).
Proof.
  unfold loop_body, counted_in, counted, attempted_in.
  destruct (truthy_bool (missed t)), (not_null (respondedAt t)), (correct t);
    cbn; rewrite ?get_upd; destruct (Color_eqb (color t) c); cbn;
    rewrite ?get_upd; lia.
Qed.

Lemma loop_perColor (trs : list Trial) (a : Acc) (c : Color) :
  let p := get c (acc_perColor a) in
  let p' := get c (acc_perColor (loop trs a)) in
  PerColor.attempts p'
    = PerColor.attempts p + length (List.filter (attempted_in c) trs)
  /\ PerColor.correct p'
     = PerColor.correct p + length (List.filter (counted_in c) trs).
Proof.
  induction trs as [|t trs [IH1 IH2]] using rev_ind; cbn.
  - lia.
  - rewrite loop_snoc, !filter_snoc, !length_app.
    destruct (loop_body_perColor (loop trs a) t c) as [H1 H2].
    cbn in *. rewrite H1, H2, IH1, IH2.
    destruct (attempted_in c t), (counted_in c t); cbn; lia.
Qed.

Lemma loop_body_missed (a : Acc) (t : Trial) :
  truthy_bool (missed t) = true -> loop_body a t = loop_body a (bare_miss t).
Proof. intros H. unfold loop_body. rewrite H. reflexivity. Qed.

Lemma missed_not_counted (t : Trial) :
  truthy_bool (missed t) = true ->
  counted t = false /\ counted_wrong t = false /\ counted_miss t = true
  /\ forall c, counted_in c t = false.
Proof.
  intros H. unfold counted_in, counted, counted_wrong, counted_miss.
  rewrite H. cbn. auto.
Qed.

Lemma filter_middle {A} (f : A -> bool) (l1 l2 : list A) (x : A) :
  List.filter f (l1 ++ x :: l2)
  = List.filter f l1 ++ (if f x then [x] else []) ++ List.filter f l2.
Proof. rewrite List.filter_app. cbn. now destruct (f x). Qed.

(** C10.  In [computeStats] the missed flag takes precedence over any
    recorded response.  A trial whose [missed] is [true] adds one to
    [misses] and adds nothing to the correct-only samples, to [correct],
    to [wrongKeyErrors] or to a per-colour [correct], whatever its
    [respondedAt], [rt], [correct] and [wrongKey] hold: the statistics are
    those of the log in which the trial is replaced by a plain miss. *)
Theorem missed_takes_precedence (pre post : list Trial) (t : Trial) :
  truthy_bool (missed t) = true ->
  let st := computeStats (pre ++ t :: post) in
  let st0 := computeStats (pre ++ post) in
  Stats.misses st = Stats.misses st0 + 1
  /\ Stats.correct st = Stats.correct st0
  /\ Stats.wrongKeyErrors st = Stats.wrongKeyErrors st0
  /\ Stats.rtSamples st = Stats.rtSamples st0
  /\ Stats.rtSamplesByColor st = Stats.rtSamplesByColor st0
  /\ (forall c, PerColor.correct (get c (Stats.perColor st))
                = PerColor.correct (get c (Stats.perColor st0)))
  /\ st = computeStats (pre ++ bare_miss t :: post).
Proof.
  intros Hm st st0.
  destruct (missed_not_counted t Hm) as (Hc & Hw & Hmiss & Hin).
  assert (Hs : Stats.rtSamples st = Stats.rtSamples st0).
  { subst st st0. cbn.
    destruct (loop_samples (pre ++ t :: post) acc_init) as [-> _].
    destruct (loop_samples (pre ++ post) acc_init) as [-> _].
    rewrite filter_middle, Hc, List.filter_app. reflexivity. }
  assert (Hsc : Stats.rtSamplesByColor st = Stats.rtSamplesByColor st0).
  { subst st st0. cbn. apply ByColor_ext. intros c.
    destruct (loop_samples (pre ++ t :: post) acc_init) as [_ ->].
    destruct (loop_samples (pre ++ post) acc_init) as [_ ->].
    rewrite filter_middle, Hin, List.filter_app. reflexivity. }
  repeat split.
  - subst st st0. cbn.
    destruct (loop_tallies (pre ++ t :: post) acc_init) as (_ & -> & _).
    destruct (loop_tallies (pre ++ post) acc_init) as (_ & -> & _).
    rewrite filter_middle, Hmiss, List.filter_app, !length_app. cbn. lia.
  - change (length (Stats.rtSamples st) = length (Stats.rtSamples st0)).
    now rewrite Hs.
  - subst st st0. cbn.
    destruct (loop_tallies (pre ++ t :: post) acc_init) as (-> & _).
    destruct (loop_tallies (pre ++ post) acc_init) as (-> & _).
    rewrite filter_middle, Hw, List.filter_app. reflexivity.
  - exact Hs.
  - exact Hsc.
  - intros c. subst st st0. cbn.
    assert (Hf : forall p arr, PerColor.correct (finish_color p arr)
                               = PerColor.correct p)
      by (intros p [|x xs]; reflexivity).
    replace (PerColor.correct (get c _)) with
      (PerColor.correct (get c (acc_perColor (loop (pre ++ t :: post) acc_init))))
      by (destruct c; cbn; now rewrite Hf).
    symmetry.
    replace (PerColor.correct (get c _)) with
      (PerColor.correct (get c (acc_perColor (loop (pre ++ post) acc_init))))
      by (destruct c; cbn; now rewrite Hf).
    destruct (loop_perColor (pre ++ t :: post) acc_init c) as [_ ->].
    destruct (loop_perColor (pre ++ post) acc_init c) as [_ ->].
    rewrite filter_middle, Hin, List.filter_app. reflexivity.
  - subst st. unfold computeStats.
    rewrite !length_app. cbn [length].
    rewrite !loop_app. cbn [loop fold_left].
    now rewrite (loop_body_missed _ t Hm).
Qed.

(** ** Mean and median *)

Lemma round1Q_rounded (x : Q) : rounded1 x (round1Q x).
Proof.
  exists (Math_round (x * 10)). split; [reflexivity|].
  unfold Math_round.
  pose proof (Qfloor_le (x * 10 + (1 # 2))) as Hlo.
  pose proof (Qlt_floor (x * 10 + (1 # 2))) as Hhi.
  rewrite inject_Z_plus in Hhi. change (inject_Z 1) with 1%Q in Hhi.
  split; lra.
Qed.

Lemma rounded1_proper (x x' y : Q) : (x == x')%Q -> rounded1 x y -> rounded1 x' y.
Proof.
  intros E (z & Hy & Hlo & Hhi). exists z. rewrite <- E. auto.
Qed.

Lemma sum_slots_numbers_acc (l : list Q) (a : Q) :
  exists b, fold_left (fun a b => num_add a (ToNumber b)) (Some <$> l) (Num a)
            = Num b /\ (b == a + Qsum l)%Q.
Proof.
  revert a. induction l as [|x l IH]; intros a; cbn.
  - exists a. split; [reflexivity | lra].
  - destruct (IH (a + x)%Q) as (b & Hb & E). exists b. split; [exact Hb|].
    rewrite E. fold (Qsum l). lra.
Qed.

Lemma avg_numbers (l : list Q) :
  l <> [] -> exists a, avg (Some <$> l) = Num a /\ (a == mean l)%Q.
Proof.
  intros Hl. unfold avg, mean, sum_slots. rewrite length_fmap.
  destruct l as [|x l]; [congruence|]. cbn [length].
  destruct (sum_slots_numbers_acc (x :: l) 0) as (b & -> & E).
  eexists. split; [reflexivity|]. cbn [num_div_pos].
  rewrite E, Zpos_P_of_succ_nat, <- Nat2Z.inj_succ.
  rewrite Qplus_0_l. reflexivity.
Qed.

Lemma sort_insert_perm (x : Q) (l : list Q) :
  Permutation (sort_insert x l) (x :: l).
Proof.
  induction l as [|y l IH]; cbn; [reflexivity|].
  destruct (Qle_bool x y); [reflexivity|].
  rewrite IH. apply perm_swap.
Qed.

Lemma sort_numbers_perm (l : list Q) : Permutation (sort_numbers l) l.
Proof.
  induction l as [|x l IH]; cbn; [reflexivity|].
  now rewrite sort_insert_perm, IH.
Qed.

Lemma sort_insert_sorted (x : Q) (l : list Q) :
  Sorted Qle l -> Sorted Qle (sort_insert x l).
Proof.
  induction 1 as [|y l Hs IH Hd]; cbn.
  - repeat constructor.
  - destruct (Qle_bool x y) eqn:E.
    + apply Qle_bool_iff in E. repeat constructor; assumption.
    + assert (Hyx : (y <= x)%Q).
      { apply Qlt_le_weak, Qnot_le_lt. intros H.
        apply Qle_bool_iff in H. congruence. }
      constructor; [exact IH|].
      destruct Hd as [|z l Hz]; cbn; [repeat constructor; exact Hyx|].
      destruct (Qle_bool x z); constructor; assumption.
Qed.

Lemma sort_numbers_sorted (l : list Q) : Sorted Qle (sort_numbers l).
Proof.
  induction l as [|x l IH]; cbn; [constructor|].
  now apply sort_insert_sorted.
Qed.

Lemma numbers_fmap_Some (l : list Q) : numbers (Some <$> l) = l.
Proof.
  unfold numbers. induction l as [|x l IH]; cbn; [reflexivity|].
  now rewrite IH.
Qed.

Lemma sorted_copy_numbers (l : list Q) :
  sorted_copy (Some <$> l) = Some <$> sort_numbers l.
Proof.
  unfold sorted_copy. rewrite numbers_fmap_Some, length_fmap, Nat.sub_diag.
  cbn. apply app_nil_r.
Qed.

Lemma lookup_fmap_Some_nth (s : list Q) (i : nat) :
  i < length s -> mjoin ((Some <$> s) !! i) = Some (nth i s 0%Q).
Proof.
  revert i. induction s as [|x s IH]; intros [|i] H; cbn in *; try lia.
  - reflexivity.
  - apply IH. lia.
Qed.

Lemma median_numbers (l : list Q) :
  l <> [] -> exists m, median (Some <$> l) = Some (Num m) /\ is_median l m.
Proof.
  intros Hl. unfold median.
  destruct (Some <$> l) eqn:E; [destruct l; cbn in E; congruence|].
  rewrite <- E, sorted_copy_numbers, length_fmap.
  set (s := sort_numbers l).
  assert (Hlen : length s = length l)
    by (apply Permutation_length, sort_numbers_perm).
  assert (Hpos : 0 < length s) by (rewrite Hlen; destruct l; cbn; [congruence|lia]).
  assert (Hm : length s / 2 < length s) by (apply Nat.div_lt; lia).
  assert (Hmid : forall m, (m == middle s)%Q -> is_median l m).
  { intros m Hmm. exists s. split; [apply sort_numbers_perm|].
    split; [apply sort_numbers_sorted | exact Hmm]. }
  unfold middle in Hmid.
  destruct (Nat.eqb (length s mod 2) 0) eqn:Ev.
  - apply Nat.eqb_eq in Ev.
    assert (Hev : Nat.even (length s) = true).
    { apply Nat.even_spec. exists (length s / 2).
      pose proof (Nat.div_mod_eq (length s) 2). lia. }
    rewrite Hev in Hmid.
    rewrite !lookup_fmap_Some_nth by lia. cbn [ToNumber num_add num_div_pos].
    eexists. split; [reflexivity|]. apply Hmid. reflexivity.
  - apply Nat.eqb_neq in Ev.
    assert (Hev : Nat.even (length s) = false).
    { destruct (Nat.even (length s)) eqn:E2; [|reflexivity].
      apply Nat.even_spec in E2. destruct E2 as [k Hk].
      exfalso. apply Ev. rewrite Hk, Nat.mul_comm. apply Nat.Div0.mod_mul. }
    rewrite Hev in Hmid.
    rewrite lookup_fmap_Some_nth by lia. cbn [fmap option_fmap option_map].
    eexists. split; [reflexivity|]. apply Hmid. reflexivity.
Qed.

(** The loop never writes the four latency fields. *)
Lemma loop_body_rt_fields (a : Acc) (t : Trial) (c : Color) :
  rt_fields (get c (acc_perColor (loop_body a t)))
  = rt_fields (get c (acc_perColor a)).
Proof.
  unfold loop_body.
  destruct (truthy_bool (missed t)), (not_null (respondedAt t)), (correct t);
    cbn; rewrite ?get_upd; destruct (Color_eqb (color t) c); cbn;
    rewrite ?get_upd; reflexivity.
Qed.

Lemma loop_rt_fields (trs : list Trial) (a : Acc) (c : Color) :
  rt_fields (get c (acc_perColor (loop trs a)))
  = rt_fields (get c (acc_perColor a)).
Proof.
  induction trs as [|t trs IH] using rev_ind; [reflexivity|].
  now rewrite loop_snoc, loop_body_rt_fields.
Qed.

Lemma computeStats_perColor (trs : list Trial) (c : Color) :
  get c (Stats.perColor (computeStats trs))
  = finish_color (get c (acc_perColor (loop trs acc_init)))
                 (get c (Stats.rtSamplesByColor (computeStats trs))).
Proof. destruct c; reflexivity. Qed.

Lemma computeStats_samples (trs : list Trial) :
  Stats.rtSamples (computeStats trs) = rt <$> List.filter counted trs
  /\ forall c, get c (Stats.rtSamplesByColor (computeStats trs))
               = rt <$> List.filter (counted_in c) trs.
Proof.
  destruct (loop_samples trs acc_init) as [H1 H2]. split.
  - exact H1.
  - intros c. cbn. rewrite H2. now destruct c.
Qed.

Lemma reports_rounded (sample : list (option Q)) :
  reports sample
    (match sample with
     | [] => None
     | _ :: _ => Some (round1 (avg sample))
     end)
    (match sample with
     | [] => None
     | _ :: _ => Some (round1 (ToNumber' (median sample)))
     end).
Proof.
  unfold reports. destruct sample as [|x xs].
  - repeat split; auto. intros l Hl E. destruct l; cbn in E; congruence.
  - repeat split; try congruence. intros l Hl E. rewrite E.
    destruct (avg_numbers l Hl) as (a & -> & Ea).
    destruct (median_numbers l Hl) as (m0 & -> & Hm0).
    exists (round1Q a), (round1Q m0), m0. cbn. repeat split; auto.
    + apply (rounded1_proper a); [exact Ea | apply round1Q_rounded].
    + apply round1Q_rounded.
Qed.

Lemma perColor_reports (trs : list Trial) (c : Color) :
  reports (get c (Stats.rtSamplesByColor (computeStats trs)))
          (PerColor.avgRT (get c (Stats.perColor (computeStats trs))))
          (PerColor.medianRT (get c (Stats.perColor (computeStats trs)))).
Proof.
  rewrite computeStats_perColor.
  pose proof (loop_rt_fields trs acc_init c) as Hf.
  replace (get c (acc_perColor acc_init)) with perColorInit in Hf
    by (destruct c; reflexivity).
  unfold rt_fields in Hf. cbn in Hf.
  injection Hf as Ha Hm _ _.
  pose proof (reports_rounded
                (get c (Stats.rtSamplesByColor (computeStats trs)))) as Hr.
  unfold finish_color.
  destruct (get c (Stats.rtSamplesByColor (computeStats trs))); cbn.
  - now rewrite Ha, Hm.
  - exact Hr.
Qed.

(** ** Range of the reported latencies *)

Lemma Qle_bool_false (x y : Q) : Qle_bool x y = false -> (y < x)%Q.
Proof.
  intros H. apply Qnot_le_lt. intros Hle.
  apply Qle_bool_iff in Hle. congruence.
Qed.

Lemma Math_min_numbers (x : Q) (xs : list Q) :
  exists lo, Math_min (Some x) (Some <$> xs) = Num lo
             /\ In lo (x :: xs) /\ forall y, In y (x :: xs) -> (lo <= y)%Q.
Proof.
  unfold Math_min. cbn [ToNumber]. revert x.
  induction xs as [|z xs IH]; intros x; cbn [fmap list_fmap fold_left].
  - exists x. split; [reflexivity|]. split; [now left|].
    intros y [->|[]]. apply Qle_refl.
  - cbn [ToNumber num_min].
    destruct (Qle_bool x z) eqn:E.
    + apply Qle_bool_iff in E.
      destruct (IH x) as (lo & -> & Hin & Hle). exists lo.
      split; [reflexivity|]. split.
      * destruct Hin as [<-|Hin]; [now left | right; now right].
      * intros y [<-|[<-|Hy]].
        -- apply Hle. now left.
        -- apply Qle_trans with x; [apply Hle; now left | exact E].
        -- apply Hle. now right.
    + apply Qle_bool_false in E.
      destruct (IH z) as (lo & -> & Hin & Hle). exists lo.
      split; [reflexivity|]. split; [now right|].
      intros y [<-|Hy]; [|now apply Hle].
      apply Qle_trans with z; [apply Hle; now left | now apply Qlt_le_weak].
Qed.

Lemma Math_max_numbers (x : Q) (xs : list Q) :
  exists hi, Math_max (Some x) (Some <$> xs) = Num hi
             /\ In hi (x :: xs) /\ forall y, In y (x :: xs) -> (y <= hi)%Q.
Proof.
  unfold Math_max. cbn [ToNumber]. revert x.
  induction xs as [|z xs IH]; intros x; cbn [fmap list_fmap fold_left].
  - exists x. split; [reflexivity|]. split; [now left|].
    intros y [->|[]]. apply Qle_refl.
  - cbn [ToNumber num_max].
    destruct (Qle_bool x z) eqn:E.
    + apply Qle_bool_iff in E.
      destruct (IH z) as (hi & -> & Hin & Hle). exists hi.
      split; [reflexivity|]. split; [now right|].
      intros y [<-|Hy]; [|now apply Hle].
      apply Qle_trans with z; [exact E | apply Hle; now left].
    + apply Qle_bool_false in E.
      destruct (IH x) as (hi & -> & Hin & Hle). exists hi.
      split; [reflexivity|]. split.
      * destruct Hin as [<-|Hin]; [now left | right; now right].
      * intros y [<-|[<-|Hy]].
        -- apply Hle. now left.
        -- apply Qle_trans with x; [now apply Qlt_le_weak | apply Hle; now left].
        -- apply Hle. now right.
Qed.

Lemma Qsum_bounds (lo hi : Q) (l : list Q) :
  (forall y, In y l -> (lo <= y <= hi)%Q) ->
  (inject_Z (Z.of_nat (length l)) * lo <= Qsum l)%Q
  /\ (Qsum l <= inject_Z (Z.of_nat (length l)) * hi)%Q.
Proof.
  induction l as [|x l IH]; intros H.
  - unfold Qsum. cbn [length fold_right].
    change (inject_Z (Z.of_nat 0)) with 0%Q. lra.
  - unfold Qsum. cbn [length fold_right]. fold (Qsum l).
    rewrite Nat2Z.inj_succ, <- Z.add_1_r, inject_Z_plus.
    change (inject_Z 1) with 1%Q.
    destruct IH as [IH1 IH2]; [intros y Hy; apply H; now right|].
    destruct (H x) as [Hx1 Hx2]; [now left|].
    split; lra.
Qed.

Lemma mean_bounds (lo hi : Q) (l : list Q) :
  l <> [] ->
  (forall y, In y l -> (lo <= y <= hi)%Q) ->
  (lo <= mean l <= hi)%Q.
Proof.
  intros Hl H. destruct (Qsum_bounds lo hi l H) as [H1 H2].
  unfold mean.
  assert (Hn : (0 < inject_Z (Z.of_nat (length l)))%Q).
  { change 0%Q with (inject_Z 0). rewrite <- Zlt_Qlt.
    destruct l; cbn [length]; [congruence | lia]. }
  split.
  - apply Qle_shift_div_l; [exact Hn | lra].
  - apply Qle_shift_div_r; [exact Hn | lra].
Qed.

Lemma middle_bounds (lo hi : Q) (s : list Q) :
  s <> [] ->
  (forall y, In y s -> (lo <= y <= hi)%Q) ->
  (lo <= middle s <= hi)%Q.
Proof.
  intros Hs H.
  assert (Hpos : 0 < length s) by (destruct s; cbn; [congruence | lia]).
  assert (Hm : length s / 2 < length s) by (apply Nat.div_lt; lia).
  assert (Hn : forall i, i < length s -> (lo <= nth i s 0 <= hi)%Q)
    by (intros i Hi; apply H, nth_In, Hi).
  unfold middle. destruct (Nat.even (length s)).
  - pose proof (Hn (length s / 2 - 1) ltac:(lia)) as [? ?].
    pose proof (Hn (length s / 2) Hm) as [? ?].
    split.
    + apply Qle_shift_div_l; lra.
    + apply Qle_shift_div_r; lra.
  - apply Hn, Hm.
Qed.

Lemma is_median_bounds (lo hi : Q) (l : list Q) (m : Q) :
  l <> [] ->
  (forall y, In y l -> (lo <= y <= hi)%Q) ->
  is_median l m -> (lo <= m <= hi)%Q.
Proof.
  intros Hl H (s & Hp & _ & ->).
  apply middle_bounds.
  - intros ->. apply Permutation_nil in Hp. congruence.
  - intros y Hy. apply H. eapply Permutation_in; eauto.
Qed.

(** C3, counterexample.  With the single correct latency 310.25 the red
    entry reports [minRT = maxRT = 310.25] and [avgRT = medianRT = 310.3]:
    both rounded values exceed the maximum. *)
Lemma rounded_mean_above_max :
  get R (Stats.rtSamplesByColor (computeStats quarter_ms_log))
    = [Some (1241 # 4)]
  /\ PerColor.maxRT (get R (Stats.perColor (computeStats quarter_ms_log)))
     = Some (Num (1241 # 4))
  /\ PerColor.avgRT (get R (Stats.perColor (computeStats quarter_ms_log)))
     = Some (Num (3103 # 10))
  /\ ~ within_range (get R (Stats.perColor (computeStats quarter_ms_log))).
Proof.
  split; [reflexivity|]. split; [reflexivity|]. split; [reflexivity|].
  intros (lo & hi & a & m & _ & Hhi & Ha & _ & _ & _ & _ & Hle).
  vm_compute in Hhi, Ha.
  injection Hhi as <-. injection Ha as <-.
  revert Hle. unfold Qle. cbn. lia.
Qed.

(** ** Histogram *)

Lemma bin_index_lt (step : Q) (bins : positive) (v : Q) :
  bin_index step bins v < Pos.to_nat bins.
Proof.
  unfold bin_index.
  destruct (Z.ltb_spec (Qfloor (v / step)) 0);
    [destruct (Z.geb_spec 0 (Z.pos bins)) | destruct (Z.geb_spec (Qfloor (v / step)) (Z.pos bins))];
    lia.
Qed.

Lemma bump_length (i : nat) (cs : list nat) : length (bump i cs) = length cs.
Proof.
  unfold bump. destruct (cs !! i); [apply length_insert | reflexivity].
Qed.

Lemma bump_lookup (i j : nat) (cs : list nat) :
  i < length cs ->
  bump i cs !! j
  = (fun k => if Nat.eqb i j then k + 1 else k) <$> cs !! j.
Proof.
  intros Hi. unfold bump.
  destruct (lookup_lt_is_Some_2 cs i Hi) as [k Hk]. rewrite Hk.
  destruct (Nat.eqb_spec i j) as [<-|Hne].
  - rewrite list_lookup_insert_eq by exact Hi. now rewrite Hk.
  - rewrite list_lookup_insert_ne by exact Hne. now destruct (cs !! j).
Qed.

Lemma bump_sum (i : nat) (cs : list nat) :
  i < length cs -> list_sum (bump i cs) = list_sum cs + 1.
Proof.
  revert i. induction cs as [|k cs IH]; intros i Hi; cbn in Hi; [lia|].
  destruct i as [|i].
  - cbn. lia.
  - unfold bump in *. cbn [lookup list_lookup].
    specialize (IH i ltac:(lia)).
    change ((k :: cs) !! S i) with (cs !! i).
    destruct (cs !! i) as [n|] eqn:E.
    + change (k + list_sum (<[i:=n + 1]> cs) = k + list_sum cs + 1). lia.
    + apply lookup_ge_None in E. lia.
Qed.

Lemma count_into_spec (step : Q) (bins : positive) (rt : list Q) (cs : list nat) :
  length cs = Pos.to_nat bins ->
  length (count_into step bins rt cs) = Pos.to_nat bins
  /\ list_sum (count_into step bins rt cs) = list_sum cs + length rt
  /\ forall j,
      count_into step bins rt cs !! j
      = (fun k => k + length (List.filter
                                (fun v => Nat.eqb (bin_index step bins v) j) rt))
          <$> cs !! j.
Proof.
  revert cs. induction rt as [|v rt IH]; intros cs Hcs;
    unfold count_into; cbn [fold_left length List.filter].
  - split; [exact Hcs|]. split; [lia|].
    intros j. destruct (cs !! j); cbn; [f_equal; lia | reflexivity].
  - pose proof (bin_index_lt step bins v) as Hlt.
    destruct (IH (bump (bin_index step bins v) cs)) as (H1 & H2 & H3);
      [now rewrite bump_length|].
    split; [exact H1|]. split.
    + fold (count_into step bins rt (bump (bin_index step bins v) cs)).
      rewrite H2, bump_sum by lia. lia.
    + intros j.
      fold (count_into step bins rt (bump (bin_index step bins v) cs)).
      rewrite H3, bump_lookup by lia.
      destruct (cs !! j); cbn; [|reflexivity].
      destruct (Nat.eqb (bin_index step bins v) j); cbn; f_equal; lia.
Qed.

Lemma fold_max_spec (l : list nat) (a : nat) :
  let m := fold_left Nat.max l a in
  a <= m /\ Forall (fun k => k <= m) l /\ (m = a \/ In m l).
Proof.
  revert a. induction l as [|k l IH]; intros a; cbn.
  - auto.
  - destruct (IH (Nat.max a k)) as (H1 & H2 & H3).
    split; [lia|]. split.
    + constructor; [lia | exact H2].
    + destruct H3 as [H3|H3]; [|now (right; right)].
      destruct (Nat.max_spec a k) as [[? E]|[? E]]; rewrite E in H3 |- *;
        [right; left; now symmetry | now left].
Qed.

Lemma bin_index_edges (v : Q) :
  (0 <= v)%Q -> (v < MAX_RT_MS)%Q ->
  let j := bin_index (MAX_RT_MS / 10) 10 v in
  (inject_Z (Z.of_nat j) * 500 <= v)%Q
  /\ (v < (inject_Z (Z.of_nat j) + 1) * 500)%Q.
Proof.
  intros H0 Hmax. unfold bin_index, MAX_RT_MS in *.
  assert (E : (v / (5000 / 10) == v / 500)%Q) by (field).
  rewrite (Qfloor_comp _ _ E).
  pose proof (Qfloor_le (v / 500)) as Hlo.
  pose proof (Qlt_floor (v / 500)) as Hhi.
  rewrite inject_Z_plus in Hhi. change (inject_Z 1) with 1%Q in Hhi.
  assert (Hv : (v == v / 500 * 500)%Q) by field.
  assert (Hge : (0 <= Qfloor (v / 500))%Z).
  { change 0%Z with (Qfloor 0). apply Qfloor_resp_le.
    apply Qle_shift_div_l; lra. }
  assert (Hlt : (Qfloor (v / 500) < 10)%Z).
  { rewrite Zlt_Qlt. eapply Qle_lt_trans; [apply Qfloor_le|].
    apply Qlt_shift_div_r; [reflexivity|]. change (inject_Z 10) with 10%Q. lra. }
  destruct (Z.ltb_spec (Qfloor (v / 500)) 0); [lia|].
  destruct (Z.geb_spec (Qfloor (v / 500)) 10); [lia|].
  rewrite Z2Nat.id by lia. split; lra.
Qed.

(** C4.  For every list of latencies, [histogram(rt, 10)] returns 10
    counters that sum to the length of the list; every sample is counted
    in the bin [Math.floor(v / 500)] clamped to [[0, 9]], so no index
    falls outside [[0, 9]] and a latency of exactly [MAX_RT_MS] lands in
    the last bin; a sample in [[0, MAX_RT_MS)] lies between the edges of
    its bin, the bins being equally wide; [edges] holds the 11 boundaries
    [i * 500] from 0 to [MAX_RT_MS]; and [max] is the largest counter,
    but at least 1. *)
Theorem histogram_ten_bins (rt : list Q) :
  let h := histogram rt 10 in
  let bin := bin_index (MAX_RT_MS / 10) 10 in
  length (Histogram.counts h) = 10
  /\ list_sum (Histogram.counts h) = length rt
  /\ (forall v, bin v < 10)
  /\ (forall j, j < 10 ->
        Histogram.counts h !! j
        = Some (length (List.filter (fun v => Nat.eqb (bin v) j) rt)))
  /\ bin MAX_RT_MS = 9
  /\ (forall v, (0 <= v)%Q -> (v < MAX_RT_MS)%Q ->
        (inject_Z (Z.of_nat (bin v)) * 500 <= v)%Q
        /\ (v < (inject_Z (Z.of_nat (bin v)) + 1) * 500)%Q)
  /\ length (Histogram.edges h) = 11
  /\ (forall i, i <= 10 ->
        exists e, Histogram.edges h !! i = Some e
                  /\ (e == inject_Z (Z.of_nat i) * 500)%Q)
  /\ 1 <= Histogram.max h
  /\ Forall (fun k => k <= Histogram.max h) (Histogram.counts h)
  /\ (Histogram.max h = 1 \/ In (Histogram.max h) (Histogram.counts h)).
Proof.
  intros h bin.
  destruct (count_into_spec (MAX_RT_MS / 10) 10 rt (replicate 10 0)
              eq_refl) as (Hlen & Hsum & Hcnt).
  change (count_into (MAX_RT_MS / 10) 10 rt (replicate 10 0))
    with (Histogram.counts h) in Hlen, Hsum, Hcnt.
  destruct (fold_max_spec (Histogram.counts h) 1) as (Hm1 & Hm2 & Hm3).
  change (fold_left Nat.max (Histogram.counts h) 1)
    with (Histogram.max h) in Hm1, Hm2, Hm3.
  split; [exact Hlen|]. split; [exact Hsum|].
  split; [intros v; apply (bin_index_lt (MAX_RT_MS / 10) 10 v)|].
  split.
  { intros j Hj. rewrite Hcnt.
    assert (replicate 10 0 !! j = Some 0) as ->
      by (apply lookup_replicate; split; [reflexivity | exact Hj]).
    reflexivity. }
  split; [reflexivity|].
  split; [intros v H0 H1; apply bin_index_edges; assumption|].
  split; [reflexivity|].
  split.
  { intros i Hi.
    exists (inject_Z (Z.of_nat i) * (MAX_RT_MS / 10))%Q. split.
    - subst h. unfold histogram. cbn [Histogram.edges].
      rewrite list_lookup_fmap, lookup_seq_lt by (cbn; lia). reflexivity.
    - unfold MAX_RT_MS. field. }
  auto.
Qed.

(** * Properties of the trial sequencer *)

(** ** Choice of the next colour *)

Lemma floor_scaled (r : Q) (n : positive) :
  (0 <= r)%Q -> (r < 1)%Q ->
  (0 <= Qfloor (r * inject_Z (Z.pos n)) < Z.pos n)%Z.
Proof.
  intros H0 H1.
  assert (Hn : (0 < inject_Z (Z.pos n))%Q)
    by (change 0%Q with (inject_Z 0); now rewrite <- Zlt_Qlt).
  split.
  - change 0%Z with (Qfloor 0). apply Qfloor_resp_le. nra.
  - rewrite Zlt_Qlt. eapply Qle_lt_trans; [apply Qfloor_le|]. nra.
Qed.

Lemma pickNextColor_defined (lastColor : option Color) (r : Q) :
  (0 <= r)%Q -> (r < 1)%Q ->
  exists c, pickNextColor lastColor r = Some c
            /\ forall prev, lastColor = Some prev -> c <> prev.
Proof.
  intros H0 H1. unfold pickNextColor, index.
  destruct lastColor as [[]|]; cbn [List.filter Color_eqb negb length].
  1-3: pose proof (floor_scaled r 2 H0 H1) as Hi;
       change (Z.of_nat 2) with 2%Z;
       destruct (Qfloor (r * inject_Z 2)) as [|[p|p|]|p]; try lia;
       cbn; eexists; (split; [reflexivity|]); intros prev [= <-]; discriminate.
  pose proof (floor_scaled r 3 H0 H1) as Hi.
  change (Z.of_nat 3) with 3%Z.
  destruct (Qfloor (r * inject_Z 3)) as [|[[p|p|]|[p|p|]|]|p]; try lia;
    cbn; eexists; (split; [reflexivity|]); intros prev [=].
Qed.

(** ** Invariants of the reachable states *)

Lemma inv_init : inv init.
Proof. split; cbn; try constructor; try discriminate; auto. Qed.

Lemma Forall_filter_sub {A} (P : A -> Prop) (Q : A -> Prop)
      `{forall x, Decision (Q x)} (l : list A) :
  Forall P l -> Forall P (filter Q l).
Proof.
  intros HP. apply Forall_forall. intros x Hx.
  apply list_elem_of_filter in Hx as [_ Hx].
  revert x Hx. now apply Forall_forall.
Qed.

Lemma no_gate_after_clear (h : positive) (s : State) :
  Forall (fun t => is_gate (callback t) = true ->
                   lGateTimer s = Some (handle t)) (timeouts s) ->
  lGateTimer s = Some h ->
  no_gate_pending (clearTimeout h s).
Proof.
  intros Hg Hh. unfold no_gate_pending, clearTimeout. cbn.
  apply Forall_forall. intros t Ht.
  apply list_elem_of_filter in Ht as [Hne Ht].
  destruct (is_gate (callback t)) eqn:E; [|reflexivity].
  rewrite Forall_forall in Hg. specialize (Hg t Ht E). congruence.
Qed.

Lemma inv_set_lIsDown (b : bool) (s : State) : inv s -> inv (set_lIsDown b s).
Proof. intros [H1 H2 H3 H4 H5]. split; auto. Qed.

Lemma inv_cancel_gate (h : positive) (s : State) :
  lGateTimer s = Some h -> inv s -> inv (set_lGateTimer None (clearTimeout h s)).
Proof.
  intros E [H1 H2 H3 H4 H5].
  assert (Hno := no_gate_after_clear h s H2 E).
  split; cbn; auto.
  - now apply Forall_filter_sub.
  - eapply Forall_impl; [exact Hno|]. cbn. congruence.
  - intros Hp. destruct (H3 Hp) as [_ Hx]. split; [exact Hno | exact Hx].
Qed.

Lemma inv_handleKeyUp (key : string) (now : Q) (s : State) :
  inv s -> inv (handleKeyUp key now s).
Proof.
  intros Hs. unfold handleKeyUp.
  destruct (String.eqb key "L"); [|exact Hs].
  apply inv_set_lIsDown.
  destruct (lGateTimer s) as [h|] eqn:E; [|exact Hs].
  destruct (Qlt_bool _ _); [|exact Hs].
  now apply inv_cancel_gate.
Qed.

Lemma inv_endTest (s : State) : inv s -> inv (endTest s).
Proof.
  intros [H1 H2 H3 H4 H5]. unfold endTest.
  destruct (phase s) eqn:Hp; split; cbn; auto; try (intros; discriminate);
    rewrite Hp; auto.
Qed.

Lemma inv_setTimeout_other (cb : Callback) (now ms : Q) (s : State) :
  is_gate cb = false -> inv s -> inv (snd (setTimeout cb now ms s)).
Proof.
  intros Hcb [H1 H2 H3 H4 H5]. split; cbn; auto.
  - constructor; cbn; [lia|].
    eapply Forall_impl; [exact H1|]. cbn. lia.
  - constructor; cbn; [congruence | exact H2].
  - intros Hp. destruct (H3 Hp) as [Hno Hx]. split; [|exact Hx].
    constructor; [exact Hcb | exact Hno].
Qed.

Lemma inv_tick (t : Q) (s : State) : inv s -> inv (tick t s).
Proof.
  intros Hs. unfold tick. destruct (Qle_bool _ _); [|exact Hs].
  assert (Hc : inv (clearTimer s)) by (destruct Hs; split; cbn; auto).
  destruct (phase (clearTimer s)); try (apply inv_endTest; exact Hc).
  apply inv_setTimeout_other; [reflexivity | exact Hc].
Qed.

Lemma inv_startTest (now : Q) (s : State) : inv s -> inv (startTest now s).
Proof.
  intros Hs. unfold startTest.
  destruct (phase s) eqn:Hp; try exact Hs.
  destruct Hs as [H1 H2 H3 H4 H5].
  specialize (H5 Hp). unfold lastColor_ok in H4. rewrite H5 in H4.
  split; cbn; auto; try discriminate.
  eapply Forall_impl; [exact H1|]. cbn. lia.
Qed.

Lemma inv_refreshTest (s : State) : inv s -> inv (refreshTest s).
Proof.
  intros Hs. unfold refreshTest.
  set (s1 := set_lDownAt 0 _).
  assert (Hs1 : inv s1) by (destruct Hs; split; cbn; auto; discriminate).
  assert (Hs2 : inv (match lGateTimer s1 with
                     | Some h => set_lGateTimer None (clearTimeout h s1)
                     | None => s1
                     end)).
  { destruct (lGateTimer s1) as [h|] eqn:E; [|exact Hs1].
    now apply inv_cancel_gate. }
  destruct Hs2. split; auto.
Qed.

Lemma lastColor_ok_heap (s s' : State) :
  trials s' = trials s -> lastColor s' = lastColor s ->
  (forall a tr, heap s !! a = Some tr ->
                exists tr', heap s' !! a = Some tr' /\ color tr' = color tr) ->
  lastColor_ok s -> lastColor_ok s'.
Proof.
  unfold lastColor_ok. intros -> -> Hh.
  destruct (last (trials s)) as [a|]; [|auto].
  intros (tr & Ha & Hc). destruct (Hh a tr Ha) as (tr' & Ha' & Hc').
  exists tr'. split; [exact Ha' | congruence].
Qed.

Lemma inv_deadlineCallback (myTrial : nat) (s : State) :
  inv s -> inv (deadlineCallback myTrial s).
Proof.
  intros Hs. unfold deadlineCallback.
  destruct (deadline_guard myTrial s); [|exact Hs].
  destruct Hs as [H1 H2 H3 H4 H5]. split; cbn; auto; try discriminate.
  eapply lastColor_ok_heap; [..|exact H4]; cbn; auto.
  intros a tr Ha.
  destruct (decide (myTrial = a)) as [->|Hne].
  - rewrite list_lookup_alter_eq, Ha. cbn. eauto.
  - rewrite list_lookup_alter_ne by exact Hne. eauto.
Qed.

Lemma inv_gate_None (s : State) :
  inv s -> lGateTimer s = None -> no_gate_pending s.
Proof.
  intros [_ H2 _ _ _] E. eapply Forall_impl; [exact H2|]. cbn.
  intros t Ht. destruct (is_gate (callback t)); [|reflexivity].
  specialize (Ht eq_refl). congruence.
Qed.

Lemma inv_schedule (now : Q) (s : State) :
  inv s -> inv (scheduleStimulusAfterLGate now s).
Proof.
  intros Hs. unfold scheduleStimulusAfterLGate.
  destruct (phase s) eqn:Hp; try exact Hs.
  set (s1 := match lGateTimer s with
             | Some h => clearTimeout h s
             | None => s
             end).
  assert (Hs1 : Forall (fun t => (handle t < nextHandle s1)%positive)
                       (timeouts s1)
                /\ no_gate_pending s1 /\ phase s1 = awaiting_L
                /\ lastColor_ok s1).
  { subst s1. destruct (lGateTimer s) as [h|] eqn:E.
    - destruct Hs as [H1 H2 H3 H4 H5]. split; [|split; [|split]]; auto.
      + cbn. now apply Forall_filter_sub.
      + now apply no_gate_after_clear.
    - pose proof (inv_gate_None s Hs E) as Hno.
      destruct Hs. split; [|split; [|split]]; auto. }
  destruct Hs1 as (F1 & F2 & F3 & F4). cbn.
  split; cbn; auto.
  - constructor; cbn; [lia|]. eapply Forall_impl; [exact F1|]. cbn. lia.
  - constructor; cbn; [reflexivity|].
    eapply Forall_impl; [exact F2|]. cbn. congruence.
  - rewrite F3. discriminate.
  - rewrite F3. discriminate.
Qed.

Lemma inv_handleKeyDown (key : string) (now now' : Q) (s : State) :
  inv s -> inv (handleKeyDown key now now' s).
Proof.
  intros Hs. unfold handleKeyDown.
  destruct (negb (hasFocus s)); [exact Hs|].
  destruct (String.eqb key "L").
  { destruct (negb (lIsDown s)); [|exact Hs].
    assert (Hs1 : inv (set_lDownAt now (set_lIsDown true s)))
      by (destruct Hs; split; auto).
    destruct (_ && _); [now apply inv_schedule | exact Hs1]. }
  destruct (Qlt_bool _ _); [exact Hs|].
  destruct (phase s) eqn:Hp; try exact Hs.
  - destruct (_ || _); [|exact Hs]. destruct Hs; split; auto.
  - destruct (currentTrial s) as [a|]; [|exact Hs].
    destruct (heap s !! a) as [tr|] eqn:Ha; [|exact Hs].
    destruct (isLetter key); [|exact Hs].
    destruct (negb (truthy_num (respondedAt tr)));
      [|destruct Hs; split; auto].
    destruct Hs as [H1 H2 H3 H4 H5]. split; cbn; auto; try discriminate.
    eapply lastColor_ok_heap; [..|exact H4]; cbn; auto.
    intros b tb Hb.
    destruct (decide (a = b)) as [->|Hne].
    + rewrite list_lookup_insert_eq by (eapply lookup_lt_Some; eauto).
      eexists. split; [reflexivity|]. cbn. congruence.
    + rewrite list_lookup_insert_ne by exact Hne. eauto.
Qed.

Lemma inv_showNextStimulus (t1 t2 r : Q) (s : State) :
  inv s -> no_gate_pending s -> phase s <> idle ->
  inv (showNextStimulus t1 t2 r s).
Proof.
  intros Hs Hno Hidle. unfold showNextStimulus.
  destruct (Qle_bool _ _); [exact Hs|].
  destruct (pickNextColor (lastColor s) r) as [c|]; [|exact Hs].
  destruct Hs as [H1 H2 H3 H4 H5]. split; cbn; auto; try discriminate.
  - constructor; cbn; [lia|]. eapply Forall_impl; [exact H1|]. cbn. lia.
  - constructor; cbn; [discriminate | exact H2].
  - intros _. split.
    + constructor; [reflexivity | exact Hno].
    + eexists _, _. split; [reflexivity|].
      split; [apply list_lookup_middle; reflexivity | reflexivity].
  - unfold lastColor_ok. cbn. rewrite last_snoc.
    eexists. split; [apply list_lookup_middle; reflexivity | reflexivity].
Qed.

Lemma inv_clearTimeout (h : positive) (s : State) :
  inv s -> inv (clearTimeout h s).
Proof.
  intros [H1 H2 H3 H4 H5]. split; cbn; auto.
  - now apply Forall_filter_sub.
  - now apply Forall_filter_sub.
  - intros Hp. destruct (H3 Hp) as [Hno Hx]. split; [|exact Hx].
    now apply Forall_filter_sub.
Qed.

Lemma pending_elem (h : positive) (s : State) (t : Timeout) :
  pending h s = Some t -> t ∈ timeouts s /\ handle t = h.
Proof.
  unfold pending. intros Hh.
  apply head_Some_elem_of, list_elem_of_filter in Hh. tauto.
Qed.

Lemma inv_step (e : Event) (s : State) : inv s -> inv (step e s).
Proof.
  intros Hs. destruct e; cbn.
  - now apply inv_handleKeyDown.
  - now apply inv_handleKeyUp.
  - destruct (pending h s) as [t|] eqn:Ht; [|exact Hs].
    destruct (Qle_bool _ _); [|exact Hs].
    apply pending_elem in Ht as [Ht Hh].
    destruct (callback t) eqn:Hcb; cbn.
    + unfold gateCallback.
      destruct (lIsDown (clearTimeout h s) && _ && _) eqn:Hg;
        [|now apply inv_clearTimeout].
      apply inv_showNextStimulus.
      * now apply inv_clearTimeout.
      * apply no_gate_after_clear; [apply Hs|].
        destruct Hs as [_ H2 _ _ _]. rewrite Forall_forall in H2.
        rewrite (H2 t Ht) by (now rewrite Hcb). now rewrite Hh.
      * apply andb_prop in Hg as [Hg _]. apply andb_prop in Hg as [_ Hg].
        cbn in Hg |- *. destruct (phase s); cbn in Hg; congruence.
    + apply inv_deadlineCallback. now apply inv_clearTimeout.
    + apply inv_endTest. now apply inv_clearTimeout.
  - destruct (timerId s); [now apply inv_tick | exact Hs].
  - destruct Hs; split; auto.
  - destruct Hs; split; auto.
  - now apply inv_startTest.
  - now apply inv_refreshTest.
Qed.

Lemma reachable_inv (s : State) : reachable s -> inv s.
Proof.
  induction 1 as [|e s _ IH]; [apply inv_init | now apply inv_step].
Qed.

Lemma pickNextColor_differs (prev : Color) (r : Q) (c : Color) :
  pickNextColor (Some prev) r = Some c -> c <> prev.
Proof.
  unfold pickNextColor, index. destruct (_ <? _)%Z; [discriminate|].
  intros H. apply list_elem_of_lookup_2, list_elem_of_In, filter_In in H.
  destruct H as [_ H]. intros ->. destruct prev; discriminate.
Qed.

(** C8.  Whenever a previous colour exists, the colour chosen by
    [pickNextColor] differs from it, for every value of the random source
    in [[0, 1)] (and a colour is always chosen); on the first trial of a
    session there is no exclusion and each of the three colours can be
    chosen.  In every reachable state [lastColor] is the colour of the
    last stimulus shown in the session, and is absent exactly when none
    has been shown. *)
Theorem next_color_differs :
  (forall prev r, (0 <= r)%Q -> (r < 1)%Q ->
     exists c, pickNextColor (Some prev) r = Some c /\ c <> prev)
  /\ (forall prev r c, pickNextColor (Some prev) r = Some c -> c <> prev)
  /\ (forall r, (0 <= r)%Q -> (r < 1)%Q ->
        exists c, pickNextColor None r = Some c)
  /\ (forall c, exists r, (0 <= r)%Q /\ (r < 1)%Q
                          /\ pickNextColor None r = Some c)
  /\ (forall s, reachable s ->
        lastColor_ok s /\ (lastColor s = None <-> trials s = [])).
Proof.
  split.
  { intros prev r H0 H1.
    destruct (pickNextColor_defined (Some prev) r H0 H1) as (c & Hc & Hne).
    exists c. split; [exact Hc | now apply Hne]. }
  split; [exact pickNextColor_differs|].
  split.
  { intros r H0 H1.
    destruct (pickNextColor_defined None r H0 H1) as (c & Hc & _). eauto. }
  split.
  { intros [].
    - exists 0%Q. repeat split; lra || reflexivity.
    - exists (1 # 2)%Q. repeat split; lra || reflexivity.
    - exists (3 # 4)%Q. repeat split; lra || reflexivity. }
  intros s Hs. apply reachable_inv in Hs. destruct Hs as [_ _ _ H4 _].
  split; [exact H4|]. unfold lastColor_ok in H4.
  destruct (last (trials s)) as [a|] eqn:E.
  - destruct H4 as (tr & _ & Hc). split; intros H.
    + congruence.
    + rewrite H in E. discriminate.
  - apply last_None in E. tauto.
Qed.

(** ** The response deadline *)

(** C7.  In every reachable state the deadline callback armed for
    [myTrial] finalises that trial as missed only when the phase is still
    [stimulus_on], the active trial is the very trial the timer was armed
    for, and no response has been recorded on it; it then sets [missed]
    on that trial and returns to [awaiting_L].  Otherwise it is a no-op:
    a timer armed for a superseded trial, one firing in another phase, and
    one firing after a response all leave the whole state, hence the log,
    the active trial and the phase, unchanged. *)
Theorem deadline_callback_guarded (s : State) (myTrial : nat) :
  reachable s ->
  let s' := deadlineCallback myTrial s in
  (s' <> s ->
     phase s = stimulus_on /\ currentTrial s = Some myTrial
     /\ exists tr, heap s !! myTrial = Some tr /\ respondedAt tr = None)
  /\ (phase s = stimulus_on -> currentTrial s = Some myTrial ->
      exists tr, heap s !! myTrial = Some tr /\ respondedAt tr = None
        /\ heap s' !! myTrial = Some (set_missed (Some true) tr)
        /\ (forall a, a <> myTrial -> heap s' !! a = heap s !! a)
        /\ phase s' = awaiting_L /\ trials s' = trials s
        /\ currentTrial s' = currentTrial s)
  /\ (phase s <> stimulus_on -> s' = s)
  /\ (currentTrial s <> Some myTrial -> s' = s)
  /\ (forall tr, heap s !! myTrial = Some tr -> respondedAt tr <> None ->
      s' = s).
Proof.
  intros Hs s'. apply reachable_inv in Hs. destruct Hs as [_ _ H3 _ _].
  assert (Hguard : deadline_guard myTrial s = true ->
                   phase s = stimulus_on /\ currentTrial s = Some myTrial).
  { unfold deadline_guard. intros H.
    apply andb_prop in H as [H _]. apply andb_prop in H as [Hp Hc].
    apply bool_decide_eq_true in Hc. split; [|exact Hc].
    destruct (phase s); cbn in Hp; congruence. }
  assert (Hcur : phase s = stimulus_on -> currentTrial s = Some myTrial ->
                 exists tr, heap s !! myTrial = Some tr
                            /\ respondedAt tr = None).
  { intros Hp Hc. destruct (H3 Hp) as (_ & a & tr & Ha & Htr & Hr).
    assert (a = myTrial) as -> by congruence. eauto. }
  assert (Hnoop : deadline_guard myTrial s = false -> s' = s)
    by (intros H; subst s'; unfold deadlineCallback; now rewrite H).
  split; [|split; [|split; [|split]]].
  - intros Hne. destruct (deadline_guard myTrial s) eqn:Hg.
    + destruct (Hguard eq_refl) as [Hp Hc]. repeat split; auto.
    + now destruct Hne; apply Hnoop.
  - intros Hp Hc. destruct (Hcur Hp Hc) as (tr & Htr & Hr).
    exists tr. split; [exact Htr|]. split; [exact Hr|].
    assert (Hg : deadline_guard myTrial s = true).
    { unfold deadline_guard. rewrite Hp, Htr, Hr. cbn.
      now rewrite bool_decide_eq_true_2. }
    subst s'. unfold deadlineCallback. rewrite Hg. cbn.
    split; [now rewrite list_lookup_alter_eq, Htr|].
    split; [intros a Ha; now rewrite list_lookup_alter_ne|].
    auto.
  - intros Hp. apply Hnoop. destruct (deadline_guard myTrial s) eqn:Hg; auto.
    destruct (Hguard eq_refl). congruence.
  - intros Hc. apply Hnoop. destruct (deadline_guard myTrial s) eqn:Hg; auto.
    destruct (Hguard eq_refl). congruence.
  - intros tr Htr Hr. apply Hnoop.
    destruct (deadline_guard myTrial s) eqn:Hg; auto.
    destruct (Hguard eq_refl) as [Hp Hc].
    destruct (Hcur Hp Hc) as (tr' & Htr' & Hr'). congruence.
Qed.

(** ** The debounce timestamp *)

(** C5, counterexample.  In [awaiting_L] the key R pressed at 1000 ms is
    accepted (the window has focus and the last response is 1000 ms old):
    it sets the pending-premature flag, yet [lastResponseAt] keeps its old
    value instead of becoming 1000. *)
Lemma premature_key_keeps_debounce :
  let s' := step (KeyDown "R" 1000 1000) started in
  phase started = awaiting_L
  /\ hasFocus started = true
  /\ Qlt_bool (1000 - lastResponseAt started) KEY_DEBOUNCE_MS = false
  /\ flagPrematureForNext started = false
  /\ flagPrematureForNext s' = true
  /\ lastResponseAt s' = lastResponseAt started
  /\ ~ (lastResponseAt s' == 1000)%Q.
Proof. vm_compute. repeat split; try reflexivity. discriminate. Qed.

(** C5, amended.  In every reachable state, an accepted key updates
    [lastResponseAt] to its event time exactly when the phase is
    [stimulus_on] and the key is a single letter A-Z; in every other
    phase, and for every other key, [lastResponseAt] is left unchanged.
    In particular an accepted R, Y or G in [awaiting_L] sets the
    pending-premature flag and leaves [lastResponseAt] as it was. *)
Theorem debounce_updated_on_stimulus_only
        (key : string) (now now' : Q) (s : State) :
  reachable s ->
  let s' := handleKeyDown key now now' s in
  (accepted key now s -> phase s = stimulus_on -> isLetter key = true ->
     lastResponseAt s' = now)
  /\ (phase s <> stimulus_on -> lastResponseAt s' = lastResponseAt s)
  /\ (isLetter key = false -> lastResponseAt s' = lastResponseAt s)
  /\ (accepted key now s -> phase s = awaiting_L ->
      key = "R"%string \/ key = "Y"%string \/ key = "G"%string ->
      flagPrematureForNext s' = true
      /\ lastResponseAt s' = lastResponseAt s).
Proof.
  intros Hs s'. apply reachable_inv in Hs. destruct Hs as [_ _ H3 _ _].
  assert (Hsched : forall t s0, lastResponseAt (scheduleStimulusAfterLGate t s0)
                                = lastResponseAt s0).
  { intros t s0. unfold scheduleStimulusAfterLGate.
    destruct (phase s0); try reflexivity. now destruct (lGateTimer s0). }
  subst s'. unfold handleKeyDown, accepted.
  split; [|split; [|split]].
  - intros (-> & -> & ->) Hp Hl. cbn. rewrite Hp, Hl.
    destruct (H3 Hp) as (_ & a & tr & -> & -> & ->). reflexivity.
  - intros Hp. destruct (negb (hasFocus s)); [reflexivity|].
    destruct (String.eqb key "L").
    { destruct (negb (lIsDown s)); [|reflexivity].
      destruct (_ && _); [now rewrite Hsched | reflexivity]. }
    destruct (Qlt_bool _ _); [reflexivity|].
    destruct (phase s); try reflexivity; try congruence.
    now destruct (_ || _).
  - intros Hl. destruct (negb (hasFocus s)); [reflexivity|].
    destruct (String.eqb key "L").
    { destruct (negb (lIsDown s)); [|reflexivity].
      destruct (_ && _); [now rewrite Hsched | reflexivity]. }
    destruct (Qlt_bool _ _); [reflexivity|].
    destruct (phase s); try reflexivity.
    + now destruct (_ || _).
    + destruct (currentTrial s) as [a|]; [|reflexivity].
      destruct (heap s !! a); [|reflexivity]. now rewrite Hl.
  - intros (-> & -> & ->) Hp Hk. cbn. rewrite Hp.
    destruct Hk as [->|[->| ->]]; cbn; auto.
Qed.

(** ** The gate *)

Lemma Qlt_bool_iff (x y : Q) : Qlt_bool x y = true <-> (x < y)%Q.
Proof.
  unfold Qlt_bool. rewrite negb_true_iff. split.
  - apply Qle_bool_false.
  - intros H. destruct (Qle_bool y x) eqn:E; [|reflexivity].
    apply Qle_bool_iff in E. lra.
Qed.

Lemma revealed_schedule (now : Q) (s : State) :
  revealed (scheduleStimulusAfterLGate now s) = revealed s.
Proof.
  unfold scheduleStimulusAfterLGate.
  destruct (phase s); try reflexivity. now destruct (lGateTimer s).
Qed.

Lemma revealed_handleKeyDown (key : string) (now now' : Q) (s : State) :
  revealed (handleKeyDown key now now' s) = revealed s.
Proof.
  unfold handleKeyDown. repeat case_match; try reflexivity.
  - now rewrite revealed_schedule.
  - unfold revealed. cbn. apply length_insert.
Qed.

Lemma revealed_handleKeyUp (key : string) (now : Q) (s : State) :
  revealed (handleKeyUp key now s) = revealed s.
Proof. unfold handleKeyUp. repeat case_match; reflexivity. Qed.

Lemma revealed_deadlineCallback (myTrial : nat) (s : State) :
  revealed (deadlineCallback myTrial s) = revealed s.
Proof.
  unfold deadlineCallback. case_match; [|reflexivity].
  unfold revealed. cbn. apply length_alter.
Qed.

Lemma revealed_endTest (s : State) : revealed (endTest s) = revealed s.
Proof. unfold endTest. now destruct (phase s). Qed.

Lemma revealed_tick (t : Q) (s : State) : revealed (tick t s) = revealed s.
Proof.
  unfold tick. case_match; [|reflexivity].
  destruct (phase (clearTimer s)); try (now rewrite revealed_endTest).
  reflexivity.
Qed.

(** Only the gate callback reveals a stimulus. *)
Lemma step_revealed (e : Event) (s : State) :
  revealed (step e s) <> revealed s ->
  exists h t0 t1 t2 r t,
    e = Fire h t0 t1 t2 r /\ pending h s = Some t /\ callback t = GateCb.
Proof.
  destruct e; cbn [step]; intros H.
  - now rewrite revealed_handleKeyDown in H.
  - now rewrite revealed_handleKeyUp in H.
  - destruct (pending h s) as [t|] eqn:Ht; [|congruence].
    destruct (Qle_bool (due t) t0); [|congruence].
    destruct (callback t) eqn:Hcb; cbn [run_callback] in H.
    + eauto 10.
    + now rewrite revealed_deadlineCallback in H.
    + now rewrite revealed_endTest in H.
  - destruct (timerId s); [now rewrite revealed_tick in H | congruence].
  - exfalso. now apply H.
  - exfalso. now apply H.
  - exfalso. apply H. unfold startTest. now destruct (phase s).
  - exfalso. apply H. unfold refreshTest. now destruct (lGateTimer _).
Qed.

Lemma gate_fields_handleKeyDown (key : string) (now now' : Q) (s : State) :
  String.eqb key "L" = false \/ lIsDown s = true ->
  gate_fields (handleKeyDown key now now' s) = gate_fields s.
Proof.
  intros H. unfold handleKeyDown.
  destruct (negb (hasFocus s)); [reflexivity|].
  destruct (String.eqb key "L").
  - destruct H as [H|H]; [discriminate|]. now rewrite H.
  - repeat case_match; reflexivity.
Qed.

Lemma gate_fields_deadlineCallback (myTrial : nat) (s : State) :
  gate_fields (deadlineCallback myTrial s) = gate_fields s.
Proof. unfold deadlineCallback. now case_match. Qed.

Lemma gate_fields_endTest (s : State) : gate_fields (endTest s) = gate_fields s.
Proof. unfold endTest. now destruct (phase s). Qed.

Lemma gate_fields_startTest (now : Q) (s : State) :
  timeouts (startTest now s) = timeouts s
  /\ lGateTimer (startTest now s) = lGateTimer s
  /\ lIsDown (startTest now s) = lIsDown s
  /\ lDownAt (startTest now s) = lDownAt s
  /\ (nextHandle s <= nextHandle (startTest now s))%positive.
Proof.
  unfold startTest. destruct (phase s); cbn; repeat split; lia.
Qed.

(** The tick adds at most the deferred [endTest], under a fresh handle. *)
Lemma gate_fields_tick (t : Q) (s : State) :
  (timeouts (tick t s) = timeouts s
   \/ exists d, timeouts (tick t s)
                = mkTimeout (nextHandle s) d EndTestCb :: timeouts s)
  /\ lGateTimer (tick t s) = lGateTimer s
  /\ lIsDown (tick t s) = lIsDown s
  /\ lDownAt (tick t s) = lDownAt s.
Proof.
  unfold tick. case_match; [|auto].
  destruct (phase (clearTimer s)) eqn:Hp;
    try (pose proof (gate_fields_endTest (clearTimer s)) as [= -> _ -> -> ->];
         auto; fail).
  cbn. eauto 6.
Qed.

(** While the gate key is down and no gate timer is pending, and equally
    while no gate key is pressed, no gate timer appears. *)
Lemma timeouts_refreshTest (s : State) :
  timeouts (refreshTest s)
  = match lGateTimer s with
    | Some h => filter (fun t => handle t ≠ h) (timeouts s)
    | None => timeouts s
    end.
Proof.
  unfold refreshTest.
  match goal with
  | |- context [lGateTimer ?x] => change (lGateTimer x) with (lGateTimer s)
  end.
  now destruct (lGateTimer s).
Qed.

Lemma timeouts_handleKeyUp (key : string) (now : Q) (s : State) :
  timeouts (handleKeyUp key now s) = timeouts s
  \/ exists h, timeouts (handleKeyUp key now s)
               = filter (fun t => handle t ≠ h) (timeouts s).
Proof.
  unfold handleKeyUp. destruct (String.eqb key "L"); [|now left].
  destruct (lGateTimer s) as [h|]; [|now left].
  destruct (Qlt_bool _ _); [right; now exists h | now left].
Qed.

Lemma no_gate_step (e : Event) (s : State) :
  inv s -> no_gate_pending s ->
  gate_down e = false \/ lIsDown s = true ->
  no_gate_pending (step e s) /\ revealed (step e s) = revealed s.
Proof.
  intros Hs Hno He. split.
  - unfold no_gate_pending in *. destruct e; cbn [step gate_down] in *.
    + pose proof (gate_fields_handleKeyDown key now now' s He) as [= -> _].
      exact Hno.
    + destruct (timeouts_handleKeyUp key now s) as [->|[h ->]];
        [exact Hno | now apply Forall_filter_sub].
    + destruct (pending h s) as [t|] eqn:Ht; [|exact Hno].
      destruct (Qle_bool (due t) t0); [|exact Hno].
      apply pending_elem in Ht as [Ht _].
      pose proof Hno as Hall.
      rewrite Forall_forall in Hno. specialize (Hno t Ht).
      destruct (callback t); cbn [run_callback is_gate] in Hno |- *;
        [discriminate|..].
      * pose proof (gate_fields_deadlineCallback myTrial (clearTimeout h s))
          as [= -> _].
        now apply Forall_filter_sub.
      * pose proof (gate_fields_endTest (clearTimeout h s)) as [= -> _].
        now apply Forall_filter_sub.
    + destruct (timerId s); [|exact Hno].
      destruct (gate_fields_tick t s) as [[->|[d ->]] _]; [exact Hno|].
      constructor; [reflexivity | exact Hno].
    + exact Hno.
    + exact Hno.
    + destruct (gate_fields_startTest now s) as [-> _]. exact Hno.
    + rewrite timeouts_refreshTest. destruct (lGateTimer s); [|exact Hno].
      now apply Forall_filter_sub.
  - destruct (Nat.eq_dec (revealed (step e s)) (revealed s)) as [|Hne];
      [assumption|].
    apply step_revealed in Hne as (h & t0 & t1 & t2 & r & t & _ & Ht & Hcb).
    apply pending_elem in Ht as [Ht _].
    unfold no_gate_pending in Hno. rewrite Forall_forall in Hno.
    specialize (Hno t Ht). rewrite Hcb in Hno. discriminate.
Qed.

Lemma lIsDown_showNextStimulus (t1 t2 r : Q) (s : State) :
  lIsDown (showNextStimulus t1 t2 r s) = lIsDown s.
Proof.
  unfold showNextStimulus. destruct (Qle_bool _ _); [reflexivity|].
  now destruct (pickNextColor _ _).
Qed.

Lemma lIsDown_step (e : Event) (s : State) :
  lIsDown s = true -> gate_up e = false -> is_refresh e = false ->
  lIsDown (step e s) = true.
Proof.
  intros Hd Hu Hr.
  destruct e; cbn [step gate_up is_refresh] in *; try discriminate;
    try assumption.
  - pose proof (gate_fields_handleKeyDown key now now' s (or_intror Hd))
      as [= _ _ _ -> _]. exact Hd.
  - unfold handleKeyUp. now rewrite Hu.
  - destruct (pending h s) as [t|]; [|exact Hd].
    destruct (Qle_bool (due t) t0); [|exact Hd].
    destruct (callback t); cbn [run_callback].
    + unfold gateCallback. destruct (_ && _); [|exact Hd].
      now rewrite lIsDown_showNextStimulus.
    + pose proof (gate_fields_deadlineCallback myTrial (clearTimeout h s))
        as [= _ _ _ -> _]. exact Hd.
    + pose proof (gate_fields_endTest (clearTimeout h s)) as [= _ _ _ -> _].
      exact Hd.
  - destruct (timerId s); [|exact Hd].
    destruct (gate_fields_tick t s) as (_ & _ & -> & _). exact Hd.
  - destruct (gate_fields_startTest now s) as (_ & _ & -> & _). exact Hd.
Qed.

(** Once the gate key is held with no gate timer pending, nothing but a
    release (or a refresh) lets a further stimulus appear. *)
Lemma held_run (evs : list Event) (s : State) :
  inv s -> no_gate_pending s -> lIsDown s = true ->
  Forall (fun e => gate_up e = false /\ is_refresh e = false) evs ->
  revealed (run evs s) = revealed s.
Proof.
  revert s. induction evs as [|e evs IH]; intros s Hs Hno Hd Hev; cbn.
  - reflexivity.
  - inversion Hev as [|? ? [Hu Hr] Hev']; subst.
    destruct (no_gate_step e s Hs Hno (or_intror Hd)) as [Hno' Hrev].
    fold (run evs (step e s)).
    rewrite IH; auto using inv_step, lIsDown_step.
Qed.

(** After a cancelled hold no stimulus appears until the gate key is
    pressed again. *)
Lemma released_run (evs : list Event) (s : State) :
  inv s -> no_gate_pending s ->
  Forall (fun e => gate_down e = false) evs ->
  revealed (run evs s) = revealed s.
Proof.
  revert s. induction evs as [|e evs IH]; intros s Hs Hno Hev; cbn.
  - reflexivity.
  - inversion Hev as [|? ? Hg Hev']; subst.
    destruct (no_gate_step e s Hs Hno (or_introl Hg)) as [Hno' Hrev].
    fold (run evs (step e s)).
    rewrite IH; auto using inv_step.
Qed.

Lemma holding_pending (h : positive) (D t0 : Q) (n : nat) (s : State) :
  holding h D t0 n s -> pending h s = Some (mkTimeout h D GateCb).
Proof.
  intros (_ & _ & _ & _ & _ & Hin & Hall). unfold pending.
  destruct (filter (fun t => handle t = h) (timeouts s)) as [|t l] eqn:E.
  - exfalso. eapply (filter_nil_not_elem_of _ _ _ E); [|exact Hin]. reflexivity.
  - cbn. f_equal.
    assert (Ht : t ∈ filter (fun t => handle t = h) (timeouts s))
      by (rewrite E; left).
    apply list_elem_of_filter in Ht as [Hh Ht].
    rewrite Forall_forall in Hall. now apply Hall.
Qed.

Lemma holding_fresh (h : positive) (D t0 : Q) (n : nat) (s : State) :
  holding h D t0 n s -> (h < nextHandle s)%positive.
Proof.
  intros ([H1 _ _ _ _] & _ & _ & _ & _ & Hin & _).
  rewrite Forall_forall in H1. apply (H1 _ Hin).
Qed.

Lemma press_holding (now now' : Q) (s : State) :
  inv s -> phase s = awaiting_L -> hasFocus s = true -> lIsDown s = false ->
  (now < testEndsAt s)%Q ->
  holding (nextHandle s) (now' + Qmax 1 (L_HOLD_MS - (now' - now))) now
          (revealed s) (step (KeyDown "L" now now') s).
Proof.
  intros Hs Hp Hf Hd Ht.
  split; [now apply inv_step|].
  apply Qlt_bool_iff in Ht. destruct Hs as [H1 _ _ _ _].
  cbn. unfold handleKeyDown. rewrite Hf, Hd. cbn. rewrite Hp, Ht. cbn.
  unfold scheduleStimulusAfterLGate. cbn. rewrite Hp.
  assert (Hold : forall l : list Timeout,
             Forall (fun t => (handle t < nextHandle s)%positive) l ->
             Forall (fun t => handle t = nextHandle s ->
                              t = mkTimeout (nextHandle s)
                                    (now' + Qmax 1 (L_HOLD_MS - (now' - now)))
                                    GateCb) l).
  { intros l Hl. eapply Forall_impl; [exact Hl|]. cbn. lia. }
  destruct (lGateTimer s) as [h0|]; cbn;
    (repeat split; [left | constructor; [reflexivity|]]).
  - apply Hold. now apply Forall_filter_sub.
  - now apply Hold.
Qed.

Lemma holding_step (h : positive) (D t0 : Q) (n : nat) (e : Event) (s : State) :
  holding h D t0 n s -> during_hold h D e = true ->
  holding h D t0 n (step e s).
Proof.
  intros Hh He. pose proof (holding_fresh _ _ _ _ _ Hh) as Hfresh.
  pose proof (holding_pending _ _ _ _ _ Hh) as Hpend.
  destruct Hh as (Hs & Hd & Ht0 & Hg & Hn & Hin & Hall).
  split; [now apply inv_step|].
  destruct e; cbn [step during_hold gate_up is_refresh negb andb] in He |- *.
  - pose proof (gate_fields_handleKeyDown key now now' s (or_intror Hd))
      as [= -> _ -> -> ->].
    now rewrite revealed_handleKeyDown.
  - unfold handleKeyUp. apply andb_prop in He as [He _].
    apply negb_true_iff in He. rewrite He. auto 10.
  - destruct (pending h0 s) as [tm|] eqn:Htm; [|auto 10].
    destruct (Qle_bool (due tm) t1) eqn:Hdue; [|auto 10].
    destruct (Pos.eqb_spec h0 h) as [->|Hne].
    { exfalso. rewrite Hpend in Htm. injection Htm as <-.
      cbn [negb orb due] in He, Hdue.
      apply Qlt_bool_iff in He. apply Qle_bool_iff in Hdue. lra. }
    apply pending_elem in Htm as [Htm Hh0].
    assert (Hkeep : mkTimeout h D GateCb
                      ∈ filter (fun t => handle t ≠ h0) (timeouts s))
      by (apply list_elem_of_filter; split;
          [cbn [handle]; congruence | exact Hin]).
    assert (Hall' : Forall (fun t => handle t = h -> t = mkTimeout h D GateCb)
                           (filter (fun t => handle t ≠ h0) (timeouts s)))
      by now apply Forall_filter_sub.
    destruct (callback tm) eqn:Hcb; cbn [run_callback].
    + exfalso. destruct Hs as [_ H2 _ _ _]. rewrite Forall_forall in H2.
      specialize (H2 tm Htm). rewrite Hcb in H2. specialize (H2 eq_refl).
      congruence.
    + pose proof (gate_fields_deadlineCallback myTrial (clearTimeout h0 s))
        as [= -> _ -> -> ->].
      rewrite revealed_deadlineCallback. auto 10.
    + pose proof (gate_fields_endTest (clearTimeout h0 s))
        as [= -> _ -> -> ->].
      rewrite revealed_endTest. auto 10.
  - destruct (timerId s); [|auto 10].
    destruct (gate_fields_tick t s) as (Htm & -> & -> & ->).
    rewrite revealed_tick. repeat split; auto.
    + destruct Htm as [->|[d ->]]; [exact Hin | now right].
    + destruct Htm as [->|[d ->]]; [exact Hall|].
      constructor; [cbn [handle]; lia | exact Hall].
  - auto 10.
  - auto 10.
  - destruct (gate_fields_startTest now s) as (-> & -> & -> & -> & _).
    repeat split; auto. unfold startTest. now destruct (phase s).
  - discriminate.
Qed.

Lemma holding_run (h : positive) (D t0 : Q) (n : nat) (evs : list Event)
      (s : State) :
  holding h D t0 n s -> Forall (fun e => during_hold h D e = true) evs ->
  holding h D t0 n (run evs s).
Proof.
  revert s. induction evs as [|e evs IH]; intros s Hh Hev; cbn; [exact Hh|].
  inversion Hev; subst. apply IH; [now apply holding_step | assumption].
Qed.

Lemma during_hold_later (h : positive) (D D' : Q) (e : Event) :
  (D <= D')%Q -> during_hold h D e = true -> during_hold h D' e = true.
Proof.
  intros HD. destruct e; cbn; auto.
  intros H. apply orb_true_iff in H as [H|H]; apply orb_true_iff; auto.
  right. apply Qlt_bool_iff in H. apply Qlt_bool_iff. lra.
Qed.

Lemma holding_release (h : positive) (D t0 : Q) (n : nat) (up : Q) (s : State) :
  holding h D t0 n s -> (up - t0 < L_HOLD_MS)%Q ->
  let s' := step (KeyUp "L" up) s in
  inv s' /\ no_gate_pending s' /\ revealed s' = n /\ lIsDown s' = false
  /\ pending h s' = None.
Proof.
  intros (Hs & Hd & Ht0 & Hg & Hn & Hin & Hall) Hup s'.
  split; [now apply inv_step|].
  subst s'. cbn. unfold handleKeyUp. cbn. rewrite Hg, Ht0.
  apply Qlt_bool_iff in Hup. rewrite Hup.
  split; [|split; [exact Hn | split; [reflexivity|]]].
  - apply (no_gate_after_clear h s); [apply Hs | exact Hg].
  - unfold pending. cbn.
    destruct (filter _ (filter _ _)) as [|t l] eqn:E; [reflexivity|].
    assert (Ht : t ∈ filter (fun t => handle t = h)
                        (filter (fun t => handle t ≠ h) (timeouts s)))
      by (rewrite E; left).
    apply list_elem_of_filter in Ht as [H1 Ht].
    apply list_elem_of_filter in Ht as [H2 _]. contradiction.
Qed.

Lemma holding_fire (h : positive) (D t0 : Q) (n : nat)
      (t t1 t2 r : Q) (s : State) :
  holding h D t0 n s -> phase s = awaiting_L ->
  (D <= t)%Q -> (t < testEndsAt s)%Q -> (t1 < testEndsAt s)%Q ->
  (0 <= r)%Q -> (r < 1)%Q ->
  let s' := step (Fire h t t1 t2 r) s in
  inv s' /\ no_gate_pending s' /\ lIsDown s' = true
  /\ revealed s' = n + 1 /\ phase s' = stimulus_on
  /\ currentTrial s' = Some n /\ trials s' = trials s ++ [n]
  /\ exists c, heap s' !! n
               = Some (mkTrial c t2 None None false
                               (flagPrematureForNext s) None None)
               /\ forall prev, lastColor s = Some prev -> c <> prev.
Proof.
  intros Hh Hp HD Ht Ht1 Hr0 Hr1 s'.
  pose proof (holding_pending _ _ _ _ _ Hh) as Hpend.
  destruct Hh as (Hs & Hd & Ht0 & Hg & Hn & Hin & Hall).
  split; [now apply inv_step|].
  destruct (pickNextColor_defined (lastColor s) r Hr0 Hr1) as (c & Hc & Hne).
  apply Qle_bool_iff in HD. apply Qlt_bool_iff in Ht.
  assert (Ht1' : Qle_bool (testEndsAt s) t1 = false).
  { destruct (Qle_bool (testEndsAt s) t1) eqn:E; [|reflexivity].
    apply Qle_bool_iff in E. lra. }
  subst s'. cbn. rewrite Hpend. cbn. rewrite HD. cbn.
  unfold gateCallback. cbn. rewrite Hd, Hp, Ht. cbn.
  unfold showNextStimulus. cbn. rewrite Ht1', Hc. cbn.
  unfold revealed in *. rewrite length_app. cbn. rewrite <- Hn.
  split.
  { constructor; [reflexivity|].
    apply (no_gate_after_clear h s); [apply Hs | exact Hg]. }
  repeat split; auto.
  exists c. split; [|exact Hne].
  apply list_lookup_middle. reflexivity.
Qed.

Lemma gate_wait_ge_hold (now now' : Q) :
  (now + L_HOLD_MS <= now' + Qmax 1 (L_HOLD_MS - (now' - now)))%Q.
Proof.
  pose proof (Q.le_max_r 1 (L_HOLD_MS - (now' - now))). lra.
Qed.

(** A press of the gate key that the handler processes.  Let the gate key
    go down at [now] in a reachable state whose phase is [awaiting_L],
    with focus, with the key not recorded as down, and before the session
    deadline.  A reveal timer [h] is then pending, due no earlier than 200
    ms after the press.
    - Whatever else happens meanwhile, if the key is released less than
      200 ms after the press, the timer is cancelled, no stimulus has been
      revealed, and none is revealed until the key is pressed again.
    - If instead the key stays down until the timer runs, with the phase
      still [awaiting_L] and the clock before the session deadline, the
      timer reveals exactly one stimulus, and however long the key is held
      afterwards no further stimulus is revealed. *)
Lemma gate_press_semantics (s : State) (now now' : Q) :
  reachable s -> phase s = awaiting_L -> hasFocus s = true ->
  lIsDown s = false -> (now < testEndsAt s)%Q ->
  let h := nextHandle s in
  let D := (now' + Qmax 1 (L_HOLD_MS - (now' - now)))%Q in
  let pressed := step (KeyDown "L" now now') s in
  (now + L_HOLD_MS <= D)%Q
  /\ pending h pressed = Some (mkTimeout h D GateCb)
  /\ revealed pressed = revealed s
  /\ (forall evs up,
        Forall (fun e => during_hold h (now + L_HOLD_MS) e = true) evs ->
        (up - now < L_HOLD_MS)%Q ->
        let released := step (KeyUp "L" up) (run evs pressed) in
        pending h released = None
        /\ no_gate_pending released
        /\ revealed released = revealed s
        /\ forall evs',
             Forall (fun e => gate_down e = false) evs' ->
             revealed (run evs' released) = revealed s)
  /\ (forall evs t t1 t2 r,
        Forall (fun e => during_hold h D e = true) evs ->
        let held := run evs pressed in
        phase held = awaiting_L ->
        (D <= t)%Q -> (t < testEndsAt held)%Q -> (t1 < testEndsAt held)%Q ->
        (0 <= r)%Q -> (r < 1)%Q ->
        let shown := step (Fire h t t1 t2 r) held in
        revealed held = revealed s
        /\ revealed shown = revealed s + 1
        /\ phase shown = stimulus_on
        /\ currentTrial shown = Some (revealed s)
        /\ forall evs',
             Forall (fun e => gate_up e = false /\ is_refresh e = false) evs' ->
             revealed (run evs' shown) = revealed s + 1).
Proof.
  intros Hs Hp Hf Hd Ht h D pressed.
  apply reachable_inv in Hs.
  pose proof (press_holding now now' s Hs Hp Hf Hd Ht) as Hh.
  fold h D pressed in Hh.
  pose proof (gate_wait_ge_hold now now') as HD. fold D in HD.
  split; [exact HD|].
  split; [exact (holding_pending _ _ _ _ _ Hh)|].
  split; [apply Hh|].
  split.
  - intros evs up Hev Hup released.
    assert (Hh' : holding h D now (revealed s) (run evs pressed)).
    { apply holding_run; [exact Hh|].
      eapply Forall_impl; [exact Hev|]. cbn.
      intros e. now apply during_hold_later. }
    destruct (holding_release _ _ _ _ up _ Hh' Hup)
      as (Hi & Hno & Hrev & _ & Hpend).
    fold released in Hi, Hno, Hrev, Hpend.
    repeat split; auto.
    intros evs' Hev'. rewrite released_run; auto.
  - intros evs t t1 t2 r Hev held Hph HDt Ht' Ht1 Hr0 Hr1 shown.
    assert (Hh' : holding h D now (revealed s) held)
      by (now apply holding_run).
    destruct (holding_fire _ _ _ _ t t1 t2 r _ Hh' Hph HDt Ht' Ht1 Hr0 Hr1)
      as (Hi & Hno & Hdown & Hrev & Hphase & Hcur & _).
    fold shown in Hi, Hno, Hdown, Hrev, Hphase, Hcur.
    split; [apply Hh'|]. repeat split; auto.
    intros evs' Hev'. rewrite held_run; auto.
Qed.

(** ** The history store *)

Section PersistenceProperties.

Variable JSON_parse : string -> option value.
Variable JSON_stringify : value -> string.

(** What a value becomes on its way through [JSON.stringify] and
    [JSON.parse] ([undefined] and [NaN] do not survive as such). *)
Variable normalise : value -> value.

Hypothesis parse_empty : JSON_parse "" = None.
Hypothesis parse_stringify_array :
  forall l, JSON_parse (JSON_stringify (VArray l))
            = Some (VArray (normalise <$> l)).

Lemma loadTop5_persistTop5 (s : value) (item : option string) :
  loadTop5 JSON_parse (Got (persistTop5 JSON_parse JSON_stringify s item))
  = normalise <$> take 5 (s :: loadTop5 JSON_parse (Got item)).
Proof using parse_empty parse_stringify_array.
  unfold persistTop5. cbv zeta.
  set (l := take 5 (s :: loadTop5 JSON_parse (Got item))).
  cbn [loadTop5].
  destruct (String.eqb_spec (JSON_stringify (VArray l)) "") as [E|_].
  - pose proof (parse_stringify_array l) as H.
    rewrite E, parse_empty in H. discriminate.
  - now rewrite parse_stringify_array.
Qed.

(** C9, amended.  [loadTop5] never raises and returns the empty list
    when the store cannot be read, holds no item, or holds one that does
    not parse or does not parse to an array.  [persistTop5] replaces the
    item by the serialised list made of the new summary followed by the
    previously stored list, cut to 5 entries.  Reading after a write
    therefore returns at most 5 summaries, the most recent first, and
    so does reading any item this component has written.  An item that
    parses to an array is returned whole, whatever its length: the bound
    of 5 comes from [persistTop5] alone. *)
Theorem history_store :
  loadTop5 JSON_parse Threw = []
  /\ loadTop5 JSON_parse (Got None) = []
  /\ (forall raw, JSON_parse raw = None ->
        loadTop5 JSON_parse (Got (Some raw)) = [])
  /\ (forall raw v, JSON_parse raw = Some v -> (forall l, v <> VArray l) ->
        loadTop5 JSON_parse (Got (Some raw)) = [])
  /\ (forall s item,
        persistTop5 JSON_parse JSON_stringify s item
        = Some (JSON_stringify
                  (VArray (take 5 (s :: loadTop5 JSON_parse (Got item))))))
  /\ (forall s item,
        let after := persistTop5 JSON_parse JSON_stringify s item in
        loadTop5 JSON_parse (Got after)
        = normalise <$> take 5 (s :: loadTop5 JSON_parse (Got item))
        /\ head (loadTop5 JSON_parse (Got after)) = Some (normalise s)
        /\ length (loadTop5 JSON_parse (Got after)) <= 5)
  /\ (forall item, written JSON_parse JSON_stringify item ->
        length (loadTop5 JSON_parse (Got item)) <= 5)
  /\ (forall raw l, raw <> ""%string -> JSON_parse raw = Some (VArray l) ->
        loadTop5 JSON_parse (Got (Some raw)) = l).
Proof using parse_empty parse_stringify_array.
  assert (Hafter : forall s item,
    let after := persistTop5 JSON_parse JSON_stringify s item in
    loadTop5 JSON_parse (Got after)
    = normalise <$> take 5 (s :: loadTop5 JSON_parse (Got item))
    /\ head (loadTop5 JSON_parse (Got after)) = Some (normalise s)
    /\ length (loadTop5 JSON_parse (Got after)) <= 5).
  { intros s item after. subst after. rewrite loadTop5_persistTop5.
    split; [reflexivity|]. split; [reflexivity|].
    rewrite length_fmap, length_take. lia. }
  split; [reflexivity|]. split; [reflexivity|].
  split.
  { intros raw H. cbn. rewrite H. now destruct (String.eqb raw ""). }
  split.
  { intros raw v H Hv. cbn. rewrite H.
    destruct (String.eqb raw ""); [reflexivity|].
    destruct v; try reflexivity. now destruct (Hv items). }
  split; [reflexivity|].
  split; [exact Hafter|].
  split.
  { intros item [|s item']; [cbn; lia|]. apply Hafter. }
  intros raw l Hne H. cbn. rewrite H.
  now destruct (String.eqb_spec raw "").
Qed.

End PersistenceProperties.

(** * Instances

    Each theorem above that carries a hypothesis is applied here to a
    concrete input on which its hypotheses hold. *)

Lemma histogram_ten_bins_witness :
  Histogram.counts (histogram [120; 499; 500; 5000; 7000; -3]%Q 10) !! 9
  = Some 2.
Proof.
  destruct (histogram_ten_bins [120; 499; 500; 5000; 7000; -3]%Q)
    as (_ & _ & _ & H & _).
  rewrite (H 9); [reflexivity | lia].
Defined.

Lemma missed_takes_precedence_witness :
  truthy_bool (missed missed_but_answered) = true
  /\ Stats.misses (computeStats (sample_log ++ [missed_but_answered]))
     = Stats.misses (computeStats sample_log) + 1
  /\ Stats.rtSamples (computeStats (sample_log ++ [missed_but_answered]))
     = Stats.rtSamples (computeStats sample_log).
Proof.
  split; [reflexivity|].
  destruct (missed_takes_precedence sample_log [] missed_but_answered eq_refl)
    as (H1 & _ & _ & H4 & _).
  rewrite app_nil_r in H1, H4. split; [exact H1 | exact H4].
Defined.

Lemma next_color_differs_witness :
  exists c, pickNextColor (Some Y) (7 # 10) = Some c /\ c <> Y.
Proof.
  destruct next_color_differs as (H & _).
  apply (H Y (7 # 10)%Q); [discriminate | reflexivity].
Defined.

Lemma reachable_started : reachable started.
Proof. apply reachable_step, reachable_init. Defined.

Lemma debounce_updated_on_stimulus_only_witness :
  reachable started
  /\ accepted "R" 1000 started /\ phase started = awaiting_L
  /\ flagPrematureForNext (handleKeyDown "R" 1000 1000 started) = true
  /\ lastResponseAt (handleKeyDown "R" 1000 1000 started)
     = lastResponseAt started.
Proof.
  assert (Ha : accepted "R" 1000 started) by (repeat split).
  split; [exact reachable_started|]. split; [exact Ha|].
  split; [reflexivity|].
  destruct (debounce_updated_on_stimulus_only "R" 1000 1000 started
              reachable_started) as (_ & _ & _ & H).
  apply H; [exact Ha | reflexivity | now left].
Defined.

Lemma reachable_first_stimulus : reachable first_stimulus.
Proof. repeat apply reachable_step. apply reachable_init. Defined.

Lemma deadline_callback_guarded_witness :
  reachable first_stimulus
  /\ phase (deadlineCallback 0 first_stimulus) = awaiting_L
  /\ (missed <$> heap (deadlineCallback 0 first_stimulus) !! 0)
     = Some (Some true)
  /\ deadlineCallback 7 first_stimulus = first_stimulus.
Proof.
  split; [exact reachable_first_stimulus|].
  destruct (deadline_callback_guarded first_stimulus 0
              reachable_first_stimulus) as (_ & H & _).
  destruct (H eq_refl eq_refl) as (tr & _ & _ & Hm & _ & Hp & _).
  split; [exact Hp|]. split; [now rewrite Hm|].
  destruct (deadline_callback_guarded first_stimulus 7
              reachable_first_stimulus) as (_ & _ & _ & H7 & _).
  apply H7. discriminate.
Defined.

Lemma length_marks (n : nat) : String.length (marks n) = n.
Proof. induction n as [|n IH]; cbn; [reflexivity | now rewrite IH]. Qed.

Lemma length_parse_stringify (l : list value) :
  length_parse (length_stringify (VArray l))
  = Some (VArray ((fun _ => VNull) <$> l)).
Proof.
  cbn. rewrite length_marks. do 2 f_equal.
  induction l as [|x l IH]; cbn; [reflexivity | now rewrite IH].
Qed.

Lemma history_store_witness :
  length_parse "" = None
  /\ (forall l, length_parse (length_stringify (VArray l))
                = Some (VArray ((fun _ => VNull) <$> l)))
  /\ length (loadTop5 length_parse
               (Got (persistTop5 length_parse length_stringify
                       (VString "newest") (Some "[xxxxx"%string)))) <= 5.
Proof.
  split; [reflexivity|]. split; [exact length_parse_stringify|].
  destruct (history_store length_parse length_stringify (fun _ => VNull)
              eq_refl length_parse_stringify) as (_ & _ & _ & _ & _ & H & _).
  apply H.
Defined.

(** ** Scenarios of the specification, run on the model *)

(** The key Y accepted 310 ms after the onset of a yellow stimulus. *)
Example scenario_correct_response :
  let s := step (KeyDown "Y" 610 610) yellow_shown in
  heap yellow_shown !! 0 = Some (mkTrial Y 300 None None false false None None)
  /\ phase yellow_shown = stimulus_on
  /\ heap s !! 0
     = Some (mkTrial Y 300 (Some 610%Q) (Some 310%Q) true false None None)
  /\ phase s = awaiting_L /\ lastResponseAt s = 610%Q.
Proof. vm_compute. repeat split. Qed.

(** No key before the deadline timer (handle 3, due at 5301) runs. *)
Example scenario_missed :
  let s := step (Fire 3 5301 5301 5301 0) yellow_shown in
  heap s !! 0
  = Some (mkTrial Y 300 None None false false None (Some true))
  /\ phase s = awaiting_L.
Proof. vm_compute. repeat split. Qed.

(** A wrong letter is recorded as the wrong key. *)
Example scenario_wrong_key :
  let s := step (KeyDown "A" 700 700) yellow_shown in
  heap s !! 0
  = Some (mkTrial Y 300 (Some 700%Q) (Some 400%Q) false false
                  (Some "A"%string) None).
Proof. vm_compute. repeat split. Qed.

(** A premature G marks the next trial only; the trial after it starts
    with a clear flag. *)
Example scenario_premature :
  let s := run [KeyDown "Y" 710 710; KeyUp "L" 800; KeyDown "L" 900 900;
                Fire 4 1100 1100 1100 0] yellow_shown_after_premature in
  (premature <$> heap s !! 0) = Some true
  /\ (premature <$> heap s !! 1) = Some false
  /\ (color <$> heap s !! 1) = Some R.
Proof. vm_compute. repeat split. Qed.

(** A second key 50 ms after an accepted response is ignored outright. *)
Example scenario_debounce :
  let s := step (KeyDown "Y" 610 610) yellow_shown in
  step (KeyDown "G" 660 660) s = s
  /\ flagPrematureForNext (step (KeyDown "G" 710 710) s) = true.
Proof. vm_compute. repeat split. Qed.

(** The stale deadline timer of an answered trial does nothing, also once
    the next stimulus is on. *)
Example scenario_stale_deadline :
  let s := run [KeyDown "Y" 610 610; KeyUp "L" 700; KeyDown "L" 800 800;
                Fire 4 1000 1000 1000 0] yellow_shown in
  phase s = stimulus_on /\ currentTrial s = Some 1
  /\ deadlineCallback 0 s = s.
Proof. vm_compute. repeat split. Qed.

(** * Further properties of the stats engine *)

Lemma finish_color_counts (p : PerColor.t) (arr : list (option Q)) :
  PerColor.attempts (finish_color p arr) = PerColor.attempts p
  /\ PerColor.correct (finish_color p arr) = PerColor.correct p.
Proof. destruct arr; split; reflexivity. Qed.

Lemma perColor_counts (trs : list Trial) (c : Color) :
  let p := get c (Stats.perColor (computeStats trs)) in
  PerColor.attempts p = length (List.filter (attempted_in c) trs)
  /\ PerColor.correct p = length (List.filter (counted_in c) trs).
Proof.
  cbv zeta. rewrite computeStats_perColor.
  destruct (finish_color_counts
              (get c (acc_perColor (loop trs acc_init)))
              (get c (Stats.rtSamplesByColor (computeStats trs)))) as [-> ->].
  destruct (loop_perColor trs acc_init c) as [H1 H2]. cbv zeta in H1, H2.
  rewrite H1, H2. now destruct c.
Qed.

Lemma length_filter_cons {A} (f : A -> bool) (x : A) (l : list A) :
  length (List.filter f (x :: l))
  = (if f x then 1 else 0) + length (List.filter f l).
Proof. cbn. now destruct (f x). Qed.

Lemma attempted_partition (trs : list Trial) :
  length (List.filter (attempted_in R) trs)
  + length (List.filter (attempted_in Y) trs)
  + length (List.filter (attempted_in G) trs) = length trs.
Proof.
  induction trs as [|t trs IH]; [reflexivity|].
  rewrite !length_filter_cons. cbn [length].
  destruct (attempted_in R t) eqn:ER, (attempted_in Y t) eqn:EY,
    (attempted_in G t) eqn:EG;
    unfold attempted_in in ER, EY, EG; destruct (color t); try discriminate;
    lia.
Qed.

Lemma counted_partition (trs : list Trial) :
  length (List.filter (counted_in R) trs)
  + length (List.filter (counted_in Y) trs)
  + length (List.filter (counted_in G) trs)
  = length (List.filter counted trs).
Proof.
  induction trs as [|t trs IH]; [reflexivity|].
  rewrite !length_filter_cons.
  destruct (counted_in R t) eqn:ER, (counted_in Y t) eqn:EY,
    (counted_in G t) eqn:EG;
    unfold counted_in in ER, EY, EG;
    destruct (counted t), (color t); try discriminate; lia.
Qed.

Lemma counted_in_attempted (c : Color) (trs : list Trial) :
  length (List.filter (counted_in c) trs)
  <= length (List.filter (attempted_in c) trs).
Proof.
  induction trs as [|t trs IH]; [reflexivity|].
  rewrite !length_filter_cons.
  destruct (counted_in c t) eqn:EC, (attempted_in c t) eqn:EA;
    unfold counted_in, attempted_in in EC, EA;
    destruct (counted t), (Color_eqb (color t) c); try discriminate; lia.
Qed.

(** X1.  The per-colour entries break the totals down: a colour's
    [attempts] is the number of trials of that colour, its [correct] is
    the size of its latency sample and never exceeds its attempts, the
    three [attempts] add up to [totalTrials] and the three [correct] to
    the overall [correct]. *)
Theorem perColor_breakdown (trs : list Trial) :
  let st := computeStats trs in
  let p c := get c (Stats.perColor st) in
  (forall c,
     PerColor.attempts (p c) = length (List.filter (attempted_in c) trs)
     /\ PerColor.correct (p c) = length (get c (Stats.rtSamplesByColor st))
     /\ PerColor.correct (p c) <= PerColor.attempts (p c))
  /\ PerColor.attempts (p R) + PerColor.attempts (p Y) + PerColor.attempts (p G)
     = Stats.totalTrials st
  /\ PerColor.correct (p R) + PerColor.correct (p Y) + PerColor.correct (p G)
     = Stats.correct st.
Proof.
  intros st p. subst p st. cbv beta.
  destruct (computeStats_samples trs) as [Hs Hsc].
  split; [|split].
  - intros c. destruct (perColor_counts trs c) as [Ha Hc].
    cbv zeta in Ha, Hc. rewrite Ha, Hc, Hsc, length_fmap.
    repeat split. apply counted_in_attempted.
  - destruct (perColor_counts trs R) as [-> _].
    destruct (perColor_counts trs Y) as [-> _].
    destruct (perColor_counts trs G) as [-> _].
    apply attempted_partition.
  - destruct (perColor_counts trs R) as [_ ->].
    destruct (perColor_counts trs Y) as [_ ->].
    destruct (perColor_counts trs G) as [_ ->].
    rewrite counted_partition.
    change (Stats.correct (computeStats trs))
      with (length (Stats.rtSamples (computeStats trs))).
    now rewrite Hs, length_fmap.
Qed.

Lemma loop_body_clear_premature (a : Acc) (t : Trial) :
  loop_body a (clear_premature t)
  = mkAcc (acc_perColor (loop_body a t)) (acc_rtAllCorrect (loop_body a t))
          (acc_rtByColor (loop_body a t)) (acc_prematureErrors a)
          (acc_wrongKeyErrors (loop_body a t)) (acc_misses (loop_body a t))
          (acc_completedTrials (loop_body a t)).
Proof.
  unfold loop_body, clear_premature. cbn.
  destruct (truthy_bool (missed t)), (not_null (respondedAt t)), (correct t);
    reflexivity.
Qed.

Lemma loop_clear_premature (trs : list Trial) (a : Acc) :
  loop (clear_premature <$> trs) a
  = mkAcc (acc_perColor (loop trs a)) (acc_rtAllCorrect (loop trs a))
          (acc_rtByColor (loop trs a)) (acc_prematureErrors a)
          (acc_wrongKeyErrors (loop trs a)) (acc_misses (loop trs a))
          (acc_completedTrials (loop trs a)).
Proof.
  induction trs as [|t trs IH] using rev_ind.
  - now destruct a.
  - rewrite fmap_app. cbn [fmap list_fmap]. rewrite !loop_snoc, IH.
    rewrite loop_body_clear_premature.
    unfold loop_body. cbn.
    destruct (truthy_bool (missed t)), (not_null (respondedAt t)), (correct t);
      reflexivity.
Qed.

(** X2.  The premature counter is independent of the outcome counters:
    [prematureErrors] is the number of trials flagged premature, whatever
    their outcome, and clearing the flag on every trial changes nothing in
    the statistics but that counter, which becomes 0. *)
Theorem premature_independent (trs : list Trial) :
  let st := computeStats trs in
  let st0 := computeStats (clear_premature <$> trs) in
  Stats.prematureErrors st = length (List.filter premature trs)
  /\ Stats.prematureErrors st <= Stats.totalTrials st
  /\ st0 = Stats.mk (Stats.totalTrials st) (Stats.completedTrials st)
                    (Stats.correct st) (Stats.accuracy st) 0
                    (Stats.wrongKeyErrors st) (Stats.misses st)
                    (Stats.overallAvgRT st) (Stats.overallMedianRT st)
                    (Stats.perColor st) (Stats.rtSamples st)
                    (Stats.rtSamplesByColor st).
Proof.
  intros st st0. subst st st0.
  destruct (loop_tallies trs acc_init) as (_ & _ & Hp).
  cbv zeta in Hp. rewrite Nat.add_0_l in Hp.
  change (Stats.prematureErrors (computeStats trs))
    with (acc_prematureErrors (loop trs acc_init)).
  change (Stats.totalTrials (computeStats trs)) with (length trs).
  split; [exact Hp|]. split.
  - rewrite Hp. apply List.filter_length_le.
  - unfold computeStats.
    rewrite loop_clear_premature, length_fmap. reflexivity.
Qed.

(** ** Rounding and the accuracy percentages *)

Lemma Qfloor_unique (q : Q) (z : Z) :
  (inject_Z z <= q)%Q -> (q < inject_Z z + 1)%Q -> Qfloor q = z.
Proof.
  intros Hlo Hhi.
  pose proof (Qfloor_le q) as H1. pose proof (Qlt_floor q) as H2.
  rewrite inject_Z_plus in H2. change (inject_Z 1) with 1%Q in H2.
  assert (Ha : (inject_Z (Qfloor q) < inject_Z z + 1)%Q) by lra.
  assert (Hb : (inject_Z z < inject_Z (Qfloor q) + 1)%Q) by lra.
  change 1%Q with (inject_Z 1) in Ha, Hb.
  rewrite <- inject_Z_plus, <- Zlt_Qlt in Ha, Hb. lia.
Qed.

Lemma round1Q_tenths (z : Z) : (round1Q (inject_Z z / 10) == inject_Z z / 10)%Q.
Proof.
  unfold round1Q, Math_round.
  rewrite (Qfloor_unique (inject_Z z / 10 * 10 + (1 # 2)) z).
  - reflexivity.
  - assert (E : (inject_Z z / 10 * 10 == inject_Z z)%Q) by field. lra.
  - assert (E : (inject_Z z / 10 * 10 == inject_Z z)%Q) by field. lra.
Qed.

Lemma round1Q_monotone (x y : Q) : (x <= y)%Q -> (round1Q x <= round1Q y)%Q.
Proof.
  intros H. unfold round1Q, Math_round.
  apply Qmult_le_compat_r; [|discriminate].
  rewrite <- Zle_Qle. apply Qfloor_resp_le. lra.
Qed.

(** X3.  [round1] is idempotent and monotone: rounding an already
    rounded value, as [fmtPct] does with the stored accuracy, changes
    nothing, and rounding never reverses the order of two values. *)
Theorem round1_idempotent_monotone (x y : Q) :
  (round1Q (round1Q x) == round1Q x)%Q
  /\ ((x <= y)%Q -> (round1Q x <= round1Q y)%Q).
Proof.
  split.
  - unfold round1Q at 2 3. apply round1Q_tenths.
  - apply round1Q_monotone.
Qed.

Lemma percent_bounds (k n : nat) :
  k <= n -> 0 < n -> (0 <= percent k n)%Q /\ (percent k n <= 100)%Q.
Proof.
  intros Hk Hn. unfold percent.
  assert (Hn' : (0 < inject_Z (Z.of_nat n))%Q)
    by (change 0%Q with (inject_Z 0); rewrite <- Zlt_Qlt; lia).
  assert (Hk0 : (0 <= inject_Z (Z.of_nat k))%Q)
    by (change 0%Q with (inject_Z 0); rewrite <- Zle_Qle; lia).
  assert (Hkn : (inject_Z (Z.of_nat k) <= inject_Z (Z.of_nat n))%Q)
    by (rewrite <- Zle_Qle; lia).
  split.
  - apply Qle_shift_div_l; [exact Hn' | lra].
  - apply Qle_shift_div_r; [exact Hn' | lra].
Qed.

Lemma accuracy_value_bounds (k n : nat) :
  k <= n ->
  let acc := match n with
             | O => 0%Q
             | S _ => round1Q (percent k n)
             end in
  (0 <= acc)%Q /\ (acc <= 100)%Q.
Proof.
  intros Hk. destruct n as [|n]; cbv zeta; [lra|].
  destruct (percent_bounds k (S n) Hk ltac:(lia)) as [H0 H100].
  pose proof (round1Q_monotone _ _ H0) as Hlo.
  pose proof (round1Q_monotone _ _ H100) as Hhi.
  assert (E0 : (round1Q 0 == 0)%Q) by reflexivity.
  assert (E100 : (round1Q 100 == 100)%Q) by reflexivity.
  split; lra.
Qed.

(** X4.  Every accuracy reported by [computeStats], overall and per
    colour, lies between 0 and 100, and is 0 when there is no trial to
    divide by. *)
Theorem accuracy_in_range (trs : list Trial) (c : Color) :
  let st := computeStats trs in
  (0 <= Stats.accuracy st)%Q /\ (Stats.accuracy st <= 100)%Q
  /\ (0 <= PerColor.accuracy (get c (Stats.perColor st)))%Q
  /\ (PerColor.accuracy (get c (Stats.perColor st)) <= 100)%Q
  /\ (Stats.totalTrials st = 0 -> Stats.accuracy st = 0%Q)
  /\ (PerColor.attempts (get c (Stats.perColor st)) = 0 ->
      PerColor.accuracy (get c (Stats.perColor st)) = 0%Q).
Proof.
  intros st. subst st.
  assert (Hov : Stats.correct (computeStats trs) <= length trs).
  { change (Stats.correct (computeStats trs))
      with (length (Stats.rtSamples (computeStats trs))).
    destruct (computeStats_samples trs) as [-> _].
    rewrite length_fmap. apply List.filter_length_le. }
  destruct (accuracy_value_bounds _ _ Hov) as [H1 H2].
  split; [exact H1|]. split; [exact H2|].
  rewrite computeStats_perColor.
  set (p := get c (acc_perColor (loop trs acc_init))).
  set (arr := get c (Stats.rtSamplesByColor (computeStats trs))).
  assert (Hpc : PerColor.correct p <= PerColor.attempts p).
  { subst p. destruct (loop_perColor trs acc_init c) as [Ha Hc].
    cbv zeta in Ha, Hc. rewrite Ha, Hc.
    replace (get c (acc_perColor acc_init)) with perColorInit
      by (now destruct c).
    cbn. apply counted_in_attempted. }
  destruct (accuracy_value_bounds _ _ Hpc) as [H3 H4].
  assert (Hacc : PerColor.accuracy (finish_color p arr)
                 = match PerColor.attempts p with
                   | O => 0%Q
                   | S _ => round1Q (percent (PerColor.correct p)
                                             (PerColor.attempts p))
                   end) by (now destruct arr).
  assert (Hatt : PerColor.attempts (finish_color p arr) = PerColor.attempts p)
    by (now destruct arr).
  rewrite Hacc, Hatt.
  split; [exact H3|]. split; [exact H4|]. split.
  - intros H0. change (Stats.totalTrials (computeStats trs)) with (length trs) in H0.
    unfold computeStats. cbn [Stats.accuracy]. now rewrite H0.
  - intros ->. reflexivity.
Qed.

(** ** Composition *)

(** X5.  The statistics of a log split in two: every counter of the
    whole is the sum of the counters of the parts, and every latency
    sample of the whole is the sample of the first part followed by that
    of the second. *)
Theorem computeStats_app (l1 l2 : list Trial) :
  let st := computeStats (l1 ++ l2) in
  let st1 := computeStats l1 in
  let st2 := computeStats l2 in
  Stats.totalTrials st = Stats.totalTrials st1 + Stats.totalTrials st2
  /\ Stats.completedTrials st
     = Stats.completedTrials st1 + Stats.completedTrials st2
  /\ Stats.correct st = Stats.correct st1 + Stats.correct st2
  /\ Stats.wrongKeyErrors st
     = Stats.wrongKeyErrors st1 + Stats.wrongKeyErrors st2
  /\ Stats.misses st = Stats.misses st1 + Stats.misses st2
  /\ Stats.prematureErrors st
     = Stats.prematureErrors st1 + Stats.prematureErrors st2
  /\ Stats.rtSamples st = Stats.rtSamples st1 ++ Stats.rtSamples st2
  /\ forall c,
       get c (Stats.rtSamplesByColor st)
       = get c (Stats.rtSamplesByColor st1) ++ get c (Stats.rtSamplesByColor st2)
       /\ PerColor.attempts (get c (Stats.perColor st))
          = PerColor.attempts (get c (Stats.perColor st1))
            + PerColor.attempts (get c (Stats.perColor st2))
       /\ PerColor.correct (get c (Stats.perColor st))
          = PerColor.correct (get c (Stats.perColor st1))
            + PerColor.correct (get c (Stats.perColor st2)).
Proof.
  intros st st1 st2. subst st st1 st2.
  assert (Hsamp : forall l, Stats.rtSamples (computeStats l)
                            = rt <$> List.filter counted l)
    by (intros l; apply computeStats_samples).
  assert (Htal : forall l,
     Stats.wrongKeyErrors (computeStats l) = length (List.filter counted_wrong l)
     /\ Stats.misses (computeStats l) = length (List.filter counted_miss l)
     /\ Stats.prematureErrors (computeStats l)
        = length (List.filter premature l)
     /\ Stats.completedTrials (computeStats l) = length l).
  { intros l. destruct (loop_tallies l acc_init) as (H1 & H2 & H3).
    destruct (loop_counters l acc_init) as [H4 _].
    cbv zeta in H1, H2, H3, H4. cbn in H1, H2, H3, H4. auto. }
  destruct (Htal (l1 ++ l2)) as (-> & -> & -> & ->).
  destruct (Htal l1) as (-> & -> & -> & ->).
  destruct (Htal l2) as (-> & -> & -> & ->).
  change (Stats.totalTrials (computeStats (l1 ++ l2))) with (length (l1 ++ l2)).
  change (Stats.totalTrials (computeStats l1)) with (length l1).
  change (Stats.totalTrials (computeStats l2)) with (length l2).
  assert (Hc : forall l, Stats.correct (computeStats l)
                         = length (List.filter counted l)).
  { intros l. change (Stats.correct (computeStats l))
      with (length (Stats.rtSamples (computeStats l))).
    now rewrite Hsamp, length_fmap. }
  rewrite !Hc, !Hsamp, !List.filter_app, !length_app, fmap_app.
  repeat split.
  - destruct (computeStats_samples (l1 ++ l2)) as [_ ->].
    destruct (computeStats_samples l1) as [_ ->].
    destruct (computeStats_samples l2) as [_ ->].
    now rewrite List.filter_app, fmap_app.
  - destruct (perColor_counts (l1 ++ l2) c) as [-> _].
    destruct (perColor_counts l1 c) as [-> _].
    destruct (perColor_counts l2 c) as [-> _].
    now rewrite List.filter_app, length_app.
  - destruct (perColor_counts (l1 ++ l2) c) as [_ ->].
    destruct (perColor_counts l1 c) as [_ ->].
    destruct (perColor_counts l2 c) as [_ ->].
    now rewrite List.filter_app, length_app.
Qed.

(** ** Order of the trials *)

Lemma filter_length_perm {A} (f : A -> bool) (l l' : list A) :
  Permutation l l' -> length (List.filter f l) = length (List.filter f l').
Proof.
  induction 1 as [|x l l' _ IH|x y l|l l' l'' _ IH1 _ IH2].
  - reflexivity.
  - rewrite !length_filter_cons. lia.
  - rewrite !length_filter_cons. lia.
  - congruence.
Qed.

Lemma filter_perm {A} (f : A -> bool) (l l' : list A) :
  Permutation l l' -> Permutation (List.filter f l) (List.filter f l').
Proof.
  induction 1 as [|x l l' _ IH|x y l|l l' l'' _ IH1 _ IH2]; cbn.
  - constructor.
  - destruct (f x); [now constructor | exact IH].
  - destruct (f x), (f y); try reflexivity. apply perm_swap.
  - now transitivity (List.filter f l').
Qed.

(** X6.  The counters do not depend on the order of the log: two logs
    holding the same trials in a different order give the same totals,
    the same accuracies and the same per-colour attempts and correct
    counts, and latency samples that are rearrangements of one another. *)
Theorem counters_order_independent (trs trs' : list Trial) :
  Permutation trs trs' ->
  let st := computeStats trs in
  let st' := computeStats trs' in
  Stats.totalTrials st = Stats.totalTrials st'
  /\ Stats.completedTrials st = Stats.completedTrials st'
  /\ Stats.correct st = Stats.correct st'
  /\ Stats.wrongKeyErrors st = Stats.wrongKeyErrors st'
  /\ Stats.misses st = Stats.misses st'
  /\ Stats.prematureErrors st = Stats.prematureErrors st'
  /\ Stats.accuracy st = Stats.accuracy st'
  /\ Permutation (Stats.rtSamples st) (Stats.rtSamples st')
  /\ forall c,
       PerColor.attempts (get c (Stats.perColor st))
       = PerColor.attempts (get c (Stats.perColor st'))
       /\ PerColor.correct (get c (Stats.perColor st))
          = PerColor.correct (get c (Stats.perColor st'))
       /\ Permutation (get c (Stats.rtSamplesByColor st))
                      (get c (Stats.rtSamplesByColor st')).
Proof.
  intros HP st st'. subst st st'.
  assert (Htal : forall l,
     Stats.wrongKeyErrors (computeStats l) = length (List.filter counted_wrong l)
     /\ Stats.misses (computeStats l) = length (List.filter counted_miss l)
     /\ Stats.prematureErrors (computeStats l)
        = length (List.filter premature l)
     /\ Stats.completedTrials (computeStats l) = length l
     /\ Stats.correct (computeStats l) = length (List.filter counted l)).
  { intros l. destruct (loop_tallies l acc_init) as (H1 & H2 & H3).
    destruct (loop_counters l acc_init) as [H4 _].
    destruct (loop_samples l acc_init) as [H5 _].
    cbv zeta in H1, H2, H3, H4. cbn in H1, H2, H3, H4, H5.
    repeat split; auto.
    change (Stats.correct (computeStats l))
      with (length (acc_rtAllCorrect (loop l acc_init))).
    now rewrite H5, length_fmap. }
  assert (Hlen : length trs = length trs') by now apply Permutation_length.
  assert (Hcorr : Stats.correct (computeStats trs)
                  = Stats.correct (computeStats trs')).
  { destruct (Htal trs) as (_ & _ & _ & _ & ->).
    destruct (Htal trs') as (_ & _ & _ & _ & ->).
    now apply filter_length_perm. }
  destruct (Htal trs) as (Hw & Hm & Hp & Hc & _).
  destruct (Htal trs') as (Hw' & Hm' & Hp' & Hc' & _).
  split; [exact Hlen|].
  split; [now rewrite Hc, Hc'|].
  split; [exact Hcorr|].
  split; [rewrite Hw, Hw'; now apply filter_length_perm|].
  split; [rewrite Hm, Hm'; now apply filter_length_perm|].
  split; [rewrite Hp, Hp'; now apply filter_length_perm|].
  split.
  { unfold computeStats. cbn [Stats.accuracy].
    change (length (acc_rtAllCorrect (loop trs acc_init)))
      with (Stats.correct (computeStats trs)).
    change (length (acc_rtAllCorrect (loop trs' acc_init)))
      with (Stats.correct (computeStats trs')).
    now rewrite Hcorr, Hlen. }
  split.
  { destruct (computeStats_samples trs) as [-> _].
    destruct (computeStats_samples trs') as [-> _].
    apply Permutation_map. now apply filter_perm. }
  intros c.
  destruct (perColor_counts trs c) as [-> ->].
  destruct (perColor_counts trs' c) as [-> ->].
  split; [now apply filter_length_perm|].
  split; [now apply filter_length_perm|].
  destruct (computeStats_samples trs) as [_ ->].
  destruct (computeStats_samples trs') as [_ ->].
  apply Permutation_map. now apply filter_perm.
Qed.

Lemma Qle_bool_proper (x y y' : Q) : (y == y')%Q -> Qle_bool x y = Qle_bool x y'.
Proof.
  intros E. destruct (Qle_bool x y) eqn:H1, (Qle_bool x y') eqn:H2; try reflexivity.
  - apply Qle_bool_iff in H1. apply Qle_bool_false in H2. lra.
  - apply Qle_bool_iff in H2. apply Qle_bool_false in H1. lra.
Qed.

Lemma sort_insert_pointwise (x : Q) (l l' : list Q) :
  Forall2 Qeq l l' -> Forall2 Qeq (sort_insert x l) (sort_insert x l').
Proof.
  induction 1 as [|y y' l l' E H IH]; cbn.
  - repeat constructor.
  - rewrite (Qle_bool_proper x y y' E).
    destruct (Qle_bool x y'); repeat constructor; auto; try reflexivity.
Qed.

Lemma Forall2_Qeq_refl (l : list Q) : Forall2 Qeq l l.
Proof. induction l; constructor; auto. reflexivity. Qed.

Lemma Forall2_Qeq_trans (l1 l2 l3 : list Q) :
  Forall2 Qeq l1 l2 -> Forall2 Qeq l2 l3 -> Forall2 Qeq l1 l3.
Proof.
  intros H. revert l3. induction H as [|x y l1 l2 E _ IH]; intros l3 H3.
  - exact H3.
  - inversion H3 as [|? z ? l3' E' H3']; subst. constructor.
    + now rewrite E.
    + now apply IH.
Qed.

Lemma sort_insert_swap (x y : Q) (l : list Q) :
  Forall2 Qeq (sort_insert x (sort_insert y l)) (sort_insert y (sort_insert x l)).
Proof.
  induction l as [|z l IH]; cbn.
  - destruct (Qle_bool x y) eqn:Hxy, (Qle_bool y x) eqn:Hyx.
    + apply Qle_bool_iff in Hxy, Hyx.
      assert (E : (x == y)%Q) by lra.
      repeat constructor; [exact E | now symmetry].
    + apply Forall2_Qeq_refl.
    + apply Forall2_Qeq_refl.
    + apply Qle_bool_false in Hxy, Hyx. lra.
  - destruct (Qle_bool y z) eqn:Hyz, (Qle_bool x z) eqn:Hxz; cbn;
      destruct (Qle_bool x y) eqn:Hxy, (Qle_bool y x) eqn:Hyx;
      rewrite ?Hyz, ?Hxz;
      try (apply Qle_bool_iff in Hxy); try (apply Qle_bool_iff in Hyx);
      try (apply Qle_bool_iff in Hyz); try (apply Qle_bool_iff in Hxz);
      try (apply Qle_bool_false in Hxy); try (apply Qle_bool_false in Hyx);
      try (apply Qle_bool_false in Hyz); try (apply Qle_bool_false in Hxz);
      try lra;
      try apply Forall2_Qeq_refl;
      try (constructor; [reflexivity | exact IH]).
    assert (E : (x == y)%Q) by lra.
    constructor; [exact E|]. constructor; [now symmetry|].
    apply Forall2_Qeq_refl.
Qed.

Lemma sort_numbers_perm_pointwise (l l' : list Q) :
  Permutation l l' -> Forall2 Qeq (sort_numbers l) (sort_numbers l').
Proof.
  induction 1 as [|x l l' _ IH|x y l|l l' l'' _ IH1 _ IH2]; cbn.
  - constructor.
  - now apply sort_insert_pointwise.
  - apply sort_insert_swap.
  - eapply Forall2_Qeq_trans; eauto.
Qed.

Lemma Forall2_Qeq_nth (l l' : list Q) (i : nat) :
  Forall2 Qeq l l' -> (nth i l 0 == nth i l' 0)%Q.
Proof.
  intros H. revert i. induction H as [|x y l l' E _ IH]; intros [|i]; cbn;
    try reflexivity; auto.
Qed.

Lemma middle_pointwise (s s' : list Q) :
  Forall2 Qeq s s' -> (middle s == middle s')%Q.
Proof.
  intros H. unfold middle. rewrite <- (Forall2_length _ _ _ H).
  destruct (Nat.even (length s)).
  - now rewrite !(Forall2_Qeq_nth s s' _ H).
  - now apply Forall2_Qeq_nth.
Qed.

(** A sorted list is left as it is by the sort. *)
Lemma sort_numbers_sorted_id (s : list Q) :
  Sorted Qle s -> Forall2 Qeq (sort_numbers s) s.
Proof.
  induction 1 as [|x s Hs IH Hd]; cbn; [constructor|].
  eapply Forall2_Qeq_trans; [apply sort_insert_pointwise, IH|].
  destruct Hd as [|y s Hxy]; cbn.
  - apply Forall2_Qeq_refl.
  - apply Qle_bool_iff in Hxy. rewrite Hxy. apply Forall2_Qeq_refl.
Qed.

(** The median of the specification is unique: whichever ascending
    arrangement of the sample is read, the middle is the same number. *)
Lemma is_median_unique (l l' : list Q) (m m' : Q) :
  Permutation l l' -> is_median l m -> is_median l' m' -> (m == m')%Q.
Proof.
  intros HP (s & Hs & Hss & ->) (s' & Hs' & Hss' & ->).
  apply middle_pointwise.
  eapply Forall2_Qeq_trans.
  { apply Forall2_flip. eapply Forall2_impl; [apply sort_numbers_sorted_id, Hss|].
    intros ? ? E. now symmetry. }
  eapply Forall2_Qeq_trans; [|apply sort_numbers_sorted_id, Hss'].
  apply sort_numbers_perm_pointwise.
  now rewrite Hs, HP, Hs'.
Qed.

(** X7.  The median does not depend on the order of the sample: for
    two non-empty samples of numbers that are rearrangements of one
    another, [median] returns equal numbers, and the median returned is
    the middle of any ascending arrangement of the sample. *)
Theorem median_order_independent (l l' : list Q) :
  Permutation l l' -> l <> [] ->
  exists m m',
    median (Some <$> l) = Some (Num m)
    /\ median (Some <$> l') = Some (Num m') /\ (m == m')%Q
    /\ forall m0, is_median l m0 -> (m0 == m)%Q.
Proof.
  intros HP Hl.
  assert (Hl' : l' <> []).
  { intros ->. apply Permutation_sym, Permutation_nil in HP. congruence. }
  destruct (median_numbers l Hl) as (m & Hm & Em).
  destruct (median_numbers l' Hl') as (m' & Hm' & Em').
  exists m, m'. repeat split; auto.
  - exact (is_median_unique l l' m m' HP Em Em').
  - intros m0 H0. exact (is_median_unique l l m0 m (Permutation_refl l) H0 Em).
Qed.

(** ** A correct response without a latency *)

Lemma fold_add_absorbs (arr : list (option Q)) (a : num) :
  a = NaN \/ In None arr ->
  fold_left (fun a b => num_add a (ToNumber b)) arr a = NaN.
Proof.
  revert a. induction arr as [|x arr IH]; intros a [Ha|Hin]; cbn.
  - exact Ha.
  - destruct Hin.
  - apply IH. left. now subst.
  - apply IH. destruct Hin as [->|Hin]; [left | now right].
    now destruct a.
Qed.

Lemma fold_min_absorbs (arr : list (option Q)) (a : num) :
  a = NaN \/ In None arr ->
  fold_left (fun a b => num_min a (ToNumber b)) arr a = NaN.
Proof.
  revert a. induction arr as [|x arr IH]; intros a [Ha|Hin]; cbn.
  - exact Ha.
  - destruct Hin.
  - apply IH. left. now subst.
  - apply IH. destruct Hin as [->|Hin]; [left | now right].
    now destruct a.
Qed.

Lemma fold_max_absorbs (arr : list (option Q)) (a : num) :
  a = NaN \/ In None arr ->
  fold_left (fun a b => num_max a (ToNumber b)) arr a = NaN.
Proof.
  revert a. induction arr as [|x arr IH]; intros a [Ha|Hin]; cbn.
  - exact Ha.
  - destruct Hin.
  - apply IH. left. now subst.
  - apply IH. destruct Hin as [->|Hin]; [left | now right].
    now destruct a.
Qed.

Lemma avg_undefined (arr : list (option Q)) : In None arr -> avg arr = NaN.
Proof.
  intros H. unfold avg, sum_slots.
  destruct (length arr) eqn:E; [reflexivity|].
  rewrite fold_add_absorbs by now right. reflexivity.
Qed.

Lemma min_max_undefined (x : option Q) (xs : list (option Q)) :
  In None (x :: xs) -> Math_min x xs = NaN /\ Math_max x xs = NaN.
Proof.
  intros [->|H]; unfold Math_min, Math_max; split;
    first [apply fold_min_absorbs | apply fold_max_absorbs]; auto.
Qed.

(** X8.  A log in which some correct, responded, non-missed trial lacks
    its [rt] field: the loop pushes [undefined] into the samples, and the
    overall mean, and the mean, minimum and maximum of that trial's
    colour, are all reported as [NaN]. *)
Theorem missing_rt_gives_NaN (trs : list Trial) (t : Trial) :
  In t trs -> counted t = true -> rt t = None ->
  let st := computeStats trs in
  let p := get (color t) (Stats.perColor st) in
  In None (Stats.rtSamples st)
  /\ Stats.overallAvgRT st = Some NaN
  /\ PerColor.avgRT p = Some NaN
  /\ PerColor.minRT p = Some NaN
  /\ PerColor.maxRT p = Some NaN.
Proof.
  intros Hin Hc Hrt st p. subst p st.
  assert (H1 : In None (Stats.rtSamples (computeStats trs))).
  { destruct (computeStats_samples trs) as [-> _].
    rewrite <- Hrt. apply in_map, filter_In. auto. }
  assert (H2 : In None (get (color t)
                          (Stats.rtSamplesByColor (computeStats trs)))).
  { destruct (computeStats_samples trs) as [_ ->].
    rewrite <- Hrt. apply in_map, filter_In. split; [exact Hin|].
    unfold counted_in. rewrite Hc. now destruct (color t). }
  split; [exact H1|]. split.
  - pose proof (avg_undefined _ H1) as Ha.
    unfold computeStats in *. cbn [Stats.overallAvgRT Stats.rtSamples] in *.
    destruct (acc_rtAllCorrect (loop trs acc_init)); [destruct H1|].
    now rewrite Ha.
  - rewrite computeStats_perColor. unfold finish_color.
    destruct (get (color t) (Stats.rtSamplesByColor (computeStats trs)))
      as [|x xs] eqn:E; [destruct H2|].
    destruct (min_max_undefined x xs H2) as [-> ->].
    rewrite (avg_undefined _ H2). auto.
Qed.

(** * Further properties of the histogram *)

Lemma histogram_counts_lookup (rt : list Q) (bins : positive) (j : nat) :
  j < Pos.to_nat bins ->
  Histogram.counts (histogram rt bins) !! j
  = Some (length (List.filter
                    (fun v => Nat.eqb (bin_index (MAX_RT_MS / inject_Z (Z.pos bins))
                                                 bins v) j) rt)).
Proof.
  intros Hj.
  destruct (count_into_spec (MAX_RT_MS / inject_Z (Z.pos bins)) bins rt
              (replicate (Pos.to_nat bins) 0)) as (_ & _ & H);
    [apply length_replicate|].
  change (Histogram.counts (histogram rt bins))
    with (count_into (MAX_RT_MS / inject_Z (Z.pos bins)) bins rt
            (replicate (Pos.to_nat bins) 0)).
  rewrite H.
  assert (replicate (Pos.to_nat bins) 0 !! j = Some 0) as ->
    by (apply lookup_replicate; split; [reflexivity | exact Hj]).
  reflexivity.
Qed.

Lemma histogram_counts_length (rt : list Q) (bins : positive) :
  length (Histogram.counts (histogram rt bins)) = Pos.to_nat bins.
Proof.
  destruct (count_into_spec (MAX_RT_MS / inject_Z (Z.pos bins)) bins rt
              (replicate (Pos.to_nat bins) 0)) as (H & _);
    [apply length_replicate | exact H].
Qed.

Lemma histogram_counts_sum (rt : list Q) (bins : positive) :
  list_sum (Histogram.counts (histogram rt bins)) = length rt.
Proof.
  destruct (count_into_spec (MAX_RT_MS / inject_Z (Z.pos bins)) bins rt
              (replicate (Pos.to_nat bins) 0)) as (_ & H & _);
    [apply length_replicate|].
  change (Histogram.counts (histogram rt bins))
    with (count_into (MAX_RT_MS / inject_Z (Z.pos bins)) bins rt
            (replicate (Pos.to_nat bins) 0)).
  rewrite H. clear H.
  assert (E : list_sum (replicate (Pos.to_nat bins) 0) = 0).
  { induction (Pos.to_nat bins) as [|n IH]; [reflexivity|].
    cbn [replicate]. exact IH. }
  rewrite E. reflexivity.
Qed.

(** X9.  For any number of bins, the histogram of two samples put
    together has, bin by bin, the sum of the counts of the two, and the
    counts do not depend on the order of the samples. *)
Theorem histogram_additive (rt1 rt2 : list Q) (bins : positive) (j : nat) :
  j < Pos.to_nat bins ->
  (exists c1 c2,
     Histogram.counts (histogram rt1 bins) !! j = Some c1
     /\ Histogram.counts (histogram rt2 bins) !! j = Some c2
     /\ Histogram.counts (histogram (rt1 ++ rt2) bins) !! j = Some (c1 + c2))
  /\ (forall rt', Permutation rt1 rt' ->
        Histogram.counts (histogram rt' bins) !! j
        = Histogram.counts (histogram rt1 bins) !! j).
Proof.
  intros Hj. split.
  - eexists _, _. rewrite !histogram_counts_lookup by exact Hj.
    split; [reflexivity|]. split; [reflexivity|].
    now rewrite List.filter_app, length_app.
  - intros rt' HP. rewrite !histogram_counts_lookup by exact Hj.
    f_equal. symmetry. now apply filter_length_perm.
Qed.

Lemma list_sum_pos (l : list nat) :
  0 < list_sum l -> exists k, In k l /\ 0 < k.
Proof.
  induction l as [|k l IH]; intros H.
  - cbn in H. lia.
  - change (0 < k + list_sum l) in H.
    destruct k as [|k].
    + destruct IH as (k' & Hin & Hk'); [lia|]. exists k'. split; [now right|lia].
    + exists (S k). split; [now left | lia].
Qed.

Lemma histogram_max_attained (rt : list Q) :
  rt <> [] ->
  In (Histogram.max (histogram rt 10)) (Histogram.counts (histogram rt 10)).
Proof.
  intros Hrt.
  destruct (fold_max_spec (Histogram.counts (histogram rt 10)) 1)
    as (H1 & Hall & [Hm|Hin]); [|exact Hin].
  change (fold_left Nat.max (Histogram.counts (histogram rt 10)) 1)
    with (Histogram.max (histogram rt 10)) in *.
  (* the maximum is 1: some counter is at least 1, hence equal to it *)
  pose proof (histogram_counts_sum rt 10) as Hsum.
  assert (Hpos : 0 < length rt) by (destruct rt; cbn; [congruence | lia]).
  rewrite Hm in *.
  destruct (list_sum_pos (Histogram.counts (histogram rt 10)))
    as (k & Hk & Hk0); [lia|].
  rewrite Forall_forall in Hall.
  assert (k <= 1) by (apply Hall, list_elem_of_In, Hk).
  assert (k = 1) by lia. subst k. exact Hk.
Qed.

(** X10.  The bars of the histogram chart stay inside its 600 by 160
    view box: every bar is between 0 and 140 high, starts between
    [y = 10] and [y = 150], and spans [x] within [[2, 598]]; the label of
    bar [i] is [i * 500], the lower edge of its bin.  When the sample is
    not empty the fullest bin is drawn at the full height of 140; when it
    is empty every bar has height 0. *)
Theorem chart_bars_fit (rt : list Q) :
  let h := histogram rt 10 in
  (forall i c, Histogram.counts h !! i = Some c ->
     (0 <= bar_height h c)%Q /\ (bar_height h c <= 140)%Q
     /\ (10 <= bar_y h c)%Q /\ (bar_y h c <= 150)%Q
     /\ (2 <= bar_x h i)%Q /\ (bar_x h i + bar_width h <= 598)%Q
     /\ bar_label h i = (Z.of_nat i * 500)%Z)
  /\ (rt <> [] ->
      exists i c, Histogram.counts h !! i = Some c
                  /\ (bar_height h c == 140)%Q)
  /\ (rt = [] ->
      forall i c, Histogram.counts h !! i = Some c -> (bar_height h c == 0)%Q).
Proof.
  intros h.
  pose proof (histogram_counts_length rt 10) as Hlen. fold h in Hlen.
  destruct (fold_max_spec (Histogram.counts h) 1) as (Hm1 & Hall & _).
  change (fold_left Nat.max (Histogram.counts h) 1) with (Histogram.max h) in *.
  split; [|split].
  - intros i c Hc.
    assert (Hi : i < 10) by (apply lookup_lt_Some in Hc; now rewrite Hlen in Hc).
    assert (Hcm : c <= Histogram.max h).
    { rewrite Forall_forall in Hall. apply Hall.
      eapply list_elem_of_lookup_2; eauto. }
    unfold bar_y, bar_x, bar_width, bar_label, bar_height. rewrite Hlen.
    destruct (Histogram.max h) as [|m] eqn:Em; [lia|].
    assert (Hmq : (0 < inject_Z (Z.of_nat (S m)))%Q)
      by (change 0%Q with (inject_Z 0); rewrite <- Zlt_Qlt; lia).
    assert (Hc0 : (0 <= inject_Z (Z.of_nat c))%Q)
      by (change 0%Q with (inject_Z 0); rewrite <- Zle_Qle; lia).
    assert (Hcq : (inject_Z (Z.of_nat c) <= inject_Z (Z.of_nat (S m)))%Q)
      by (rewrite <- Zle_Qle; lia).
    assert (Hr0 : (0 <= inject_Z (Z.of_nat c) / inject_Z (Z.of_nat (S m)))%Q)
      by (apply Qle_shift_div_l; [exact Hmq | lra]).
    assert (Hr1 : (inject_Z (Z.of_nat c) / inject_Z (Z.of_nat (S m)) <= 1)%Q)
      by (apply Qle_shift_div_r; [exact Hmq | lra]).
    assert (Hi0 : (0 <= inject_Z (Z.of_nat i))%Q)
      by (change 0%Q with (inject_Z 0); rewrite <- Zle_Qle; lia).
    assert (Hi9 : (inject_Z (Z.of_nat i) <= 9)%Q)
      by (change 9%Q with (inject_Z 9); rewrite <- Zle_Qle; lia).
    assert (E60 : (600 / inject_Z (Z.of_nat 10) == 60)%Q) by reflexivity.
    repeat split; try lra.
    + rewrite E60. lra.
    + rewrite E60. lra.
    + unfold Math_round, MAX_RT_MS.
      apply Qfloor_unique.
      * assert (E : (inject_Z (Z.of_nat i) * (5000 / inject_Z (Z.of_nat 10))
                     == inject_Z (Z.of_nat i * 500))%Q)
          by (rewrite inject_Z_mult; field).
        rewrite E. lra.
      * assert (E : (inject_Z (Z.of_nat i) * (5000 / inject_Z (Z.of_nat 10))
                     == inject_Z (Z.of_nat i * 500))%Q)
          by (rewrite inject_Z_mult; field).
        rewrite E. lra.
  - intros Hrt. pose proof (histogram_max_attained rt Hrt) as Hin.
    fold h in Hin. apply list_elem_of_In, list_elem_of_lookup_1 in Hin as [i Hi].
    exists i, (Histogram.max h). split; [exact Hi|].
    unfold bar_height. destruct (Histogram.max h) as [|m] eqn:Em; [lia|].
    field. intros H0.
    assert (Hmq : (0 < inject_Z (Z.of_nat (S m)))%Q)
      by (change 0%Q with (inject_Z 0); rewrite <- Zlt_Qlt; lia).
    lra.
  - intros -> i c Hc. subst h.
    assert (Hi : i < 10) by (apply lookup_lt_Some in Hc; exact Hc).
    rewrite histogram_counts_lookup in Hc by exact Hi.
    injection Hc as <-. reflexivity.
Qed.

(** * Further properties of the trial sequencer *)

Lemma transition_same (e : Event) (s : State) : transition e s s.
Proof. apply tr_none; auto. Qed.

Lemma view_schedule (now : Q) (s : State) :
  view (scheduleStimulusAfterLGate now s) = view s
  /\ flagPrematureForNext (scheduleStimulusAfterLGate now s)
     = flagPrematureForNext s.
Proof.
  unfold scheduleStimulusAfterLGate.
  destruct (phase s) eqn:Hp; auto.
  destruct (lGateTimer s); split; unfold view; cbn; now rewrite ?Hp.
Qed.

Lemma transition_handleKeyDown (key : string) (now now' : Q) (s : State) :
  transition (KeyDown key now now') s (handleKeyDown key now now' s).
Proof.
  unfold handleKeyDown.
  destruct (hasFocus s) eqn:Hfoc; cbn [negb]; [|apply transition_same].
  destruct (String.eqb key "L").
  { destruct (negb (lIsDown s)); [|apply transition_same].
    destruct (_ && _); [|now apply tr_none; auto].
    destruct (view_schedule now' (set_lDownAt now (set_lIsDown true s)))
      as [Hv Hf].
    apply tr_none; [rewrite Hv; reflexivity | left; rewrite Hf; reflexivity]. }
  destruct (Qlt_bool (now - lastResponseAt s) KEY_DEBOUNCE_MS) eqn:Hdeb;
    [apply transition_same|].
  destruct (phase s) eqn:Hp; try apply transition_same.
  - destruct (_ || _) eqn:Hkey; [|apply transition_same].
    apply tr_none; [unfold view; cbn; now rewrite Hp|].
    right. cbn. auto.
  - destruct (currentTrial s) as [a|] eqn:Hc; [|apply transition_same].
    destruct (heap s !! a) as [tr|] eqn:Ha; [|apply transition_same].
    destruct (isLetter key) eqn:Hl; [|apply transition_same].
    destruct (truthy_num (respondedAt tr)) eqn:Hr; cbn [negb].
    + apply tr_none; [unfold view; cbn; now rewrite Hp, Hc | auto].
    + eapply tr_respond; eauto; reflexivity.
Qed.

Lemma transition_handleKeyUp (key : string) (now : Q) (s : State) :
  transition (KeyUp key now) s (handleKeyUp key now s).
Proof.
  unfold handleKeyUp. destruct (String.eqb key "L"); [|apply transition_same].
  destruct (lGateTimer s); [destruct (Qlt_bool _ _)|]; now apply tr_none; auto.
Qed.

Lemma transition_endTest (e : Event) (s s0 : State) :
  ends_session e s ->
  view s0 = view s -> flagPrematureForNext s0 = flagPrematureForNext s ->
  transition e s (endTest s0).
Proof.
  intros He Hv Hf. unfold endTest.
  injection Hv as Hp Hh Ht Hc Hl Hs.
  destruct (phase s0) eqn:Hp0;
    try (apply tr_finish; cbn; auto; try congruence;
         unfold log; now rewrite Hh, Ht).
  apply tr_none; [unfold view; congruence | auto].
Qed.

Lemma transition_tick (t : Q) (s : State) :
  timerId s <> None -> transition (Tick t) s (tick t s).
Proof.
  intros Hid. unfold tick.
  destruct (Qle_bool _ _) eqn:Ht; [|apply transition_same].
  change (phase (clearTimer s)) with (phase s).
  destruct (phase s) eqn:Hp;
    try (apply transition_endTest; [|reflexivity|reflexivity];
         cbn; rewrite Hp; repeat split; auto; discriminate).
  apply tr_none; [reflexivity | auto].
Qed.

Lemma transition_deadlineCallback (h : positive) (t0 t1 t2 r : Q) (tm : Timeout)
      (a : nat) (s : State) :
  pending h s = Some tm -> callback tm = DeadlineCb a ->
  Qle_bool (due tm) t0 = true ->
  transition (Fire h t0 t1 t2 r) s (deadlineCallback a (clearTimeout h s)).
Proof.
  intros Hpend Hcb Hdue. unfold deadlineCallback, deadline_guard.
  change (phase (clearTimeout h s)) with (phase s).
  change (currentTrial (clearTimeout h s)) with (currentTrial s).
  change (heap (clearTimeout h s)) with (heap s).
  destruct (Phase_eqb (phase s) stimulus_on) eqn:Hp; cbn [andb];
    [|now apply tr_none; auto].
  destruct (bool_decide (currentTrial s = Some a)) eqn:Hc; cbn [andb];
    [|now apply tr_none; auto].
  apply bool_decide_eq_true in Hc.
  destruct (heap s !! a) as [tr|] eqn:Ha; [|now apply tr_none; auto].
  destruct (truthy_num (respondedAt tr)) eqn:Hr; cbn [negb];
    [now apply tr_none; auto|].
  assert (Hphase : phase s = stimulus_on) by (destruct (phase s); now inversion Hp).
  eapply tr_miss; eauto; try reflexivity.
  cbn. apply list_eq. intros i.
  destruct (decide (a = i)) as [->|Hne].
  - rewrite list_lookup_alter_eq, list_lookup_insert_eq, Ha; [reflexivity|].
    eapply lookup_lt_Some; eauto.
  - now rewrite list_lookup_alter_ne, list_lookup_insert_ne.
Qed.

Lemma transition_gateCallback (h : positive) (t0 t1 t2 r : Q) (tm : Timeout)
      (s : State) :
  pending h s = Some tm -> callback tm = GateCb ->
  Qle_bool (due tm) t0 = true ->
  transition (Fire h t0 t1 t2 r) s (gateCallback t0 t1 t2 r (clearTimeout h s)).
Proof.
  intros Hpend Hcb Hdue. unfold gateCallback.
  change (lIsDown (clearTimeout h s)) with (lIsDown s).
  change (phase (clearTimeout h s)) with (phase s).
  change (testEndsAt (clearTimeout h s)) with (testEndsAt s).
  destruct (lIsDown s) eqn:Hd; cbn [andb]; [|now apply tr_none; auto].
  destruct (Phase_eqb (phase s) awaiting_L) eqn:Hp; cbn [andb];
    [|now apply tr_none; auto].
  destruct (Qlt_bool t0 (testEndsAt s)) eqn:Ht0; [|now apply tr_none; auto].
  assert (Hphase : phase s = awaiting_L) by (destruct (phase s); now inversion Hp).
  unfold showNextStimulus.
  change (testEndsAt (clearTimeout h s)) with (testEndsAt s).
  change (lastColor (clearTimeout h s)) with (lastColor s).
  destruct (Qle_bool (testEndsAt s) t1) eqn:Ht1; [now apply tr_none; auto|].
  destruct (pickNextColor (lastColor s) r) as [c|] eqn:Hc;
    [|now apply tr_none; auto].
  eapply tr_reveal; eauto; reflexivity.
Qed.

Lemma transition_startTest (now : Q) (s : State) :
  transition (Start now) s (startTest now s).
Proof.
  unfold startTest. destruct (phase s) eqn:Hp; try apply transition_same.
  eapply tr_start; eauto; reflexivity.
Qed.

Lemma transition_refreshTest (s : State) : transition Refresh s (refreshTest s).
Proof.
  unfold refreshTest.
  match goal with
  | |- context [lGateTimer ?x] => change (lGateTimer x) with (lGateTimer s)
  end.
  destruct (lGateTimer s); apply tr_refresh; reflexivity.
Qed.

(** Every step of the event loop is one of the seven transitions. *)
Lemma step_transition (e : Event) (s : State) : transition e s (step e s).
Proof.
  destruct e; cbn [step].
  - apply transition_handleKeyDown.
  - apply transition_handleKeyUp.
  - destruct (pending h s) as [tm|] eqn:Hpend; [|apply transition_same].
    destruct (Qle_bool (due tm) t0) eqn:Hdue; [|apply transition_same].
    destruct (callback tm) eqn:Hcb; cbn [run_callback].
    + eapply transition_gateCallback; eauto.
    + eapply transition_deadlineCallback; eauto.
    + apply transition_endTest; [cbn; eauto | reflexivity | reflexivity].
  - destruct (timerId s) eqn:Hid; [|apply transition_same].
    apply transition_tick. congruence.
  - now apply tr_none; auto.
  - now apply tr_none; auto.
  - apply transition_startTest.
  - apply transition_refreshTest.
Qed.

(** ** Invariants of the log *)

Lemma log_unfold (s : State) :
  Forall (fun a => a < length (heap s)) (trials s) ->
  Forall2 (fun a tr => heap s !! a = Some tr) (trials s) (log s).
Proof.
  unfold log. generalize (trials s) as l.
  induction 1 as [|a l Ha _ IH]; cbn; [constructor|].
  destruct (lookup_lt_is_Some_2 _ _ Ha) as [tr Htr]. rewrite Htr. cbn.
  constructor; assumption.
Qed.

Lemma log_same_heap_trials (s s' : State) :
  heap s' = heap s -> trials s' = trials s -> log s' = log s.
Proof. unfold log. now intros -> ->. Qed.

Lemma log_view (s s' : State) : view s' = view s -> log s' = log s.
Proof. intros [= _ Hh Ht _ _ _]. now apply log_same_heap_trials. Qed.

(** Updating the store at [a] changes the log only where it refers to [a]. *)
Lemma log_insert (s s' : State) (a : nat) (tr' : Trial) :
  heap s' = <[a := tr']> (heap s) -> trials s' = trials s ->
  Forall (fun b => b < length (heap s)) (trials s) ->
  Forall2 (fun b t => if decide (b = a) then t = tr'
                      else heap s !! b = Some t) (trials s) (log s').
Proof.
  intros Hh Ht. unfold log. rewrite Hh, Ht. clear Hh Ht.
  generalize (trials s) as l.
  induction 1 as [|b l Hb _ IH]; cbn; [constructor|].
  destruct (decide (b = a)) as [->|Hne].
  - rewrite list_lookup_insert_eq by exact Hb. cbn. constructor; [|exact IH].
    now rewrite decide_True.
  - rewrite list_lookup_insert_ne by congruence.
    destruct (lookup_lt_is_Some_2 _ _ Hb) as [t Htr]. rewrite Htr. cbn.
    constructor; [|exact IH]. now rewrite decide_False.
Qed.

Lemma colors_agree (h : list Trial) (a : nat) (tr tr' : Trial)
      (refs : list nat) (l1 l2 : list Trial) :
  h !! a = Some tr -> color tr' = color tr ->
  Forall2 (fun b t => h !! b = Some t) refs l1 ->
  Forall2 (fun b t => if decide (b = a) then t = tr'
                      else h !! b = Some t) refs l2 ->
  color <$> l2 = color <$> l1.
Proof.
  intros Ha Hc H1. revert l2.
  induction H1 as [|b t refs l1 Hb _ IH]; intros l2 H2;
    inversion H2 as [|? t2 ? l2' Hb2 H2']; subst; [reflexivity|].
  cbn. f_equal; [|now apply IH].
  destruct (decide (b = a)) as [->|Hne]; subst; congruence.
Qed.

Lemma log_insert_colors (s s' : State) (a : nat) (tr tr' : Trial) :
  heap s' = <[a := tr']> (heap s) -> trials s' = trials s ->
  Forall (fun b => b < length (heap s)) (trials s) ->
  heap s !! a = Some tr -> color tr' = color tr ->
  color <$> log s' = color <$> log s.
Proof.
  intros Hh Ht Hrefs Ha Hc.
  eapply colors_agree; eauto using log_unfold, log_insert.
Qed.

Lemma log_reveal (s s' : State) (tr : Trial) :
  heap s' = heap s ++ [tr] -> trials s' = trials s ++ [length (heap s)] ->
  Forall (fun b => b < length (heap s)) (trials s) ->
  log s' = log s ++ [tr].
Proof.
  intros Hh Ht Hrefs. unfold log. rewrite Hh, Ht, omap_app. cbn.
  rewrite list_lookup_middle by reflexivity. cbn. f_equal.
  clear Hh Ht. revert Hrefs. generalize (trials s) as l.
  induction 1 as [|b l Hb _ IH]; cbn; [reflexivity|].
  rewrite lookup_app_l by exact Hb. now rewrite IH.
Qed.

Lemma no_repeat_snoc (l : list Color) (c : Color) :
  no_repeat l -> (forall p, last l = Some p -> c <> p) -> no_repeat (l ++ [c]).
Proof.
  induction l as [|x [|y l] IH]; cbn; intros Hn Hl.
  - exact I.
  - split; [|exact I]. intros ->. now apply (Hl c).
  - destruct Hn as [Hxy Hn]. split; [exact Hxy|]. apply IH; assumption.
Qed.

Lemma wf_respond (key : string) (now : Q) (tr : Trial) :
  open_trial tr -> wf_trial (respond key now tr).
Proof.
  intros (Hr & Hrt & Hc & Hw & Hm). unfold wf_trial, respond. cbn.
  rewrite Hw, Hm.
  destruct (String.eqb key (Color_key (color tr))); repeat split; auto;
    try discriminate; try tauto; try (intros [? ?]; discriminate).
Qed.

Lemma wf_open (tr : Trial) : open_trial tr -> wf_trial tr.
Proof.
  intros (Hr & Hrt & Hc & Hw & Hm). unfold wf_trial.
  rewrite Hr, Hrt, Hc, Hw, Hm. cbn. repeat split; auto; try discriminate;
    try tauto; try (intros [? ?]; congruence).
Qed.

Lemma wf_missed (tr : Trial) :
  open_trial tr -> wf_trial (set_missed (Some true) tr).
Proof.
  intros (Hr & Hrt & Hc & Hw & Hm). unfold wf_trial, set_missed. cbn.
  rewrite Hr, Hrt, Hc, Hw. repeat split; auto; try discriminate; tauto.
Qed.

Lemma Forall2_last_Some {A B} (R : A -> B -> Prop) (l : list A) (l' : list B)
      (a : A) :
  Forall2 R l l' -> last l = Some a -> exists t, last l' = Some t /\ R a t.
Proof.
  induction 1 as [|x y l l' Hxy Hrest IH]; [discriminate|].
  destruct Hrest as [|x' y' l l' Hxy' Hrest].
  - cbn. intros [= ->]. eauto.
  - intros E. apply IH. exact E.
Qed.

Lemma last_lastColor (s : State) :
  lastColor_ok s -> Forall (fun a => a < length (heap s)) (trials s) ->
  last (color <$> log s) = lastColor s.
Proof.
  intros Hok Hrefs. pose proof (log_unfold s Hrefs) as H.
  unfold lastColor_ok in Hok. rewrite fmap_last.
  destruct (last (trials s)) as [a|] eqn:E.
  - destruct Hok as (tr & Ha & ->).
    destruct (Forall2_last_Some _ _ _ _ H E) as (t & -> & Ht).
    cbn. congruence.
  - apply last_None in E. unfold log. rewrite E. cbn. now rewrite Hok.
Qed.

Lemma log_inv_init : log_inv init.
Proof. split; cbn; try constructor; try discriminate; auto. Qed.

Lemma log_inv_transition (e : Event) (s s' : State) :
  inv s -> log_inv s -> transition e s s' -> log_inv s'.
Proof.
  intros Hinv [H1 H2 H3 H4 H5 H6 H8 H7] Htr.
  destruct Htr as
    [Hv Hf
    |key now now' a tr He Hp Hc Ha Hr Hl Hdeb Hh Hp' Hlr Ht Hc' Hlc Hs Hf
    |h t0 t1 t2 r tm a tr He Hpend Hcb Hdue Hp Hc Ha Hr Hh Hp' Ht Hc' Hlc Hs Hf
    |h t0 t1 t2 r tm c He Hpend Hcb Hdue Hp Hd Ht0 Ht1 Hpick Hh Ht Hc' Hlc Hf
       Hp' Hs
    |Hend Hp Hp' Hs Hh Ht Hc' Hlc Hf
    |now He Hp Hp' Ht Hc' Hs Hte Hh Hlc Hf
    |He Hp' Ht Hc' Hlc Hs Hh Hf].
  - (* nothing happens to the log *)
    pose proof (log_view _ _ Hv) as Hlog.
    injection Hv as Hp Hh Ht Hc Hl Hs.
    split; rewrite ?Hp, ?Hh, ?Ht, ?Hc, ?Hs, ?Hlog; auto.
  - (* a response *)
    destruct (H5 Hp) as (a' & tr' & Hc2 & Ha2 & Hopen).
    assert (a' = a) by congruence. subst a'.
    assert (tr' = tr) by congruence. subst tr'.
    split; rewrite ?Hp', ?Hh, ?Ht, ?Hc'; auto; try discriminate.
    + now rewrite length_insert.
    + apply Forall_insert; [exact H4 | now apply wf_respond].
    + rewrite (log_insert_colors s s' a tr (respond key now tr)); auto.
    + intros b t Hb Hlk Hop. exfalso.
      destruct (decide (b = a)) as [->|Hne].
      * rewrite list_lookup_insert_eq in Hlk by (eapply lookup_lt_Some; eauto).
        injection Hlk as <-. destruct Hop as [Hop _]. discriminate.
      * rewrite list_lookup_insert_ne in Hlk by congruence.
        destruct (H8 b t Hb Hlk Hop) as [Hcur _]. congruence.
  - (* a miss *)
    destruct (H5 Hp) as (a' & tr' & Hc2 & Ha2 & Hopen).
    assert (a' = a) by congruence. subst a'.
    assert (tr' = tr) by congruence. subst tr'.
    split; rewrite ?Hp', ?Hh, ?Ht, ?Hc'; auto; try discriminate.
    + now rewrite length_insert.
    + apply Forall_insert; [exact H4 | now apply wf_missed].
    + rewrite (log_insert_colors s s' a tr (set_missed (Some true) tr)); auto.
    + intros b t Hb Hlk Hop. exfalso.
      destruct (decide (b = a)) as [->|Hne].
      * rewrite list_lookup_insert_eq in Hlk by (eapply lookup_lt_Some; eauto).
        injection Hlk as <-. destruct Hop as (_ & _ & _ & _ & Hop). discriminate.
      * rewrite list_lookup_insert_ne in Hlk by congruence.
        destruct (H8 b t Hb Hlk Hop) as [Hcur _]. congruence.
  - (* a reveal *)
    split; rewrite ?Hp', ?Hh, ?Ht, ?Hc'; try discriminate.
    + now rewrite last_snoc.
    + rewrite length_app. cbn. apply Forall_app. split.
      * eapply Forall_impl; [exact H2|]. cbn. lia.
      * repeat constructor. lia.
    + apply NoDup_app. split; [exact H3|]. split; [|apply NoDup_singleton].
      intros x Hx Hx2. apply list_elem_of_In in Hx2. destruct Hx2 as [<-|[]].
      rewrite Forall_forall in H2. specialize (H2 _ Hx). lia.
    + apply Forall_app. split; [exact H4|]. constructor; [|constructor].
      apply wf_open. repeat split.
    + intros _. eexists _, _. split; [reflexivity|].
      split; [apply list_lookup_middle; reflexivity|]. repeat split.
    + rewrite (log_reveal s s' _ Hh Ht H2), fmap_app. cbn.
      apply no_repeat_snoc; [exact H6|].
      intros p Hlast. rewrite last_lastColor in Hlast; [|apply Hinv | exact H2].
      apply (pickNextColor_differs p r c). now rewrite <- Hlast.
    + intros b t Hb Hlk Hop. split; [|now left].
      apply elem_of_app in Hb. destruct Hb as [Hb|Hb].
      * exfalso. rewrite Forall_forall in H2. specialize (H2 _ Hb).
        rewrite lookup_app_l in Hlk by exact H2.
        destruct (H8 b t Hb Hlk Hop) as [_ [Hph|Hph]]; congruence.
      * apply list_elem_of_singleton in Hb. now subst b.
  - (* the session ends *)
    pose proof (log_same_heap_trials _ _ Hh Ht) as Hlog.
    split; rewrite ?Hp', ?Hh, ?Ht, ?Hc', ?Hlog; auto; try discriminate.
    intros b t Hb Hlk Hop. destruct (H8 b t Hb Hlk Hop) as [Hcur _]. auto.
  - (* a session starts *)
    split; rewrite ?Hp', ?Hh, ?Ht, ?Hc'; auto; try discriminate;
      try apply NoDup_nil_2; try apply Forall_nil_2.
    + unfold log. rewrite Ht. exact I.
    + intros b t Hb. now apply elem_of_nil in Hb.
  - (* refresh *)
    split; rewrite ?Hp', ?Hh, ?Ht, ?Hc'; auto; try discriminate;
      try apply NoDup_nil_2; try apply Forall_nil_2.
    + unfold log. rewrite Ht. exact I.
    + intros b t Hb. now apply elem_of_nil in Hb.
Qed.

Lemma reachable_log_inv (s : State) : reachable s -> log_inv s.
Proof.
  induction 1 as [|e s Hs IH]; [apply log_inv_init|].
  eapply log_inv_transition; [apply reachable_inv, Hs | exact IH|].
  apply step_transition.
Qed.

(** ** Properties of the sessions *)

Lemma reachable_run (evs : list Event) (s : State) :
  reachable s -> reachable (run evs s).
Proof.
  revert s. induction evs as [|e evs IH]; intros s Hs; [exact Hs|].
  apply (IH (step e s)). now apply reachable_step.
Qed.

Lemma run_cons (e : Event) (evs : list Event) (s : State) :
  run (e :: evs) s = run evs (step e s).
Proof. reflexivity. Qed.

Lemma log_elem_heap (s : State) (tr : Trial) : tr ∈ log s -> tr ∈ heap s.
Proof.
  unfold log. intros H. apply list_elem_of_omap in H as (a & _ & Ha).
  eapply list_elem_of_lookup_2; eauto.
Qed.

Lemma open_not_closed (tr : Trial) : open_trial tr -> closed_trial tr -> False.
Proof. intros (Hr & _ & _ & _ & Hm) [H|H]; congruence. Qed.

(** What one event does to one trial object. *)
Lemma trial_step (e : Event) (s : State) (a : nat) (tr : Trial) :
  heap s !! a = Some tr ->
  heap (step e s) !! a = Some tr
  \/ (phase s = stimulus_on /\ currentTrial s = Some a
      /\ truthy_num (respondedAt tr) = false
      /\ phase (step e s) = awaiting_L
      /\ ((exists key now now',
             e = KeyDown key now now' /\ isLetter key = true
             /\ heap (step e s) !! a = Some (respond key now tr))
          \/ (exists h t0 t1 t2 r tm,
                e = Fire h t0 t1 t2 r /\ pending h s = Some tm
                /\ callback tm = DeadlineCb a /\ Qle_bool (due tm) t0 = true
                /\ heap (step e s) !! a = Some (set_missed (Some true) tr)))).
Proof.
  intros Ha.
  destruct (step_transition e s) as
    [Hv Hf
    |key now now' a0 tr0 He Hp Hc Ha0 Hr Hl Hdeb Hh Hp' Hlr Ht Hc' Hlc Hs Hf
    |h t0 t1 t2 r tm a0 tr0 He Hpend Hcb Hdue Hp Hc Ha0 Hr Hh Hp' Ht Hc' Hlc Hs Hf
    |h t0 t1 t2 r tm c He Hpend Hcb Hdue Hp Hd Ht0 Ht1 Hpick Hh Ht Hc' Hlc Hf
       Hp' Hs
    |Hend Hp Hp' Hs Hh Ht Hc' Hlc Hf
    |now He Hp Hp' Ht Hc' Hs Hte Hh Hlc Hf
    |He Hp' Ht Hc' Hlc Hs Hh Hf].
  - left. injection Hv as _ Hh _ _ _ _. now rewrite Hh.
  - destruct (decide (a = a0)) as [->|Hne].
    + right. assert (tr0 = tr) by congruence. subst tr0.
      repeat split; auto. left. exists key, now, now'.
      repeat split; auto. rewrite Hh. apply list_lookup_insert_eq.
      eapply lookup_lt_Some; eauto.
    + left. rewrite Hh. now rewrite list_lookup_insert_ne by congruence.
  - destruct (decide (a = a0)) as [->|Hne].
    + right. assert (tr0 = tr) by congruence. subst tr0.
      repeat split; auto. right. exists h, t0, t1, t2, r, tm.
      repeat split; auto. rewrite Hh. apply list_lookup_insert_eq.
      eapply lookup_lt_Some; eauto.
    + left. rewrite Hh. now rewrite list_lookup_insert_ne by congruence.
  - left. rewrite Hh. apply lookup_app_l_Some. exact Ha.
  - left. now rewrite Hh.
  - left. now rewrite Hh.
  - left. now rewrite Hh.
Qed.

(** X11.  In every state the component can reach, each trial record is
    consistent: the latency is present exactly when the response time is
    and equals the response time minus the onset; a trial marked correct
    has a response and no wrong key; a wrong key is recorded exactly on
    the answered, incorrect trials; and [missed] is only ever set, to
    [true], on a trial without response.  This holds of every trial
    object and so of the log handed to [computeStats]. *)
Theorem trial_records_consistent (s : State) :
  reachable s ->
  Forall wf_trial (heap s) /\ Forall wf_trial (log s).
Proof.
  intros Hs. apply reachable_log_inv in Hs. destruct Hs as [_ _ _ H4 _ _ _ _].
  split; [exact H4|].
  apply Forall_forall. intros tr Htr. apply log_elem_heap in Htr.
  rewrite Forall_forall in H4. now apply H4.
Qed.

(** ** The statistics of a session *)

Lemma wf_counted_rt (P : Trial -> bool) (trs : list Trial) :
  (forall t, P t = true -> counted t = true) -> Forall wf_trial trs ->
  rt <$> List.filter P trs
  = Some <$> omap (fun t => (fun r => (r - onset t)%Q) <$> respondedAt t)
                  (List.filter P trs).
Proof.
  intros HP. induction 1 as [|t trs Ht _ IH]; [reflexivity|].
  cbn [List.filter]. destruct (P t) eqn:E; [|exact IH].
  apply HP in E. unfold counted in E.
  apply andb_prop in E as [E _]. apply andb_prop in E as [_ E].
  destruct Ht as (Hrt & _).
  destruct (respondedAt t) as [r|] eqn:Er; [|discriminate].
  cbn. rewrite Er. cbn. rewrite IH. f_equal. exact Hrt.
Qed.

Lemma perColor_numbers (trs : list Trial) (c : Color) (l : list Q) :
  get c (Stats.rtSamplesByColor (computeStats trs)) = Some <$> l ->
  let p := get c (Stats.perColor (computeStats trs)) in
  PerColor.avgRT p <> Some NaN /\ PerColor.medianRT p <> Some NaN
  /\ PerColor.minRT p <> Some NaN /\ PerColor.maxRT p <> Some NaN.
Proof.
  intros E p. subst p.
  destruct (perColor_reports trs c) as (Ha & Hm & Hnum).
  destruct l as [|x xs].
  - assert (He : get c (Stats.rtSamplesByColor (computeStats trs)) = [])
      by exact E.
    apply Ha in He as Ha'. apply Hm in He as Hm'. rewrite Ha', Hm'.
    split; [discriminate|]. split; [discriminate|].
    rewrite computeStats_perColor, He. unfold finish_color.
    pose proof (loop_rt_fields trs acc_init c) as Hf.
    replace (get c (acc_perColor acc_init)) with perColorInit in Hf
      by (destruct c; reflexivity).
    injection Hf as _ _ Hmin Hmax.
    cbn [PerColor.minRT PerColor.maxRT]. rewrite Hmin, Hmax.
    split; discriminate.
  - destruct (Hnum (x :: xs)) as (a & m & m0 & Ea & _ & Em & _);
      [discriminate | exact E |].
    rewrite Ea, Em. split; [discriminate|]. split; [discriminate|].
    rewrite computeStats_perColor, E. unfold finish_color.
    cbn [fmap list_fmap PerColor.minRT PerColor.maxRT].
    change (list_fmap Q (option Q) Some xs) with (Some <$> xs).
    destruct (Math_min_numbers x xs) as (lo & -> & _).
    destruct (Math_max_numbers x xs) as (hi & -> & _).
    split; discriminate.
Qed.

(** X12.  The statistics of a session are numbers.  In every reachable
    state, the latency samples that [computeStats] draws from the log,
    overall and per colour, hold no [undefined]: each is the response time
    minus the onset of a correct trial.  So no mean, median, minimum or
    maximum is reported as [NaN]. *)
Theorem session_stats_numeric (s : State) :
  reachable s ->
  let st := computeStats (log s) in
  Stats.rtSamples st
  = Some <$> omap (fun t => (fun r => (r - onset t)%Q) <$> respondedAt t)
                  (List.filter counted (log s))
  /\ Stats.overallAvgRT st <> Some NaN
  /\ Stats.overallMedianRT st <> Some NaN
  /\ forall c,
       get c (Stats.rtSamplesByColor st)
       = Some <$> omap (fun t => (fun r => (r - onset t)%Q) <$> respondedAt t)
                       (List.filter (counted_in c) (log s))
       /\ PerColor.avgRT (get c (Stats.perColor st)) <> Some NaN
       /\ PerColor.medianRT (get c (Stats.perColor st)) <> Some NaN
       /\ PerColor.minRT (get c (Stats.perColor st)) <> Some NaN
       /\ PerColor.maxRT (get c (Stats.perColor st)) <> Some NaN.
Proof.
  intros Hs st. subst st.
  apply reachable_log_inv in Hs. destruct Hs as [_ _ _ H4 _ _ _ _].
  assert (Hwf : Forall wf_trial (log s)).
  { apply Forall_forall. intros tr Htr. apply log_elem_heap in Htr.
    rewrite Forall_forall in H4. now apply H4. }
  destruct (computeStats_samples (log s)) as [E1 E2].
  assert (Hall : Stats.rtSamples (computeStats (log s))
                 = Some <$> omap (fun t => (fun r => (r - onset t)%Q)
                                             <$> respondedAt t)
                                 (List.filter counted (log s))).
  { rewrite E1. now apply wf_counted_rt. }
  split; [exact Hall|].
  pose proof (reports_rounded (Stats.rtSamples (computeStats (log s))))
    as (Ha & Hm & Hnum).
  change (match Stats.rtSamples (computeStats (log s)) with
          | [] => None
          | _ :: _ => Some (round1 (avg (Stats.rtSamples (computeStats (log s)))))
          end) with (Stats.overallAvgRT (computeStats (log s))) in *.
  change (match Stats.rtSamples (computeStats (log s)) with
          | [] => None
          | _ :: _ =>
            Some (round1 (ToNumber' (median (Stats.rtSamples
                                               (computeStats (log s))))))
          end) with (Stats.overallMedianRT (computeStats (log s))) in *.
  split; [|split].
  - destruct (omap _ (List.filter counted (log s))) as [|x xs] eqn:El.
    + apply Ha in Hall. rewrite Hall. discriminate.
    + destruct (Hnum (x :: xs)) as (a & m & m0 & -> & _);
        [discriminate | exact Hall | discriminate].
  - destruct (omap _ (List.filter counted (log s))) as [|x xs] eqn:El.
    + apply Hm in Hall. rewrite Hall. discriminate.
    + destruct (Hnum (x :: xs)) as (a & m & m0 & _ & _ & -> & _);
        [discriminate | exact Hall | discriminate].
  - intros c.
    assert (Hc : get c (Stats.rtSamplesByColor (computeStats (log s)))
                 = Some <$> omap (fun t => (fun r => (r - onset t)%Q)
                                             <$> respondedAt t)
                                 (List.filter (counted_in c) (log s))).
    { rewrite E2. apply wf_counted_rt; [|exact Hwf].
      intros t Ht. unfold counted_in in Ht. now apply andb_prop in Ht as [Ht _]. }
    split; [exact Hc|]. exact (perColor_numbers _ _ _ Hc).
Qed.

(** ** The life of a trial *)

Lemma closed_run (evs : list Event) (s : State) (a : nat) (tr : Trial) :
  reachable s -> heap s !! a = Some tr -> closed_trial tr ->
  heap (run evs s) !! a = Some tr.
Proof.
  revert s. induction evs as [|e evs IH]; intros s Hs Ha Hcl; [exact Ha|].
  rewrite run_cons. apply IH; [now apply reachable_step| |exact Hcl].
  destruct (trial_step e s a tr Ha) as [H|(Hp & Hc & _)]; [exact H|].
  exfalso. apply reachable_log_inv in Hs.
  destruct (li_open s Hs Hp) as (a' & tr' & Hc' & Ha' & Hopen).
  assert (a' = a) by congruence. subst a'.
  assert (tr' = tr) by congruence. subst tr'.
  exact (open_not_closed tr Hopen Hcl).
Qed.

(** X13.  The life of a trial object.  In a reachable state, an event
    either leaves a trial as it is, or the trial is the current one, still
    neither answered nor missed, a stimulus is on, and the event is a
    letter key, which records the response, or the trial's deadline timer,
    which marks it missed; the phase then returns to [awaiting_L].  A
    trial that has been answered or missed is never modified again,
    whatever events follow. *)
Theorem trial_lifecycle (s : State) (a : nat) (tr : Trial) :
  reachable s -> heap s !! a = Some tr ->
  (forall e,
     heap (step e s) !! a = Some tr
     \/ (open_trial tr /\ phase s = stimulus_on /\ currentTrial s = Some a
         /\ phase (step e s) = awaiting_L
         /\ ((exists key now now',
                e = KeyDown key now now' /\ isLetter key = true
                /\ heap (step e s) !! a = Some (respond key now tr))
             \/ (exists h t0 t1 t2 r tm,
                   e = Fire h t0 t1 t2 r /\ pending h s = Some tm
                   /\ callback tm = DeadlineCb a
                   /\ heap (step e s) !! a
                      = Some (set_missed (Some true) tr)))))
  /\ (closed_trial tr -> forall evs, heap (run evs s) !! a = Some tr).
Proof.
  intros Hs Ha. split.
  - intros e.
    destruct (trial_step e s a tr Ha) as [H|(Hp & Hc & _ & Hp' & Hev)];
      [now left|].
    right. pose proof (reachable_log_inv s Hs) as Hli.
    destruct (li_open s Hli Hp) as (a' & tr' & Hc' & Ha' & Hopen).
    assert (a' = a) by congruence. subst a'.
    assert (tr' = tr) by congruence. subst tr'.
    repeat split; try apply Hopen; auto.
    destruct Hev as [Hev|(h & t0 & t1 & t2 & r & tm & He & Hpd & Hcb & _ & Hm)];
      [now left|].
    right. exists h, t0, t1, t2, r, tm. auto.
  - intros Hcl evs. now apply closed_run.
Qed.

Lemma NoDup_last_lookup {A} (l : list A) (i : nat) (x : A) :
  NoDup l -> l !! i = Some x -> last l = Some x -> S i = length l.
Proof.
  intros Hnd Hi Hl. rewrite last_lookup in Hl.
  pose proof (lookup_lt_Some _ _ _ Hi) as Hlt.
  assert (i = pred (length l)) by (eapply NoDup_lookup; eauto).
  lia.
Qed.

(** X14.  At most one trial is open.  In every reachable state the
    current trial is the last trial of the log; a trial of the log that is
    neither answered nor missed is that last trial, and the phase is then
    [stimulus_on] or [finished]; and while a stimulus is on, the last
    trial of the log is neither answered nor missed. *)
Theorem one_open_trial (s : State) :
  reachable s ->
  (currentTrial s ≫= (fun a => heap s !! a)) = last (log s)
  /\ (forall i tr, log s !! i = Some tr -> open_trial tr ->
        S i = length (log s)
        /\ (phase s = stimulus_on \/ phase s = finished))
  /\ (phase s = stimulus_on ->
      exists tr, last (log s) = Some tr /\ open_trial tr).
Proof.
  intros Hs. apply reachable_log_inv in Hs.
  destruct Hs as [H1 H2 H3 H4 H5 H6 H8 H7].
  pose proof (log_unfold s H2) as Hlog.
  split; [|split].
  - rewrite H1. destruct (last (trials s)) as [a|] eqn:El.
    + destruct (Forall2_last_Some _ _ _ _ Hlog El) as (t & -> & Ht).
      exact Ht.
    + apply last_None in El. unfold log. now rewrite El.
  - intros i tr Hi Hop.
    destruct (Forall2_lookup_r _ _ _ _ _ Hlog Hi) as (a & Ha & Hlk).
    destruct (H8 a tr) as [Hc Hp]; auto.
    { eapply list_elem_of_lookup_2; eauto. }
    split; [|exact Hp].
    rewrite <- (Forall2_length _ _ _ Hlog).
    apply (NoDup_last_lookup _ _ a); auto. congruence.
  - intros Hp. destruct (H5 Hp) as (a & tr & Hc & Ha & Hop).
    rewrite H1 in Hc.
    destruct (Forall2_last_Some _ _ _ _ Hlog Hc) as (t & Hl & Ht).
    cbv beta in Ht. exists t. split; [exact Hl|]. congruence.
Qed.

Lemma no_repeat_lookup (l : list Color) (i : nat) (c1 c2 : Color) :
  no_repeat l -> l !! i = Some c1 -> l !! S i = Some c2 -> c1 <> c2.
Proof.
  revert i. induction l as [|x l IH]; intros i Hn H1 H2; [discriminate|].
  destruct l as [|y l]; [discriminate|]. destruct Hn as [Hxy Hn].
  destruct i as [|i].
  - cbn in H1, H2. congruence.
  - apply (IH i Hn); assumption.
Qed.

(** X15.  No colour is shown twice in a row: in every reachable state,
    any two consecutive trials of the session's log have different
    colours. *)
Theorem session_colours_never_repeat (s : State) (i : nat) (t1 t2 : Trial) :
  reachable s -> log s !! i = Some t1 -> log s !! S i = Some t2 ->
  color t1 <> color t2.
Proof.
  intros Hs H1 H2. apply reachable_log_inv in Hs.
  apply (no_repeat_lookup (color <$> log s) i); [apply Hs| |].
  - now rewrite list_lookup_fmap, H1.
  - now rewrite list_lookup_fmap, H2.
Qed.

(** ** What ends a session, and what a finished session keeps *)

Lemma finished_step (e : Event) (s : State) :
  phase s = finished -> is_refresh e = false -> view (step e s) = view s.
Proof.
  intros Hp He.
  destruct (step_transition e s) as
    [Hv _
    |? ? ? ? ? _ Hp' |? ? ? ? ? ? ? ? _ _ _ _ Hp' |? ? ? ? ? ? ? _ _ _ _ Hp'
    |_ Hp' |? _ Hp' |He'];
    try congruence.
  subst e. discriminate.
Qed.

(** X16.  A finished session stays as it is until it is refreshed.  In a
    reachable state whose phase is [finished], the summary holds the
    statistics of the session's log, and no sequence of events without a
    refresh changes the phase, the summary or the log: late keys and late
    timers do nothing. *)
Theorem finished_until_refresh (s : State) (evs : list Event) :
  reachable s -> phase s = finished ->
  Forall (fun e => is_refresh e = false) evs ->
  summary s = Some (computeStats (log s))
  /\ phase (run evs s) = finished
  /\ summary (run evs s) = summary s
  /\ log (run evs s) = log s.
Proof.
  intros Hs Hp Hevs. split.
  { apply reachable_log_inv in Hs. now apply (li_summary s Hs). }
  clear Hs.
  assert (Hv : view (run evs s) = view s).
  { revert s Hp. induction Hevs as [|e evs He _ IH]; intros s Hp; [reflexivity|].
    rewrite run_cons. pose proof (finished_step e s Hp He) as Hv.
    rewrite IH; [exact Hv|].
    injection Hv as -> _ _ _ _ _. exact Hp. }
  pose proof (log_view _ _ Hv) as Hl.
  injection Hv as Hp' _ _ _ _ Hsum.
  repeat split; congruence.
Qed.

(** X17.  Only the clock ends a session.  Whenever an event moves the
    phase to [finished], the event is the interval callback running at or
    after [testEndsAt] while no stimulus is on, or the end timer it armed
    while one was; the summary then holds the statistics of the log as it
    was, and the log is kept.  No key press finishes a session. *)
Theorem session_ends_by_timer (e : Event) (s : State) :
  phase s <> finished -> phase (step e s) = finished ->
  ends_session e s
  /\ summary (step e s) = Some (computeStats (log s))
  /\ log (step e s) = log s.
Proof.
  intros Hp Hp'.
  destruct (step_transition e s) as
    [Hv _
    |? ? ? ? ? _ _ _ _ _ _ _ _ Hq |? ? ? ? ? ? ? ? _ _ _ _ _ _ _ _ _ Hq
    |? ? ? ? ? ? ? _ _ _ _ _ _ _ _ _ _ _ _ _ _ Hq
    |Hend _ _ Hs Hh Ht
    |? _ _ Hq |_ Hq];
    try congruence.
  - injection Hv as Hq _ _ _ _ _. congruence.
  - split; [exact Hend|]. split; [exact Hs|].
    now apply log_same_heap_trials.
Qed.

(** X18.  A stimulus appears only behind the gate.  Whenever an event
    creates a trial, the event is the gate timer running when due, the
    phase is [awaiting_L], the gate key is down and both clock readings
    are before [testEndsAt]; exactly one trial is appended, with the
    colour picked, the onset read from the clock, no response, and the
    pending premature flag, which is then cleared. *)
Theorem stimulus_only_behind_gate (e : Event) (s : State) :
  revealed (step e s) <> revealed s ->
  exists h t0 t1 t2 r tm c,
    e = Fire h t0 t1 t2 r /\ pending h s = Some tm /\ callback tm = GateCb
    /\ (due tm <= t0)%Q
    /\ phase s = awaiting_L /\ lIsDown s = true
    /\ (t0 < testEndsAt s)%Q /\ (t1 < testEndsAt s)%Q
    /\ pickNextColor (lastColor s) r = Some c
    /\ heap (step e s)
       = heap s ++ [mkTrial c t2 None None false (flagPrematureForNext s)
                            None None]
    /\ trials (step e s) = trials s ++ [revealed s]
    /\ currentTrial (step e s) = Some (revealed s)
    /\ phase (step e s) = stimulus_on
    /\ flagPrematureForNext (step e s) = false.
Proof.
  unfold revealed. intros Hr.
  destruct (step_transition e s) as
    [Hv Hf
    |key now now' a0 tr0 He Hp Hc Ha0 Hr0 Hl Hdeb Hh Hp' Hlr Ht Hc' Hlc Hs Hf
    |h t0 t1 t2 r tm a0 tr0 He Hpend Hcb Hdue Hp Hc Ha0 Hr0 Hh Hp' Ht Hc' Hlc Hs Hf
    |h t0 t1 t2 r tm c He Hpend Hcb Hdue Hp Hd Ht0 Ht1 Hpick Hh Ht Hc' Hlc Hf
       Hp' Hs
    |Hend Hp Hp' Hs Hh Ht Hc' Hlc Hf
    |now He Hp Hp' Ht Hc' Hs Hte Hh Hlc Hf
    |He Hp' Ht Hc' Hlc Hs Hh Hf].
  - injection Hv as _ Hh _ _ _ _. now rewrite Hh in Hr.
  - rewrite Hh, length_insert in Hr. congruence.
  - rewrite Hh, length_insert in Hr. congruence.
  - exists h, t0, t1, t2, r, tm, c.
    apply Qle_bool_iff in Hdue. apply Qlt_bool_iff in Ht0.
    apply Qle_bool_false in Ht1.
    repeat split; auto.
  - now rewrite Hh in Hr.
  - now rewrite Hh in Hr.
  - now rewrite Hh in Hr.
Qed.

(** ** The premature flag *)

Lemma premature_step (e : Event) (s : State) (a : nat) (tr : Trial) :
  heap s !! a = Some tr ->
  exists tr', heap (step e s) !! a = Some tr' /\ premature tr' = premature tr.
Proof.
  intros Ha.
  destruct (trial_step e s a tr Ha)
    as [H|(_ & _ & _ & _ & [(key & now & now' & _ & _ & H)
                           |(h & t0 & t1 & t2 & r & tm & _ & _ & _ & _ & H)])];
    eauto.
Qed.

Lemma premature_run (evs : list Event) (s : State) (a : nat) (tr : Trial) :
  heap s !! a = Some tr ->
  exists tr', heap (run evs s) !! a = Some tr' /\ premature tr' = premature tr.
Proof.
  revert s tr. induction evs as [|e evs IH]; intros s tr Ha; [eauto|].
  rewrite run_cons.
  destruct (premature_step e s a tr Ha) as (tr1 & H1 & E1).
  destruct (IH _ _ H1) as (tr2 & H2 & E2).
  exists tr2. split; [exact H2 | congruence].
Qed.

Lemma flag_step (e : Event) (s : State) :
  flagPrematureForNext s = true ->
  (flagPrematureForNext (step e s) = true /\ revealed (step e s) = revealed s)
  \/ (exists tr, heap (step e s) !! revealed s = Some tr
                 /\ premature tr = true).
Proof.
  intros Hflag. unfold revealed.
  destruct (step_transition e s) as
    [Hv Hf
    |key now now' a0 tr0 He Hp Hc Ha0 Hr0 Hl Hdeb Hh Hp' Hlr Ht Hc' Hlc Hs Hf
    |h t0 t1 t2 r tm a0 tr0 He Hpend Hcb Hdue Hp Hc Ha0 Hr0 Hh Hp' Ht Hc' Hlc Hs Hf
    |h t0 t1 t2 r tm c He Hpend Hcb Hdue Hp Hd Ht0 Ht1 Hpick Hh Ht Hc' Hlc Hf
       Hp' Hs
    |Hend Hp Hp' Hs Hh Ht Hc' Hlc Hf
    |now He Hp Hp' Ht Hc' Hs Hte Hh Hlc Hf
    |He Hp' Ht Hc' Hlc Hs Hh Hf].
  - left. injection Hv as _ Hh _ _ _ _. rewrite Hh. split; [|reflexivity].
    destruct Hf as [Hf|[_ Hf]]; congruence.
  - left. rewrite Hh, length_insert. split; congruence.
  - left. rewrite Hh, length_insert. split; congruence.
  - right. eexists. rewrite Hh. split; [apply list_lookup_middle; reflexivity|].
    exact Hflag.
  - left. rewrite Hh. split; congruence.
  - left. rewrite Hh. split; congruence.
  - left. rewrite Hh. split; congruence.
Qed.

(** X19.  The premature flag waits for the next stimulus.  Once
    [flagPrematureForNext] is set, no event clears it except the reveal of
    a stimulus, which stamps it on the new trial: after any sequence of
    events either the flag is still set and no stimulus has been revealed,
    or the first trial revealed since is marked [premature].  Neither
    [refreshTest] nor [startTest] resets the flag, so it can carry over
    into the next session. *)
Theorem premature_flag_carries_over (s : State) (evs : list Event) :
  flagPrematureForNext s = true ->
  (flagPrematureForNext (run evs s) = true
   /\ revealed (run evs s) = revealed s)
  \/ (exists tr, heap (run evs s) !! revealed s = Some tr
                 /\ premature tr = true).
Proof.
  revert s. induction evs as [|e evs IH]; intros s Hflag; [now left|].
  rewrite run_cons.
  destruct (flag_step e s Hflag) as [[Hf Hr]|(tr & Ha & Hpr)].
  - rewrite <- Hr. now apply IH.
  - right. destruct (premature_run evs _ _ _ Ha) as (tr' & Ha' & E).
    exists tr'. split; [exact Ha' | congruence].
Qed.

(** ** The chart of a finished session *)

(** X20.  The chart of a finished session shows every correct response.
    In a reachable state whose phase is [finished] there is a summary, the
    histogram drawn from it has 10 bars, and their counts add up to the
    number of correct responses of the summary, each response falling in
    exactly one bar. *)
Theorem chart_counts_correct_responses (s : State) :
  reachable s -> phase s = finished ->
  exists st h,
    summary s = Some st /\ hist (summary s) = Some h
    /\ length (Histogram.counts h) = 10
    /\ list_sum (Histogram.counts h) = Stats.correct st
    /\ Stats.correct st = length (List.filter counted (log s)).
Proof.
  intros Hs Hp. pose proof (reachable_log_inv s Hs) as Hli.
  pose proof (li_summary s Hli Hp) as Hsum.
  assert (Hwf : Forall wf_trial (log s)).
  { apply Forall_forall. intros tr Htr. apply log_elem_heap in Htr.
    pose proof (li_wf s Hli) as H4. rewrite Forall_forall in H4. now apply H4. }
  destruct (computeStats_samples (log s)) as [E1 _].
  rewrite (wf_counted_rt counted (log s)) in E1 by auto.
  exists (computeStats (log s)), (histogram (numbers (Stats.rtSamples
                                                      (computeStats (log s)))) 10).
  split; [exact Hsum|]. split; [now rewrite Hsum|].
  split; [apply (histogram_counts_length _ 10)|].
  rewrite histogram_counts_sum.
  change (Stats.correct (computeStats (log s)))
    with (length (Stats.rtSamples (computeStats (log s)))).
  rewrite E1, numbers_fmap_Some, length_fmap. split; [reflexivity|].
  destruct (computeStats_samples (log s)) as [E1' _].
  rewrite <- (length_fmap rt (List.filter counted (log s))), <- E1', E1.
  now rewrite length_fmap.
Qed.

(** ** The deadline of a trial *)

Lemma deadline_ok_mono (h h' : list Trial) (tm : Timeout) :
  (forall a tr, h !! a = Some tr ->
     exists tr', h' !! a = Some tr' /\ onset tr' = onset tr) ->
  deadline_ok h tm -> deadline_ok h' tm.
Proof.
  intros Hmono. unfold deadline_ok. destruct (callback tm); auto.
  intros (tr & Ha & Hd). destruct (Hmono _ _ Ha) as (tr' & Ha' & Ho).
  exists tr'. split; [exact Ha' | congruence].
Qed.

Lemma deadlines_frame (s s' : State) :
  heap s' = heap s -> timeouts s' = timeouts s ->
  deadlines_ok s -> deadlines_ok s'.
Proof. unfold deadlines_ok. now intros -> ->. Qed.

Lemma deadlines_clearTimeout (h : positive) (s : State) :
  deadlines_ok s -> deadlines_ok (clearTimeout h s).
Proof. unfold deadlines_ok. cbn. apply Forall_filter_sub. Qed.

Lemma deadlines_setTimeout (cb : Callback) (now ms : Q) (s : State) :
  (forall a, cb <> DeadlineCb a) ->
  deadlines_ok s -> deadlines_ok (snd (setTimeout cb now ms s)).
Proof.
  intros Hcb Hs. unfold deadlines_ok. cbn. constructor; [|exact Hs].
  unfold deadline_ok. cbn. destruct cb; auto. now destruct (Hcb myTrial).
Qed.

Lemma deadlines_endTest (s : State) : deadlines_ok s -> deadlines_ok (endTest s).
Proof.
  intros Hs. unfold endTest.
  destruct (phase s); try exact Hs; (eapply deadlines_frame; [| |exact Hs]);
    reflexivity.
Qed.

Lemma deadlines_schedule (now : Q) (s : State) :
  deadlines_ok s -> deadlines_ok (scheduleStimulusAfterLGate now s).
Proof.
  intros Hs. unfold scheduleStimulusAfterLGate.
  destruct (phase s); try exact Hs.
  set (s1 := match lGateTimer s with
             | Some h => clearTimeout h s
             | None => s
             end).
  assert (Hs1 : deadlines_ok s1)
    by (subst s1; destruct (lGateTimer s);
        [now apply deadlines_clearTimeout | exact Hs]).
  pose proof (deadlines_setTimeout GateCb now
                (Qmax 1 (L_HOLD_MS - (now - lDownAt s1))) s1) as H.
  eapply deadlines_frame; [| |apply H; [discriminate | exact Hs1]];
    reflexivity.
Qed.

Lemma deadlines_heap (s s' : State) :
  timeouts s' = timeouts s ->
  (forall a tr, heap s !! a = Some tr ->
     exists tr', heap s' !! a = Some tr' /\ onset tr' = onset tr) ->
  deadlines_ok s -> deadlines_ok s'.
Proof.
  unfold deadlines_ok. intros -> Hmono Hs.
  eapply Forall_impl; [exact Hs|]. intros tm. now apply deadline_ok_mono.
Qed.

Lemma deadlines_handleKeyDown (key : string) (now now' : Q) (s : State) :
  deadlines_ok s -> deadlines_ok (handleKeyDown key now now' s).
Proof.
  intros Hs. unfold handleKeyDown.
  destruct (negb (hasFocus s)); [exact Hs|].
  destruct (String.eqb key "L").
  { destruct (negb (lIsDown s)); [|exact Hs].
    destruct (_ && _).
    - apply deadlines_schedule.
      eapply deadlines_frame; [| |exact Hs]; reflexivity.
    - eapply deadlines_frame; [| |exact Hs]; reflexivity. }
  destruct (Qlt_bool _ _); [exact Hs|].
  destruct (phase s); try exact Hs.
  - destruct (_ || _); [|exact Hs].
    eapply deadlines_frame; [| |exact Hs]; reflexivity.
  - destruct (currentTrial s) as [a|]; [|exact Hs].
    destruct (heap s !! a) as [tr|] eqn:Ha; [|exact Hs].
    destruct (isLetter key); [|exact Hs].
    destruct (truthy_num (respondedAt tr)); cbn [negb].
    + eapply deadlines_frame; [| |exact Hs]; reflexivity.
    + apply (deadlines_heap s); [reflexivity| |exact Hs].
      cbn. intros b t Hb. destruct (decide (a = b)) as [->|Hne].
      * rewrite list_lookup_insert_eq by (eapply lookup_lt_Some; eauto).
        eexists. split; [reflexivity|]. cbn. congruence.
      * rewrite list_lookup_insert_ne by exact Hne. eauto.
Qed.

Lemma deadlines_handleKeyUp (key : string) (now : Q) (s : State) :
  deadlines_ok s -> deadlines_ok (handleKeyUp key now s).
Proof.
  intros Hs. unfold deadlines_ok.
  replace (heap (handleKeyUp key now s)) with (heap s)
    by (unfold handleKeyUp; repeat case_match; reflexivity).
  destruct (timeouts_handleKeyUp key now s) as [->|[h ->]]; [exact Hs|].
  now apply Forall_filter_sub.
Qed.

Lemma deadlines_deadlineCallback (myTrial : nat) (s : State) :
  deadlines_ok s -> deadlines_ok (deadlineCallback myTrial s).
Proof.
  intros Hs. unfold deadlineCallback.
  destruct (deadline_guard myTrial s); [|exact Hs].
  apply (deadlines_heap s); [reflexivity| |exact Hs].
  cbn. intros a tr Ha. destruct (decide (myTrial = a)) as [->|Hne].
  - rewrite list_lookup_alter_eq, Ha. cbn. eauto.
  - rewrite list_lookup_alter_ne by exact Hne. eauto.
Qed.

Lemma deadlines_showNextStimulus (t1 t2 r : Q) (s : State) :
  deadlines_ok s -> deadlines_ok (showNextStimulus t1 t2 r s).
Proof.
  intros Hs. unfold showNextStimulus.
  destruct (Qle_bool _ _); [exact Hs|].
  destruct (pickNextColor (lastColor s) r) as [c|]; [|exact Hs].
  unfold deadlines_ok. cbn. constructor.
  - unfold deadline_ok. cbn [callback due].
    eexists. split; [apply list_lookup_middle; reflexivity | reflexivity].
  - eapply Forall_impl; [exact Hs|]. intros tm. apply deadline_ok_mono.
    intros a tr Ha. exists tr. split; [|reflexivity].
    now apply lookup_app_l_Some.
Qed.

Lemma deadlines_tick (t : Q) (s : State) : deadlines_ok s -> deadlines_ok (tick t s).
Proof.
  intros Hs. unfold tick. destruct (Qle_bool _ _); [|exact Hs].
  assert (Hc : deadlines_ok (clearTimer s))
    by (eapply deadlines_frame; [| |exact Hs]; reflexivity).
  destruct (phase (clearTimer s)); try (now apply deadlines_endTest).
  apply deadlines_setTimeout; [discriminate | exact Hc].
Qed.

Lemma deadlines_step (e : Event) (s : State) :
  deadlines_ok s -> deadlines_ok (step e s).
Proof.
  intros Hs. destruct e; cbn [step].
  - now apply deadlines_handleKeyDown.
  - now apply deadlines_handleKeyUp.
  - destruct (pending h s) as [tm|]; [|exact Hs].
    destruct (Qle_bool _ _); [|exact Hs].
    pose proof (deadlines_clearTimeout h s Hs) as Hc.
    destruct (callback tm); cbn [run_callback].
    + unfold gateCallback. destruct (_ && _ && _); [|exact Hc].
      now apply deadlines_showNextStimulus.
    + now apply deadlines_deadlineCallback.
    + now apply deadlines_endTest.
  - destruct (timerId s); [now apply deadlines_tick | exact Hs].
  - eapply deadlines_frame; [| |exact Hs]; reflexivity.
  - eapply deadlines_frame; [| |exact Hs]; reflexivity.
  - unfold startTest. destruct (phase s); exact Hs.
  - unfold deadlines_ok.
    replace (heap (refreshTest s)) with (heap s)
      by (unfold refreshTest;
          match goal with
          | |- context [lGateTimer ?x] => change (lGateTimer x) with (lGateTimer s)
          end; now destruct (lGateTimer s)).
    rewrite timeouts_refreshTest.
    destruct (lGateTimer s); [now apply Forall_filter_sub | exact Hs].
Qed.

Lemma reachable_deadlines (s : State) : reachable s -> deadlines_ok s.
Proof.
  induction 1 as [|e s _ IH]; [constructor | now apply deadlines_step].
Qed.

(** X21.  A trial is not missed before its deadline.  If an event turns
    a trial of a reachable state into a missed one, the event is the run
    of that trial's deadline timer, no earlier than [MAX_RT_MS + 1]
    milliseconds after the trial's onset; a stimulus was on, the trial was
    the current one and had no response, and nothing but the [missed]
    flag changes on it. *)
Theorem missed_only_after_deadline (s : State) (e : Event) (a : nat)
        (tr tr' : Trial) :
  reachable s -> heap s !! a = Some tr -> missed tr = None ->
  heap (step e s) !! a = Some tr' -> missed tr' = Some true ->
  exists h t0 t1 t2 r,
    e = Fire h t0 t1 t2 r /\ (onset tr + (MAX_RT_MS + 1) <= t0)%Q
    /\ phase s = stimulus_on /\ currentTrial s = Some a
    /\ respondedAt tr = None
    /\ tr' = set_missed (Some true) tr
    /\ phase (step e s) = awaiting_L.
Proof.
  intros Hs Ha Hm Ha' Hm'.
  destruct (trial_step e s a tr Ha)
    as [H|(Hp & Hc & _ & Hp' &
           [(key & now & now' & _ & _ & H)
           |(h & t0 & t1 & t2 & r & tm & He & Hpd & Hcb & Hdue & H)])].
  - congruence.
  - rewrite H in Ha'. injection Ha' as <-. cbn in Hm'. congruence.
  - exists h, t0, t1, t2, r.
    pose proof (reachable_deadlines s Hs) as Hd.
    apply pending_elem in Hpd as [Hin _].
    unfold deadlines_ok in Hd. rewrite Forall_forall in Hd.
    specialize (Hd tm Hin). unfold deadline_ok in Hd. rewrite Hcb in Hd.
    destruct Hd as (tr0 & Ha0 & Hd0).
    assert (tr0 = tr) by congruence. subst tr0.
    apply Qle_bool_iff in Hdue. rewrite Hd0 in Hdue.
    pose proof (reachable_log_inv s Hs) as Hli.
    destruct (li_open s Hli Hp) as (a1 & tr1 & Hc1 & Ha1 & Hopen).
    assert (a1 = a) by congruence. subst a1.
    assert (tr1 = tr) by congruence. subst tr1.
    repeat split; auto; try apply Hopen. congruence.
Qed.

(** ** Key bounce after a response *)

(** X22.  A key that follows a response within [KEY_DEBOUNCE_MS] is
    ignored.  When a key press records a response on the current trial at
    time [now], any other key than the gate key pressed less than 100 ms
    later changes nothing at all: it is neither a second response nor a
    premature key for the next trial. *)
Theorem bounce_after_response_ignored (s : State) (key key2 : string)
        (now now' t t' : Q) :
  heap (step (KeyDown key now now') s) <> heap s ->
  String.eqb key2 "L" = false -> (t - now < KEY_DEBOUNCE_MS)%Q ->
  step (KeyDown key2 t t') (step (KeyDown key now now') s)
  = step (KeyDown key now now') s.
Proof.
  intros Hh Hk Ht.
  assert (Hl : lastResponseAt (step (KeyDown key now now') s) = now).
  { destruct (step_transition (KeyDown key now now') s) as
      [Hv Hf
      |k n n' a0 tr0 He Hp Hc Ha0 Hr0 Hl' Hdeb Hh' Hp' Hlr Ht' Hc' Hlc Hs Hf
      |h t0 t1 t2 r tm a0 tr0 He
      |h t0 t1 t2 r tm c He
      |Hend Hp Hp' Hs Hh'
      |n He
      |He];
      try discriminate.
    - injection Hv as _ Hh' _ _ _ _. now destruct Hh.
    - injection He as <- <- <-. exact Hlr.
    - now destruct Hh. }
  set (s1 := step (KeyDown key now now') s) in *.
  cbn [step]. unfold handleKeyDown.
  destruct (negb (hasFocus s1)); [reflexivity|].
  rewrite Hk, Hl.
  apply Qlt_bool_iff in Ht. now rewrite Ht.
Qed.

(** ** The countdown display *)

Lemma two_digits (n : nat) :
  n < 60 ->
  padStart 2 "0" (Number_toString (Z.of_nat n))
  = (Number_toString (Z.of_nat (n / 10))
     ++ Number_toString (Z.of_nat (n mod 10)))%string.
Proof.
  intros Hn. do 60 (destruct n as [|n]; [reflexivity|]). lia.
Qed.

(** X23.  The countdown shows minutes and two-digit seconds.  For a
    remaining time between 0 and the test duration, [mmss] prints
    [m:ss], where [ss] is two decimal digits below 60, [m] is 0 or 1, and
    [60 m + ss] is the number of seconds left, rounded up. *)
Theorem mmss_minutes_seconds (ms : Q) :
  (0 <= ms)%Q -> (ms <= TEST_DURATION_MS)%Q ->
  exists m d1 d0 : nat,
    mmss ms = (Number_toString (Z.of_nat m) ++ ":"
               ++ Number_toString (Z.of_nat d1)
               ++ Number_toString (Z.of_nat d0))%string
    /\ m <= 1 /\ d1 < 6 /\ d0 < 10
    /\ (inject_Z (Z.of_nat (60 * m + 10 * d1 + d0)) - 1 < ms / 1000)%Q
    /\ (ms / 1000 <= inject_Z (Z.of_nat (60 * m + 10 * d1 + d0)))%Q.
Proof.
  intros H0 H1. unfold TEST_DURATION_MS in H1. unfold mmss.
  set (s := Qceiling (ms / 1000)).
  assert (Hlo : (0 <= ms / 1000)%Q) by (apply Qle_shift_div_l; lra).
  assert (Hhi : (ms / 1000 <= 60)%Q) by (apply Qle_shift_div_r; lra).
  assert (Hs0 : (0 <= s)%Z).
  { change 0%Z with (Qceiling 0). now apply Qceiling_resp_le. }
  assert (Hs60 : (s <= 60)%Z).
  { change 60%Z with (Qceiling 60). now apply Qceiling_resp_le. }
  pose proof (Qle_ceiling (ms / 1000)) as Hc1.
  pose proof (Qceiling_lt (ms / 1000)) as Hc2.
  fold s in Hc1, Hc2.
  assert (Hrem : Z.rem s 60 = (s mod 60)%Z) by (apply Z.rem_mod_nonneg; lia).
  pose proof (Z.mod_pos_bound s 60 ltac:(lia)) as Hmod.
  pose proof (Z.div_mod s 60 ltac:(lia)) as Hdm.
  set (n := Z.to_nat (s mod 60)).
  assert (Hn : n < 60) by (subst n; lia).
  exists (Z.to_nat (s / 60)), (n / 10), (n mod 10).
  assert (Hq : (0 <= s / 60 <= 1)%Z).
  { split; [apply Z.div_pos; lia|]. apply Z.div_le_upper_bound; lia. }
  split.
  - rewrite Hrem, Z2Nat.id by lia.
    replace (s mod 60)%Z with (Z.of_nat n) by (subst n; lia).
    now rewrite two_digits.
  - split; [lia|]. split; [apply Nat.Div0.div_lt_upper_bound; lia|].
    split; [apply Nat.mod_upper_bound; lia|].
    assert (E : Z.of_nat (60 * Z.to_nat (s / 60) + 10 * (n / 10) + n mod 10) = s).
    { pose proof (Nat.div_mod_eq n 10). subst n. lia. }
    rewrite E. split; [|exact Hc1].
    unfold Z.sub in Hc2. rewrite inject_Z_plus in Hc2.
    exact Hc2.
Qed.

(** ** What raises the premature flag *)

(** X24.  Only a colour key pressed while waiting raises the premature
    flag.  Whenever an event sets [flagPrematureForNext], the event is a
    press of R, Y or G, the window has the focus, the debounce time since
    the last response is over and the phase is [awaiting_L]; the press
    changes nothing in the log, the phase or the summary. *)
Theorem premature_flag_raised_by_colour_key (e : Event) (s : State) :
  flagPrematureForNext s = false -> flagPrematureForNext (step e s) = true ->
  premature_key e s /\ view (step e s) = view s.
Proof.
  intros H0 H1.
  destruct (step_transition e s) as
    [Hv Hf
    |key now now' a0 tr0 He Hp Hc Ha0 Hr0 Hl Hdeb Hh Hp' Hlr Ht Hc' Hlc Hs Hf
    |h t0 t1 t2 r tm a0 tr0 He Hpend Hcb Hdue Hp Hc Ha0 Hr0 Hh Hp' Ht Hc' Hlc Hs Hf
    |h t0 t1 t2 r tm c He Hpend Hcb Hdue Hp Hd Ht0 Ht1 Hpick Hh Ht Hc' Hlc Hf
       Hp' Hs
    |Hend Hp Hp' Hs Hh Ht Hc' Hlc Hf
    |now He Hp Hp' Ht Hc' Hs Hte Hh Hlc Hf
    |He Hp' Ht Hc' Hlc Hs Hh Hf];
    try congruence.
  destruct Hf as [Hf|[Hk _]]; [congruence|]. split; assumption.
Qed.

(** ** The share of a colour *)

Lemma Color_eqb_eq (a b : Color) : Color_eqb a b = true <-> a = b.
Proof. destruct a, b; cbn; split; congruence. Qed.

Lemma no_repeat_share (c : Color) (l : list Trial) :
  no_repeat (color <$> l) ->
  2 * length (List.filter (attempted_in c) l) <= length l + 1
  /\ (head (color <$> l) <> Some c ->
      2 * length (List.filter (attempted_in c) l) <= length l).
Proof.
  induction l as [|t l IH]; [cbn; split; intros; lia|].
  intros Hn. rewrite length_filter_cons. cbn [length].
  assert (Hn' : no_repeat (color <$> l)).
  { destruct l as [|t' l]; [exact I|]. apply Hn. }
  destruct (IH Hn') as [IHa IHb]. unfold attempted_in at 1 3.
  destruct (Color_eqb (color t) c) eqn:E.
  - apply Color_eqb_eq in E. split.
    + assert (Hb : 2 * length (List.filter (attempted_in c) l) <= length l).
      { apply IHb. destruct l as [|t' l]; [discriminate|].
        cbn. destruct Hn as [Hne _]. cbn in Hne. congruence. }
      lia.
    + intros Hh. cbn in Hh. congruence.
  - split; intros; lia.
Qed.

(** X25.  No colour takes more than its share.  Since no colour is shown
    twice in a row, in the statistics of the log of any reachable state a
    colour's [attempts], doubled, exceed the total number of trials by at
    most one: no colour accounts for more than half of the stimuli,
    rounded up. *)
Theorem colour_share_bounded (s : State) (c : Color) :
  reachable s ->
  let st := computeStats (log s) in
  2 * PerColor.attempts (get c (Stats.perColor st)) <= Stats.totalTrials st + 1.
Proof.
  intros Hs st. subst st.
  destruct (perColor_counts (log s) c) as [-> _].
  change (Stats.totalTrials (computeStats (log s))) with (length (log s)).
  apply reachable_log_inv in Hs.
  now apply no_repeat_share, (li_colors s Hs).
Qed.

(** ** Instances of the properties of the rest of the component *)

Lemma counters_order_independent_witness :
  Permutation sample_log (rev sample_log)
  /\ Stats.correct (computeStats sample_log)
     = Stats.correct (computeStats (rev sample_log))
  /\ Stats.misses (computeStats sample_log)
     = Stats.misses (computeStats (rev sample_log)).
Proof.
  assert (HP : Permutation sample_log (rev sample_log))
    by apply Permutation_rev.
  split; [exact HP|].
  destruct (counters_order_independent sample_log (rev sample_log) HP)
    as (_ & _ & Hc & _ & Hm & _).
  split; [exact Hc | exact Hm].
Defined.

Lemma median_order_independent_witness :
  Permutation [310%Q; 420%Q; 500%Q] [500%Q; 310%Q; 420%Q]
  /\ exists m m',
       median (Some <$> [310%Q; 420%Q; 500%Q]) = Some (Num m)
       /\ median (Some <$> [500%Q; 310%Q; 420%Q]) = Some (Num m')
       /\ (m == m')%Q
       /\ forall m0, is_median [310%Q; 420%Q; 500%Q] m0 -> (m0 == m)%Q.
Proof.
  assert (HP : Permutation [310%Q; 420%Q; 500%Q] [500%Q; 310%Q; 420%Q]).
  { apply Permutation_sym. apply perm_trans with [310%Q; 500%Q; 420%Q].
    - apply perm_swap.
    - apply perm_skip, perm_swap. }
  split; [exact HP|].
  apply (median_order_independent _ _ HP). discriminate.
Defined.

Lemma missing_rt_gives_NaN_witness :
  counted answered_without_rt = true /\ rt answered_without_rt = None
  /\ Stats.overallAvgRT (computeStats [answered_without_rt]) = Some NaN
  /\ PerColor.minRT (get R (Stats.perColor (computeStats [answered_without_rt])))
     = Some NaN.
Proof.
  split; [reflexivity|]. split; [reflexivity|].
  destruct (missing_rt_gives_NaN [answered_without_rt] answered_without_rt)
    as (_ & Ha & _ & Hmin & _);
    [now left | reflexivity | reflexivity |].
  split; [exact Ha | exact Hmin].
Defined.

Lemma histogram_additive_witness :
  exists c1 c2,
    Histogram.counts (histogram [310%Q; 420%Q] 10) !! 0 = Some c1
    /\ Histogram.counts (histogram [120%Q] 10) !! 0 = Some c2
    /\ Histogram.counts (histogram ([310%Q; 420%Q] ++ [120%Q]) 10) !! 0
       = Some (c1 + c2).
Proof.
  destruct (histogram_additive [310%Q; 420%Q] [120%Q] 10 0) as [H _];
    [vm_compute; lia | exact H].
Defined.

Lemma reachable_yellow_shown : reachable yellow_shown.
Proof. repeat apply reachable_step. apply reachable_init. Defined.

Lemma reachable_yellow_answered : reachable yellow_answered.
Proof. apply reachable_step, reachable_yellow_shown. Defined.

Lemma reachable_two_stimuli : reachable two_stimuli.
Proof. do 3 apply reachable_step. exact reachable_yellow_answered. Defined.

Lemma reachable_session_over : reachable session_over.
Proof. apply reachable_step, reachable_yellow_answered. Defined.

Lemma trial_records_consistent_witness :
  reachable two_stimuli
  /\ Forall wf_trial (heap two_stimuli) /\ Forall wf_trial (log two_stimuli).
Proof.
  split; [exact reachable_two_stimuli|].
  exact (trial_records_consistent two_stimuli reachable_two_stimuli).
Defined.

Lemma session_stats_numeric_witness :
  reachable yellow_answered
  /\ Stats.overallAvgRT (computeStats (log yellow_answered)) <> Some NaN.
Proof.
  split; [exact reachable_yellow_answered|].
  destruct (session_stats_numeric yellow_answered reachable_yellow_answered)
    as (_ & H & _).
  exact H.
Defined.

Lemma trial_lifecycle_witness :
  reachable yellow_answered
  /\ heap yellow_answered !! 0 = Some yellow_trial_answered
  /\ closed_trial yellow_trial_answered
  /\ heap (run [KeyDown "G" 900 900; Fire 3 5301 5301 5301 0; Tick 60000]
               yellow_answered) !! 0
     = Some yellow_trial_answered.
Proof.
  assert (Hc : closed_trial yellow_trial_answered) by (left; discriminate).
  split; [exact reachable_yellow_answered|]. split; [reflexivity|].
  split; [exact Hc|].
  destruct (trial_lifecycle yellow_answered 0 yellow_trial_answered
              reachable_yellow_answered eq_refl) as [_ H].
  apply H. exact Hc.
Defined.

Lemma one_open_trial_witness :
  reachable yellow_shown
  /\ phase yellow_shown = stimulus_on
  /\ exists tr, last (log yellow_shown) = Some tr /\ open_trial tr.
Proof.
  split; [exact reachable_yellow_shown|]. split; [reflexivity|].
  destruct (one_open_trial yellow_shown reachable_yellow_shown) as (_ & _ & H).
  apply H. reflexivity.
Defined.

Lemma session_colours_never_repeat_witness :
  reachable two_stimuli
  /\ log two_stimuli !! 0 = Some yellow_trial_answered
  /\ log two_stimuli !! 1 = Some red_trial
  /\ color yellow_trial_answered <> color red_trial.
Proof.
  split; [exact reachable_two_stimuli|].
  split; [reflexivity|]. split; [reflexivity|].
  apply (session_colours_never_repeat two_stimuli 0 yellow_trial_answered
           red_trial reachable_two_stimuli); reflexivity.
Defined.

Lemma finished_until_refresh_witness :
  reachable session_over /\ phase session_over = finished
  /\ summary (run [KeyDown "Y" 61000 61000; Tick 61016; Start 62000]
                  session_over)
     = summary session_over.
Proof.
  split; [exact reachable_session_over|]. split; [reflexivity|].
  destruct (finished_until_refresh session_over
              [KeyDown "Y" 61000 61000; Tick 61016; Start 62000]
              reachable_session_over eq_refl) as (_ & _ & H & _);
    [repeat constructor | exact H].
Defined.

Lemma session_ends_by_timer_witness :
  phase yellow_answered <> finished
  /\ phase (step (Tick 60000) yellow_answered) = finished
  /\ ends_session (Tick 60000) yellow_answered.
Proof.
  assert (H1 : phase yellow_answered <> finished) by discriminate.
  split; [exact H1|]. split; [reflexivity|].
  destruct (session_ends_by_timer (Tick 60000) yellow_answered H1 eq_refl)
    as [H _].
  exact H.
Defined.

Lemma stimulus_only_behind_gate_witness :
  let pressed := step (KeyDown "L" 100 100) started in
  revealed (step (Fire 2 300 300 300 (1 # 2)) pressed) <> revealed pressed
  /\ exists h t0 t1 t2 r tm c,
       Fire 2 300 300 300 (1 # 2) = Fire h t0 t1 t2 r
       /\ pending h pressed = Some tm /\ callback tm = GateCb
       /\ (due tm <= t0)%Q
       /\ phase pressed = awaiting_L /\ lIsDown pressed = true
       /\ (t0 < testEndsAt pressed)%Q /\ (t1 < testEndsAt pressed)%Q
       /\ pickNextColor (lastColor pressed) r = Some c.
Proof.
  intros pressed.
  assert (H : revealed (step (Fire 2 300 300 300 (1 # 2)) pressed)
              <> revealed pressed) by discriminate.
  split; [exact H|].
  destruct (stimulus_only_behind_gate _ _ H)
    as (h & t0 & t1 & t2 & r & tm & c & H1 & H2 & H3 & H4 & H5 & H6 & H7 & H8
        & H9 & _).
  exists h, t0, t1, t2, r, tm, c. repeat split; assumption.
Defined.

(** The key G pressed while waiting in one session, then a refresh, a new
    session, and the gate key held: the first stimulus of the new session
    is revealed with the flag of the old one. *)
Lemma premature_flag_carries_over_witness :
  flagPrematureForNext premature_pending = true
  /\ ((flagPrematureForNext
         (run [Refresh; Start 1000; KeyDown "L" 1100 1100;
               Fire 3 1300 1300 1300 0] premature_pending) = true
       /\ revealed (run [Refresh; Start 1000; KeyDown "L" 1100 1100;
                         Fire 3 1300 1300 1300 0] premature_pending)
          = revealed premature_pending)
      \/ exists tr,
           heap (run [Refresh; Start 1000; KeyDown "L" 1100 1100;
                      Fire 3 1300 1300 1300 0] premature_pending)
             !! revealed premature_pending = Some tr
           /\ premature tr = true).
Proof.
  split; [reflexivity|].
  apply (premature_flag_carries_over premature_pending). reflexivity.
Defined.

Lemma chart_counts_correct_responses_witness :
  reachable session_over /\ phase session_over = finished
  /\ exists st h,
       summary session_over = Some st /\ hist (summary session_over) = Some h
       /\ length (Histogram.counts h) = 10
       /\ list_sum (Histogram.counts h) = Stats.correct st
       /\ Stats.correct st = length (List.filter counted (log session_over)).
Proof.
  split; [exact reachable_session_over|]. split; [reflexivity|].
  apply (chart_counts_correct_responses session_over reachable_session_over).
  reflexivity.
Defined.

Lemma missed_only_after_deadline_witness :
  reachable yellow_shown
  /\ heap yellow_shown !! 0 = Some yellow_trial
  /\ heap (step (Fire 3 5301 5301 5301 0) yellow_shown) !! 0
     = Some (set_missed (Some true) yellow_trial)
  /\ exists h t0 t1 t2 r,
       Fire 3 5301 5301 5301 0 = Fire h t0 t1 t2 r
       /\ (onset yellow_trial + (MAX_RT_MS + 1) <= t0)%Q.
Proof.
  split; [exact reachable_yellow_shown|]. split; [reflexivity|].
  split; [reflexivity|].
  destruct (missed_only_after_deadline yellow_shown (Fire 3 5301 5301 5301 0)
              0 yellow_trial (set_missed (Some true) yellow_trial)
              reachable_yellow_shown eq_refl eq_refl eq_refl eq_refl)
    as (h & t0 & t1 & t2 & r & H1 & H2 & _).
  exists h, t0, t1, t2, r. split; assumption.
Defined.

(** ** More scenarios, run on the model *)

(** The second stimulus of [two_stimuli] is red: after a yellow one, the
    random number 0 picks the first of the two other colours. *)
Example two_stimuli_colours : color <$> log two_stimuli = [Y; R].
Proof. reflexivity. Qed.

(** The flag of an abandoned session marks the first trial of the next
    one. *)
Example premature_carried_into_next_session :
  let s := run [Refresh; Start 1000; KeyDown "L" 1100 1100;
                Fire 3 1300 1300 1300 0] premature_pending in
  phase s = stimulus_on /\ (premature <$> log s) = [true].
Proof. split; reflexivity. Qed.

(** An end timer left over from a session that ran out while a stimulus
    was on is not cancelled by [refreshTest]: when it runs it ends the
    session started since, here 5050 ms into it. *)
Example stale_end_timer_ends_next_session :
  let s := run [Tick 60000; Refresh; Start 61000;
                Fire 4 65050 65050 65050 0] yellow_shown in
  phase s = finished /\ (testEndsAt s == 121000)%Q.
Proof. split; reflexivity. Qed.

(** The full duration is shown as one minute, and the last half second
    as one second. *)
Example mmss_examples :
  mmss TEST_DURATION_MS = "1:00"%string /\ mmss 59001 = "1:00"%string
  /\ mmss 59000 = "0:59"%string /\ mmss 500 = "0:01"%string
  /\ mmss 0 = "0:00"%string.
Proof. repeat split. Qed.

Lemma bounce_after_response_ignored_witness :
  heap (step (KeyDown "Y" 700 700) yellow_shown) <> heap yellow_shown
  /\ step (KeyDown "G" 750 750) (step (KeyDown "Y" 700 700) yellow_shown)
     = step (KeyDown "Y" 700 700) yellow_shown.
Proof.
  assert (H : heap (step (KeyDown "Y" 700 700) yellow_shown)
              <> heap yellow_shown) by discriminate.
  split; [exact H|].
  apply (bounce_after_response_ignored yellow_shown "Y" "G" 700 700 750 750 H);
    reflexivity.
Defined.

Lemma mmss_minutes_seconds_witness :
  exists m d1 d0 : nat,
    mmss 59001 = (Number_toString (Z.of_nat m) ++ ":"
                  ++ Number_toString (Z.of_nat d1)
                  ++ Number_toString (Z.of_nat d0))%string
    /\ m <= 1 /\ d1 < 6 /\ d0 < 10
    /\ (inject_Z (Z.of_nat (60 * m + 10 * d1 + d0)) - 1 < 59001 / 1000)%Q
    /\ (59001 / 1000 <= inject_Z (Z.of_nat (60 * m + 10 * d1 + d0)))%Q.
Proof. apply (mmss_minutes_seconds 59001); discriminate. Defined.

Lemma premature_flag_raised_by_colour_key_witness :
  flagPrematureForNext started = false
  /\ flagPrematureForNext (step (KeyDown "G" 150 150) started) = true
  /\ premature_key (KeyDown "G" 150 150) started.
Proof.
  split; [reflexivity|]. split; [reflexivity|].
  destruct (premature_flag_raised_by_colour_key (KeyDown "G" 150 150) started
              eq_refl eq_refl) as [H _].
  exact H.
Defined.

Lemma colour_share_bounded_witness :
  reachable two_stimuli
  /\ 2 * PerColor.attempts
           (get Y (Stats.perColor (computeStats (log two_stimuli))))
     <= Stats.totalTrials (computeStats (log two_stimuli)) + 1.
Proof.
  split; [exact reachable_two_stimuli|].
  exact (colour_share_bounded two_stimuli Y reachable_two_stimuli).
Defined.

(** * The mean and the median reported *)

Lemma reduce_sum_acc (l : list Q) (a : Q) :
  (fold_left Qplus l a == a + Qsum l)%Q.
Proof.
  revert a. induction l as [|x l IH]; intros a; cbn [fold_left].
  - change (Qsum []) with 0%Q. ring.
  - rewrite IH. change (Qsum (x :: l)) with (x + Qsum l)%Q. ring.
Qed.

Lemma reduce_sum_mean (l : list Q) :
  (mean l == reduce_sum l / inject_Z (Z.of_nat (length l)))%Q.
Proof.
  unfold mean, reduce_sum. rewrite reduce_sum_acc, Qplus_0_l. reflexivity.
Qed.

Lemma reported_sample (sample : list (option Q)) :
  reported sample
    (match sample with
     | [] => None
     | _ :: _ => Some (round1 (avg sample))
     end)
    (match sample with
     | [] => None
     | _ :: _ => Some (round1 (ToNumber' (median sample)))
     end).
Proof.
  unfold reported. destruct sample as [|x xs].
  - repeat split; auto; try congruence.
    + intros l Hl E. destruct l; cbn in E; congruence.
    + intros [].
  - repeat split; try congruence.
    + intros l Hl E. rewrite E.
      destruct (avg_numbers l Hl) as (a & -> & Ea).
      destruct (median_numbers l Hl) as (m0 & -> & Hm0).
      exists a, m0. repeat split; auto.
      now rewrite Ea, reduce_sum_mean.
    + intros H. now rewrite (avg_undefined _ H).
Qed.

Lemma reported_perColor (trs : list Trial) (c : Color) :
  reported (get c (Stats.rtSamplesByColor (computeStats trs)))
           (PerColor.avgRT (get c (Stats.perColor (computeStats trs))))
           (PerColor.medianRT (get c (Stats.perColor (computeStats trs)))).
Proof.
  rewrite computeStats_perColor.
  pose proof (loop_rt_fields trs acc_init c) as Hf.
  replace (get c (acc_perColor acc_init)) with perColorInit in Hf
    by (destruct c; reflexivity).
  unfold rt_fields in Hf. cbn in Hf.
  injection Hf as Ha Hm _ _.
  pose proof (reported_sample
                (get c (Stats.rtSamplesByColor (computeStats trs)))) as Hr.
  unfold finish_color.
  destruct (get c (Stats.rtSamplesByColor (computeStats trs))); cbn.
  - now rewrite Ha, Hm.
  - exact Hr.
Qed.

(** When every counted trial carries its latency, as the non-null
    assertion [t.rt!] of the loop presumes, the samples are numbers. *)
Lemma counted_samples_numbers (P : Trial -> bool) (trs : list Trial) :
  (forall t, P t = true -> counted t = true) ->
  Forall (fun t => counted t = true -> rt t <> None) trs ->
  exists l, rt <$> List.filter P trs = Some <$> l.
Proof.
  intros HP. induction 1 as [|t trs Ht _ (l & IH)]; [now exists []|].
  cbn [List.filter]. destruct (P t) eqn:E; [|now exists l].
  destruct (rt t) as [q|] eqn:Eq; [|now destruct (Ht (HP t E))].
  exists (q :: l). cbn. now rewrite Eq, IH.
Qed.




(** * The range of the reported latencies *)

Lemma Qsum_replicate (n : nat) (q : Q) :
  (Qsum (replicate n q) == inject_Z (Z.of_nat n) * q)%Q.
Proof.
  induction n as [|n IH].
  - change (Qsum (replicate 0 q)) with 0%Q. change (inject_Z (Z.of_nat 0)) with 0%Q.
    ring.
  - change (Qsum (replicate (S n) q)) with (q + Qsum (replicate n q))%Q.
    rewrite IH, Nat2Z.inj_succ, <- Z.add_1_r, inject_Z_plus.
    change (inject_Z 1) with 1%Q. ring.
Qed.

Lemma avg_replicate (n : nat) (q : Q) :
  0 < n -> exists a, avg (Some <$> replicate n q) = Num a /\ (a == q)%Q.
Proof.
  intros Hn.
  assert (Hne : replicate n q <> []) by (destruct n; [lia | discriminate]).
  destruct (avg_numbers _ Hne) as (a & Ha & E).
  exists a. split; [exact Ha|]. rewrite E. unfold mean.
  rewrite Qsum_replicate, length_replicate.
  assert (H0 : ~ (inject_Z (Z.of_nat n) == 0)%Q).
  { change 0%Q with (inject_Z 0). rewrite inject_Z_injective. lia. }
  field. exact H0.
Qed.

Lemma round1Q_proper (x y : Q) : (x == y)%Q -> (round1Q x == round1Q y)%Q.
Proof.
  intros E. apply Qle_antisym; apply round1Q_monotone; rewrite E; apply Qle_refl.
Qed.

(** C3, amended.  For every trial log and colour whose correct-only
    sample is not empty and holds a number for every correct response:
    [minRT] and [maxRT] are the least and the greatest latency of the
    sample; the median of the sample lies between them, and the
    [medianRT] reported, its [round1], lies between [round1] of [minRT]
    and [round1] of [maxRT]; the [avgRT] reported lies between the means
    that would be reported for as many copies of [minRT] and of [maxRT]
    as the sample has values.  The values reported are rounded to one
    decimal and [minRT] and [maxRT] are not, so [avgRT] and [medianRT]
    can fall outside [[minRT, maxRT]]. *)
Theorem rounded_latencies_near_range (trs : list Trial) (c : Color) (l : list Q) :
  l <> [] ->
  get c (Stats.rtSamplesByColor (computeStats trs)) = Some <$> l ->
  let p := get c (Stats.perColor (computeStats trs)) in
  exists lo hi a m m0 al ah,
    PerColor.minRT p = Some (Num lo) /\ PerColor.maxRT p = Some (Num hi)
    /\ PerColor.avgRT p = Some (Num a) /\ PerColor.medianRT p = Some (Num m)
    /\ In lo l /\ In hi l /\ (forall y, In y l -> (lo <= y <= hi)%Q)
    /\ median (Some <$> l) = Some (Num m0)
    /\ (lo <= m0 <= hi)%Q /\ m = round1Q m0
    /\ (round1Q lo <= m <= round1Q hi)%Q
    /\ round1 (avg (Some <$> replicate (length l) lo)) = Num al
    /\ round1 (avg (Some <$> replicate (length l) hi)) = Num ah
    /\ (al <= a <= ah)%Q.
Proof.
  intros Hl E p.
  destruct (reported_perColor trs c) as (_ & _ & _ & Hnum & _).
  destruct (Hnum l Hl E) as (a & m0 & Ha & Ea & Hra & Hm & Hmed & Hrm).
  subst p. rewrite Hra, Hrm. rewrite E in Hm.
  rewrite computeStats_perColor, E. unfold finish_color.
  destruct l as [|x xs]; [congruence|]. cbn [fmap list_fmap].
  destruct (Math_min_numbers x xs) as (lo & Elo & Hlo_in & Hlo).
  destruct (Math_max_numbers x xs) as (hi & Ehi & Hhi_in & Hhi).
  cbn [PerColor.minRT PerColor.maxRT].
  change (list_fmap Q (option Q) Some xs) with (Some <$> xs).
  rewrite Elo, Ehi.
  assert (Hb : forall y, In y (x :: xs) -> (lo <= y <= hi)%Q)
    by (intros y Hy; split; auto).
  pose proof (mean_bounds lo hi (x :: xs) Hl Hb) as [Hm1 Hm2].
  rewrite reduce_sum_mean, <- Ea in Hm1, Hm2.
  pose proof (is_median_bounds lo hi (x :: xs) m0 Hl Hb Hmed) as [Hd1 Hd2].
  destruct (avg_replicate (length (x :: xs)) lo) as (al & Hal & Eal);
    [cbn; lia|].
  destruct (avg_replicate (length (x :: xs)) hi) as (ah & Hah & Eah);
    [cbn; lia|].
  exists lo, hi, (round1Q a), (round1Q m0), m0, (round1Q al), (round1Q ah).
  rewrite Hal, Hah.
  repeat match goal with |- _ /\ _ => split end; auto;
    try (apply round1Q_monotone; first [assumption | rewrite Eal | rewrite Eah];
         assumption).
Qed.

Lemma rounded_latencies_near_range_witness :
  [1241 # 4]%Q <> []
  /\ get R (Stats.rtSamplesByColor (computeStats quarter_ms_log))
     = Some <$> [1241 # 4]%Q
  /\ exists lo hi a m m0 al ah,
       let p := get R (Stats.perColor (computeStats quarter_ms_log)) in
       PerColor.minRT p = Some (Num lo) /\ PerColor.maxRT p = Some (Num hi)
       /\ PerColor.avgRT p = Some (Num a) /\ PerColor.medianRT p = Some (Num m)
       /\ In lo [1241 # 4]%Q /\ In hi [1241 # 4]%Q
       /\ (forall y, In y [1241 # 4]%Q -> (lo <= y <= hi)%Q)
       /\ median (Some <$> [1241 # 4]%Q) = Some (Num m0)
       /\ (lo <= m0 <= hi)%Q /\ m = round1Q m0
       /\ (round1Q lo <= m <= round1Q hi)%Q
       /\ round1 (avg (Some <$> replicate 1 lo)) = Num al
       /\ round1 (avg (Some <$> replicate 1 hi)) = Num ah
       /\ (al <= a <= ah)%Q.
Proof.
  split; [discriminate|]. split; [reflexivity|].
  apply (rounded_latencies_near_range quarter_ms_log R [1241 # 4]%Q);
    [discriminate | reflexivity].
Defined.

(** * The gate key, pressed, released and pressed again *)

Lemma gate_press_frame (now now' : Q) (s : State) :
  phase (handleKeyDown "L" now now' s) = phase s
  /\ testEndsAt (handleKeyDown "L" now now' s) = testEndsAt s.
Proof.
  unfold handleKeyDown.
  destruct (negb (hasFocus s)); [split; reflexivity|].
  cbn [String.eqb Ascii.eqb Bool.eqb].
  destruct (negb (lIsDown s)); [|split; reflexivity].
  destruct (_ && _); [|split; reflexivity].
  unfold scheduleStimulusAfterLGate.
  change (phase (set_lDownAt now (set_lIsDown true s))) with (phase s).
  destruct (phase s) eqn:Hp; try (split; [exact Hp | reflexivity]).
  change (lGateTimer (set_lDownAt now (set_lIsDown true s)))
    with (lGateTimer s).
  destruct (lGateTimer s); split; first [exact Hp | reflexivity].
Qed.




(** * The history store *)

(** C9, counterexample.  A stored item that holds seven entries: [loadTop5]
    returns all seven. *)
Lemma loadTop5_seven_entries :
  length_parse seven_entries = Some (VArray (replicate 7 VNull))
  /\ length (loadTop5 length_parse (Got (Some seven_entries))) = 7.
Proof. split; reflexivity. Qed.
